(** * Visual-regression and self-healing harness of the cfe.jp end-to-end test

    A shallow embedding of
    - [src/helpers/screenshot.ts]  ([compareWithBaseline], [saveBaseline],
      [createScreenshotHelper]),
    - [src/helpers/test-runner.ts] (the constants, the directories prepared
      by [setupTestEnv], [reportResults], [teardownTestEnv]),
    - [src/helpers/recording.ts] ([framesToVideo], the capture loop of
      [startRecording]),
    - the refactored test script ([main] from its [try] on: Tests 1 to 5,
      the [catch] and the [finally]), and
    - [actAndAssert] and the helpers of the monolithic [src/e2e-cfe.ts].

    The browser-automation library, the PNG codec and the pixel differ are
    third-party code: they appear as the interface [Env], and every theorem is
    proved for an arbitrary implementation of it.

    Conventions of the embedding.
    - A path is the list of its components below the file-system root;
      [path.join dir name] appends one component and [path.resolve] prefixes
      the working directory.
    - The file system is a finite map from paths to nodes.
    - A JavaScript number that holds a pixel ratio is an exact rational.
    - A thrown exception is the outcome [Throw]; the polling loop runs on
      fuel, and [OutOfFuel] is shown to be unreachable.
    - [test5] is the Test 5 block of [main]'s [try].  The frames that the
      recorder writes while the tests run are not on the disk of [main];
      the recorder has a model of its own. *)

From Stdlib Require Import QArith Init.Byte Ascii.
From stdpp Require Import gmap strings list fin_maps pretty.

Local Open Scope string_scope.
Local Open Scope list_scope.
Local Open Scope nat_scope.
Local Open Scope stdpp_scope.

(** ** Strings and paths *)

(** [String.prototype.includes]: some suffix of [s] starts with [sub]. *)
Fixpoint includes (s sub : string) : bool :=
  String.prefix sub s ||
  match s with
  | EmptyString => false
  | String _ s' => includes s' sub
  end.

Abbreviation path := (list string).

(** [path.join(dir, name)] for a [name] that is a single component: it holds
    no separator, as every name the scripts pass (see [plain_name]); a name
    with separators or [..] would be normalised by Node. *)
Definition path_join (dir : path) (name : string) : path := dir ++ [name].

(** ** File system *)

Inductive node :=
| File (content : list Byte.byte)
| Dir.

Abbreviation fs := (gmap (list string) node).

(** ** Outcomes and the state-and-exception monad *)

Inductive outcome (A : Type) :=
| Ok (a : A)
| Throw
| OutOfFuel.
Arguments Ok {A} a.
Arguments Throw {A}.
Arguments OutOfFuel {A}.

Definition SE (S A : Type) : Type := S → outcome A * S.

Definition se_ret {S A} (a : A) : SE S A := λ s, (Ok a, s).

Definition se_bind {S A B} (f : A → SE S B) (m : SE S A) : SE S B :=
  λ s, match m s with
       | (Ok a, s') => f a s'
       | (Throw, s') => (Throw, s')
       | (OutOfFuel, s') => (OutOfFuel, s')
       end.

#[global] Instance SE_ret {S} : MRet (SE S) := λ A, se_ret.
#[global] Instance SE_bind {S} : MBind (SE S) := λ A B, se_bind.

Definition throw {S A} : SE S A := λ s, (Throw, s).
Definition diverge {S A} : SE S A := λ s, (OutOfFuel, s).

(** [try { m } catch {}]: an exception of [m] is swallowed, its effects stay. *)
Definition try_ignore {S} (m : SE S unit) : SE S unit :=
  λ s, match m s with
       | (Throw, s') => (Ok tt, s')
       | r => r
       end.

(** [try { m } catch { h }]. *)
Definition try_catch {S A} (m h : SE S A) : SE S A :=
  λ s, match m s with
       | (Throw, s') => h s'
       | r => r
       end.

(** ** [fs] of Node.js, on the file-system map *)

Module Fs.

Definition is_dir (d : fs) (p : path) : bool :=
  match p with
  | [] => true
  | _ => match d !! p with Some Dir => true | _ => false end
  end.

Definition parent (p : path) : path := removelast p.

(** something (a file or a directory) is at [p] *)
Definition present (d : fs) (p : path) : bool :=
  bool_decide (p = [] ∨ is_Some (d !! p)).

(** a file can be created or replaced at [p] *)
Definition writable (d : fs) (p : path) : bool :=
  match p with
  | [] => false
  | _ => is_dir d (parent p) && negb (is_dir d p)
  end.

Definition existsSync (p : path) : SE fs bool :=
  λ d, (Ok (present d p), d).

Definition readFileSync (p : path) : SE fs (list Byte.byte) :=
  λ d, match d !! p with
       | Some (File c) => (Ok c, d)
       | _ => (Throw, d)
       end.

Definition writeFileSync (p : path) (c : list Byte.byte) : SE fs unit :=
  λ d, if writable d p then (Ok tt, <[p := File c]> d) else (Throw, d).

Definition copyFileSync (src dest : path) : SE fs unit :=
  c ← readFileSync src; writeFileSync dest c.

(** [fs.rmSync(p, { recursive: true })]: [p] and everything below it. *)
Definition rmSync_recursive (p : path) : SE fs unit :=
  λ d, match d !! p with
       | Some _ => (Ok tt, filter (λ kv, ¬ p `prefix_of` kv.1) d)
       | None => (Throw, d)
       end.

(** [fs.mkdirSync(p, { recursive: true })]: walks down from the root and
    creates what is missing; a regular file on the way is an error. *)
Fixpoint mkdirp (pre rest : path) : SE fs unit :=
  match rest with
  | [] => mret tt
  | c :: rest' =>
      λ d, match d !! (pre ++ [c]) with
           | Some Dir => mkdirp (pre ++ [c]) rest' d
           | Some (File _) => (Throw, d)
           | None => mkdirp (pre ++ [c]) rest' (<[pre ++ [c] := Dir]> d)
           end
  end.

Definition mkdirSync_recursive (p : path) : SE fs unit := mkdirp [] p.

End Fs.

(** ** Images and comparison results *)

Record image := { width : nat; height : nat; data : list Byte.byte }.

Record comparison := {
  mismatchRatio : Q;
  diffSaved : bool;
  skipped : bool
}.

Record TestResult := {
  step : string;
  passed : bool;
  screenshot : list string
}.

(** A page object of the browser, compared by identity ([!==]). *)
Definition handle := nat.

(** [TestContext]: the automation library is the ambient [Env], and the
    [screenshot] helper is [createScreenshotHelper page SCREENSHOT_DIR]. *)
Record TestContext := { page : handle }.

(** ** The external collaborators *)

Class Env := {
  (** state of the browser and of the automation library, clock included *)
  B : Type;
  (** [process.cwd()] *)
  cwd : list string;
  (** [stagehand.context.pages()] and [page.url()] *)
  pages : B → list handle;
  url : B → handle → string;
  (** [Date.now()] in milliseconds *)
  now : B → nat;
  (** [await new Promise(r => setTimeout(r, ms))] *)
  sleep : nat → B → B;
  (** [stagehand.act(instruction)]; [false] is a rejected promise *)
  act : string → B → B * bool;
  (** what [act] does to the disk (its action cache) *)
  act_disk : string → B → gmap (list string) node → gmap (list string) node;
  (** [page.goto(url)], [page.waitForLoadState(state)], [page.close()] *)
  goto : handle → string → B → B * bool;
  waitForLoadState : handle → string → B → B * bool;
  close : handle → B → B * bool;
  (** the image [page.screenshot({ fullPage })] renders, or a failure *)
  capture : handle → bool → B → B * option (list Byte.byte);
  (** pngjs: [PNG.sync.read] (or an exception) and [PNG.sync.write] *)
  PNG_sync_read : list Byte.byte → option image;
  PNG_sync_write : image → list Byte.byte;
  (** [pixelmatch(img1, img2, output, width, height, { threshold })]:
      the number of differing pixels and the new content of [output] *)
  pixelmatch : list Byte.byte → list Byte.byte → list Byte.byte →
               nat → nat → Q → nat * list Byte.byte;

  (** a timer never fires early *)
  sleep_advances : ∀ ms b, now b + ms ≤ now (sleep ms b);
  (** the action cache lives in [.cache/cfe-test]; [act] writes nowhere else *)
  act_disk_frame : ∀ instr b d p,
    ¬ (cwd ++ [".cache"; "cfe-test"]) `prefix_of` p →
    act_disk instr b d !! p = d !! p;
  (** pixelmatch counts pixels of a [w] by [h] raster *)
  pixelmatch_le : ∀ a b out w h t, (pixelmatch a b out w h t).1 ≤ w * h;
  (** and finds no differing pixel between a raster and itself *)
  pixelmatch_same : ∀ a out w h t, (pixelmatch a a out w h t).1 = 0
}.

(** [new PNG({ width, height })]: a zero-filled RGBA raster. *)
Definition PNG_new (w h : nat) : image :=
  {| width := w; height := h; data := repeat Byte.x00 (4 * w * h) |}.

Section Harness.
Context `{E : Env}.

(** *** [helpers/test-runner.ts] *)

Definition path_resolve (segments : path) : path := cwd ++ segments.

Definition SCREENSHOT_DIR : path := path_resolve ["screenshots"].
Definition BASELINES_DIR : path := path_resolve ["baselines"].
Definition VISUAL_DIFF_THRESHOLD : Q := (1 # 10)%Q.

(** *** [helpers/screenshot.ts] *)

Definition decode (bytes : list Byte.byte) : SE fs image :=
  match PNG_sync_read bytes with
  | Some img => mret img
  | None => throw
  end.

(** [numDiffPixels / (width * height)]; on an empty raster JavaScript
    yields NaN where [Q] yields 0, and both fail every [>] test. *)
Definition ratio (numDiffPixels total : nat) : Q :=
  (inject_Z (Z.of_nat numDiffPixels) / inject_Z (Z.of_nat total))%Q.

Definition compareWithBaseline (currentPath : path) (baselineName : string)
    (baselinesDir diffPath : path) : SE fs comparison :=
  let baselinePath := path_join baselinesDir (baselineName +:+ ".png") in
  found ← Fs.existsSync baselinePath;
  if negb found then
    mret {| mismatchRatio := 0; diffSaved := false; skipped := true |}
  else
    img1 ← Fs.readFileSync currentPath ≫= decode;
    img2 ← Fs.readFileSync baselinePath ≫= decode;
    if negb (width img1 =? width img2) || negb (height img1 =? height img2)
    then mret {| mismatchRatio := 1; diffSaved := false; skipped := false |}
    else
      let w := width img1 in
      let h := height img1 in
      let diff := PNG_new w h in
      let '(numDiffPixels, out) :=
        pixelmatch (data img1) (data img2) (data diff) w h (1 # 10)%Q in
      let mismatch := ratio numDiffPixels (w * h) in
      Fs.writeFileSync diffPath
        (PNG_sync_write {| width := w; height := h; data := out |});;
      mret {| mismatchRatio := mismatch; diffSaved := true; skipped := false |}.

Definition saveBaseline (screenshotPath : path) (baselineName : string)
    (baselinesDir : path) : SE fs path :=
  found ← Fs.existsSync baselinesDir;
  (if negb found then Fs.mkdirSync_recursive baselinesDir else mret tt);;
  let dest := path_join baselinesDir (baselineName +:+ ".png") in
  Fs.copyFileSync screenshotPath dest;;
  mret dest.

(** *** The world of a test run *)

(** Calls into the browser, in the order they were made. *)
Inductive event :=
| EvAct (instruction : string)
| EvGoto (p : handle) (target : string)
| EvWaitForLoadState (p : handle) (state : string)
| EvClose (p : handle)
| EvScreenshot (p : handle) (file : path) (fullPage : bool).

Record world := {
  browser : B;
  disk : fs;
  (** the [results] array of [main] *)
  results : list TestResult;
  log : list event
}.

Abbreviation M := (SE world).

Definition set_browser (b : B) (w : world) : world :=
  {| browser := b; disk := disk w; results := results w; log := log w |}.
Definition set_disk (d : fs) (w : world) : world :=
  {| browser := browser w; disk := d; results := results w; log := log w |}.
Definition add_log (e : event) (w : world) : world :=
  {| browser := browser w; disk := disk w; results := results w;
     log := log w ++ [e] |}.

(** [results.push(r)] *)
Definition results_push (r : TestResult) : M unit :=
  λ w, (Ok tt, {| browser := browser w; disk := disk w;
                  results := results w ++ [r]; log := log w |}).

Definition liftFs {A} (m : SE fs A) : M A :=
  λ w, let '(o, d) := m (disk w) in (o, set_disk d w).

(** A call into the browser: logged, then run; [false] rejects. *)
Definition call (e : event) (op : B → B * bool) : M unit :=
  λ w, let '(b, ok) := op (browser w) in
       (if ok then Ok tt else Throw, set_browser b (add_log e w)).

Definition context_pages : M (list handle) := λ w, (Ok (pages (browser w)), w).
Definition page_url (p : handle) : M string := λ w, (Ok (url (browser w) p), w).
Definition Date_now : M nat := λ w, (Ok (now (browser w)), w).
Definition setTimeout (ms : nat) : M unit :=
  λ w, (Ok tt, set_browser (sleep ms (browser w)) w).

Definition stagehand_act (instruction : string) : M unit :=
  λ w, let '(b, ok) := act instruction (browser w) in
       (if ok then Ok tt else Throw,
        set_browser b
          (set_disk (act_disk instruction (browser w) (disk w))
             (add_log (EvAct instruction) w))).

Definition page_goto (p : handle) (target : string) : M unit :=
  call (EvGoto p target) (goto p target).
Definition page_waitForLoadState (p : handle) (state : string) : M unit :=
  call (EvWaitForLoadState p state) (waitForLoadState p state).
Definition page_close (p : handle) : M unit :=
  call (EvClose p) (close p).

(** [p.screenshot({ path: file, fullPage })] *)
Definition page_screenshot (p : handle) (file : path) (fullPage : bool) : M unit :=
  λ w, let '(b, shot) := capture p fullPage (browser w) in
       let w1 := set_browser b (add_log (EvScreenshot p file fullPage) w) in
       match shot with
       | Some bytes => liftFs (Fs.writeFileSync file bytes) w1
       | None => (Throw, w1)
       end.

(** The function returned by [createScreenshotHelper(page, dir)];
    [targetPage] defaults to [page]. *)
Definition createScreenshotHelper (pg : handle) (dir : path)
    (name : string) (targetPage : option handle) : M path :=
  let targetPage := default pg targetPage in
  let filePath := path_join dir (name +:+ ".png") in
  try_catch (page_screenshot targetPage filePath true)
            (page_screenshot targetPage filePath false);;
  mret filePath.

(** *** Test 5 of [main] *)

Variable ctx : TestContext.

Definition ctx_screenshot : string → option handle → M path :=
  createScreenshotHelper (page ctx) SCREENSHOT_DIR.

Definition comparisonSsPath : path := path_join SCREENSHOT_DIR "05a-before-click.png".
Definition diffPath : path := path_join SCREENSHOT_DIR "05a-diff.png".
Definition cacheDir : path := path_resolve [".cache"; "cfe-test"].

Record attempt := {
  success : bool;
  githubPage : option handle;
  allPages : list handle
}.

(** [allPages.find(p => p.url().includes("github.com"))] on the browser [b] *)
Definition find_github (b : B) (l : list handle) : option handle :=
  List.find (λ p, includes (url b p) "github.com") l.

(** The polling loop [while (Date.now() < deadline) { ... }]. *)
Fixpoint pollNewPage (fuel deadline pagesBefore : nat) : M unit :=
  match fuel with
  | 0 => diverge
  | S fuel' =>
      t ← Date_now;
      if t <? deadline then
        current ← context_pages;
        if pagesBefore <? length current then mret tt
        else setTimeout 300;; pollNewPage fuel' deadline pagesBefore
      else mret tt
  end.

(** The verdict of an attempt, read off the browser in one synchronous
    stretch (no [await] between the reads). *)
Definition assess (b : B) : attempt :=
  let allPages := pages b in
  let githubPage := find_github b allPages in
  let navigatedInPlace := includes (url b (page ctx)) "github.com" in
  {| success := bool_decide (is_Some githubPage) || navigatedInPlace;
     githubPage := match githubPage with
                   | Some p => Some p
                   | None => if navigatedInPlace then Some (page ctx) else None
                   end;
     allPages := allPages |}.

Definition observe_attempt : M attempt := λ w, (Ok (assess (browser w)), w).

Definition actAndAssert : M attempt :=
  before ← context_pages;
  let pagesBefore := length before in
  stagehand_act "Click the GitHub link";;
  t ← Date_now;
  pollNewPage 18 (t + 5000) pagesBefore;;
  setTimeout 1000;;
  observe_attempt.

(** [for (const ep of extraPages) { try { await ep.close(); } catch {} }] *)
Fixpoint closeEach (extraPages : list handle) : M unit :=
  match extraPages with
  | [] => mret tt
  | ep :: rest => try_ignore (page_close ep);; closeEach rest
  end.

(** The body of [if (!attempt.success) { ... }] up to the retry. *)
Definition selfHeal (att : attempt) : M unit :=
  let extraPages := filter (λ p, p ≠ page ctx) (allPages att) in
  closeEach extraPages;;
  found ← liftFs (Fs.existsSync cacheDir);
  (if found : bool then
     liftFs (Fs.rmSync_recursive cacheDir);;
     liftFs (Fs.mkdirSync_recursive cacheDir)
   else mret tt);;
  page_goto (page ctx) "https://cfe.jp/";;
  page_waitForLoadState (page ctx) "networkidle".

Definition attemptWithSelfHeal : M attempt :=
  att ← actAndAssert;
  if negb (success att) then selfHeal att;; actAndAssert
  else mret att.

(** [attempt.allPages[attempt.allPages.length - 1]] is [undefined] on an
    empty list, and calling a method on it throws. *)
Definition captureNewTab (att : attempt) : M unit :=
  match last (allPages att) with
  | None => throw
  | Some newTab =>
      if bool_decide (newTab ≠ page ctx) then
        try_ignore (page_waitForLoadState newTab "domcontentloaded");;
        ctx_screenshot "05b-new-tab" (Some newTab);;
        mret tt
      else mret tt
  end.

Definition test5_step : string := "Test 5: Click GitHub link".
Definition newTabPath : path := path_join SCREENSHOT_DIR "05b-new-tab.png".

Definition recordOutcome (att : attempt) : M unit :=
  if success att then
    match githubPage att with
    | Some g => page_url g
    | None => throw
    end;;
    results_push {| step := test5_step; passed := true; screenshot := newTabPath |};;
    liftFs (saveBaseline comparisonSsPath "05a-before-click" BASELINES_DIR);;
    mret tt
  else
    results_push {| step := test5_step; passed := false; screenshot := newTabPath |}.

(** [x > y] on numbers *)
Definition Qgtb (x y : Q) : bool := negb (Qle_bool x y).

Definition pageVisuallyBroken (c : comparison) : bool :=
  if skipped c then false
  else Qgtb (mismatchRatio c) VISUAL_DIFF_THRESHOLD.

(** The pre-click screenshot and its comparison with the baseline. *)
Definition visualCheck : M comparison :=
  page_screenshot (page ctx) comparisonSsPath false;;
  liftFs (compareWithBaseline comparisonSsPath "05a-before-click"
            BASELINES_DIR diffPath).

Definition test5 : M unit :=
  c ← visualCheck;
  if pageVisuallyBroken c then
    results_push {| step := test5_step; passed := false; screenshot := diffPath |}
  else
    att ← attemptWithSelfHeal;
    captureNewTab att;;
    recordOutcome att.

(** *** [actAndAssert] of the monolithic [e2e-cfe.ts] *)

Definition assess_monolithic (b : B) : attempt :=
  let allPages := pages b in
  let githubPage := find_github b allPages in
  {| success := bool_decide (is_Some githubPage);
     githubPage := githubPage;
     allPages := allPages |}.

Definition observe_attempt_monolithic : M attempt :=
  λ w, (Ok (assess_monolithic (browser w)), w).

Definition actAndAssert_monolithic : M attempt :=
  stagehand_act "Click the GitHub link";;
  setTimeout 2000;;
  observe_attempt_monolithic.

End Harness.

Abbreviation M := (SE world).

(** * The rest of the test run

    [setupTestEnv]'s preparation of the output directories, [reportResults],
    [teardownTestEnv], [framesToVideo] and the [try]/[catch]/[finally] of
    [main] with Tests 1 to 4.  The structured extraction, the observation,
    the frame recorder, closing the browser and ffmpeg are further
    collaborators, in the interface [Runner].  Of the console output only
    the lines of the final report and of the teardown are kept; the frames
    that the background recorder writes while the tests run are not part of
    the disk. *)

(** ** Further collaborators *)

(** The values [stagehand.extract] and [stagehand.observe] return. *)
Record Profile := {
  profile_name : string;
  profile_description : string;
  profile_snsLinks : list string
}.

Record Book := { book_title : string; book_description : string }.

Record ObservedAction := { action_description : string; action_method : string }.

Class Runner `{E : Env} := {
  (** [stagehand.extract(instruction, profileSchema)] and
      [stagehand.extract(instruction, booksSchema)]; [None] rejects *)
  extract_profile : string → B → B * option Profile;
  extract_books : string → B → B * option (list Book);
  (** [stagehand.observe(instruction)] *)
  observe : string → B → B * option (list ObservedAction);
  (** [recorder.stop()]: waits for the capture loop, yields [frameIndex] *)
  recorder_stop : B → B * nat;
  (** [stagehand.close()] *)
  stagehand_close : B → B * bool;
  (** [execSync] of the ffmpeg command line built from the frame rate, the
      frame pattern and the output path; [false] is a non-zero exit *)
  ffmpeg : nat → list string → list string →
           gmap (list string) node → gmap (list string) node * bool
}.

(** ** The process around the world *)

Record process `{E : Env} := {
  world_of : world;
  (** lines written by [console.log] and by [console.error] *)
  stdout : list string;
  stderr : list string;
  (** [process.exitCode]; [None] is [undefined] *)
  exitCode : option nat
}.

Section TestRun.
Context `{R : Runner}.

Abbreviation P := (SE process).

Definition liftW {A} (m : M A) : P A :=
  λ s, let '(o, w) := m (world_of s) in
       (o, {| world_of := w; stdout := stdout s; stderr := stderr s;
              exitCode := exitCode s |}).

Definition console_log (line : string) : P unit :=
  λ s, (Ok tt, {| world_of := world_of s; stdout := stdout s ++ [line];
                  stderr := stderr s; exitCode := exitCode s |}).

Definition console_error (line : string) : P unit :=
  λ s, (Ok tt, {| world_of := world_of s; stdout := stdout s;
                  stderr := stderr s ++ [line]; exitCode := exitCode s |}).

(** [process.exitCode = n] *)
Definition set_exitCode (n : nat) : P unit :=
  λ s, (Ok tt, {| world_of := world_of s; stdout := stdout s;
                  stderr := stderr s; exitCode := Some n |}).

(** [try { m } finally { f }]: [f] always runs; if it throws, its exception
    replaces the outcome of [m]. *)
Definition try_finally {S A} (m : SE S A) (f : SE S unit) : SE S A :=
  λ s, let '(o, s1) := m s in
       match f s1 with
       | (Ok _, s2) => (o, s2)
       | (Throw, s2) => (Throw, s2)
       | (OutOfFuel, s2) => (OutOfFuel, s2)
       end.

(** A path as the string a template literal shows. *)
Definition path_string (p : path) : string :=
  match p with
  | [] => "/"
  | _ => String.concat "/" ("" :: p)
  end.

Definition newline : string := String (Ascii.ascii_of_nat 10) "".

(** *** [helpers/test-runner.ts] *)

Definition RECORDING_DIR : path := path_resolve ["recordings"].
Definition FRAMES_DIR : path := path_join RECORDING_DIR "frames".
Definition FRAME_INTERVAL_MS : nat := 500.

(** [for (const dir of dirs) { if (fs.existsSync(dir)) fs.rmSync(dir, ...);
    fs.mkdirSync(dir, ...) }] *)
Fixpoint resetDirs (dirs : list path) : SE fs unit :=
  match dirs with
  | [] => mret tt
  | dir :: rest =>
      found ← Fs.existsSync dir;
      (if found : bool then Fs.rmSync_recursive dir else mret tt);;
      Fs.mkdirSync_recursive dir;;
      resetDirs rest
  end.

(** The first statements of [setupTestEnv]: the output directories. *)
Definition prepareOutputDirs : SE fs unit :=
  resetDirs [SCREENSHOT_DIR; RECORDING_DIR];;
  Fs.mkdirSync_recursive FRAMES_DIR.

(** The two lines printed for every result. *)
Definition result_lines (r : TestResult) : list string :=
  [ "  " +:+ (if passed r then "PASS" else "FAIL") +:+ "  " +:+ step r;
    "        screenshot: " +:+ path_string (screenshot r) ].

(** The two lines printed for every failed result. *)
Definition failure_lines (f : TestResult) : list string :=
  [ "  -> " +:+ step f; "     " +:+ path_string (screenshot f) ].

Fixpoint log_each (lines : list string) : P unit :=
  match lines with
  | [] => mret tt
  | line :: rest => console_log line;; log_each rest
  end.

Definition reportResults (results : list TestResult) : P unit :=
  console_log ("=== Test Results ===" +:+ newline);;
  let failed := List.filter (λ r, negb (passed r)) results in
  log_each (concat (map result_lines results));;
  console_log "";;
  (if 0 <? length failed then
     console_log (pretty (length failed) +:+
                  " test(s) FAILED. Screenshots for failed steps:");;
     log_each (concat (map failure_lines failed));;
     set_exitCode 1
   else console_log "All tests passed!");;
  console_log (newline +:+ "All screenshots saved to: " +:+
               path_string SCREENSHOT_DIR +:+ "/").

(** *** [helpers/recording.ts] *)

(** [framesToVideo(framesDir, outputDir, fps)]; [None] is [null]. *)
Definition framesToVideo (framesDir outputDir : path) (fps : nat)
    : P (option path) :=
  let outputPath := path_join outputDir "test-recording.mp4" in
  let pattern := path_join framesDir "frame-%05d.png" in
  try_catch
    ((λ s, let '(d, ok) := ffmpeg fps pattern outputPath (disk (world_of s)) in
           (if ok then Ok tt else Throw,
            {| world_of := set_disk d (world_of s); stdout := stdout s;
               stderr := stderr s; exitCode := exitCode s |}));;
     liftW (liftFs (Fs.rmSync_recursive framesDir));;
     mret (Some outputPath))
    (console_error ("  ffmpeg conversion failed. Raw frames kept in: " +:+
                    path_string framesDir);;
     mret None).

(** *** [teardownTestEnv] *)

Definition recorder_stop_P : P nat :=
  λ s, let '(b, n) := recorder_stop (browser (world_of s)) in
       (Ok n, {| world_of := set_browser b (world_of s); stdout := stdout s;
                 stderr := stderr s; exitCode := exitCode s |}).

Definition stagehand_close_P : P unit :=
  λ s, let '(b, ok) := stagehand_close (browser (world_of s)) in
       (if ok then Ok tt else Throw,
        {| world_of := set_browser b (world_of s); stdout := stdout s;
           stderr := stderr s; exitCode := exitCode s |}).

(** [Math.round(1000 / FRAME_INTERVAL_MS)]; the division is exact. *)
Definition fps : nat := 1000 / FRAME_INTERVAL_MS.

Definition teardownTestEnv (results : list TestResult) : P unit :=
  reportResults results;;
  totalFrames ← recorder_stop_P;
  console_log (newline +:+ "[Recording] Captured " +:+ pretty totalFrames +:+
               " frames.");;
  stagehand_close_P;;
  if 0 <? totalFrames then
    console_log ("[Recording] Encoding video (" +:+ pretty fps +:+ " fps)...");;
    videoPath ← framesToVideo FRAMES_DIR RECORDING_DIR fps;
    match videoPath with
    | Some v => console_log ("[Recording] Video saved: " +:+ path_string v)
    | None => mret tt
    end
  else mret tt.

(** *** Tests 1 to 4 and [main] *)

Variable ctx : TestContext.

Definition home_url : string := "https://cfe.jp/".

Definition extract_profile_M (instruction : string) : M Profile :=
  λ w, let '(b, r) := extract_profile instruction (browser w) in
       match r with
       | Some v => (Ok v, set_browser b w)
       | None => (Throw, set_browser b w)
       end.

Definition extract_books_M (instruction : string) : M (list Book) :=
  λ w, let '(b, r) := extract_books instruction (browser w) in
       match r with
       | Some v => (Ok v, set_browser b w)
       | None => (Throw, set_browser b w)
       end.

Definition observe_M (instruction : string) : M (list ObservedAction) :=
  λ w, let '(b, r) := observe instruction (browser w) in
       match r with
       | Some v => (Ok v, set_browser b w)
       | None => (Throw, set_browser b w)
       end.

Definition test1_step : string := "Test 1: Page navigation".
Definition test2_step : string := "Test 2: Profile extraction".
Definition test3_step : string := "Test 3: Book extraction".
Definition test4_step : string := "Test 4: Link observation".

Definition test1 : M unit :=
  page_goto (page ctx) home_url;;
  page_waitForLoadState (page ctx) "networkidle";;
  ss1 ← ctx_screenshot ctx "01-page-loaded" None;
  results_push {| step := test1_step; passed := true; screenshot := ss1 |}.

Definition test2 : M unit :=
  profile ← extract_profile_M
    "Extract the person's name, their job title or description, and a list of their SNS/social media link labels (e.g., Twitter, GitHub, etc.)";
  ss2 ← ctx_screenshot ctx "02-profile-extracted" None;
  let test2Passed :=
    (0 <? String.length (profile_name profile))
    && (0 <? length (profile_snsLinks profile)) in
  results_push {| step := test2_step; passed := test2Passed; screenshot := ss2 |}.

Definition test3 : M unit :=
  books ← extract_books_M
    "Extract information about the books (著書) listed on this page, including the title and a short description for each book.";
  ss3 ← ctx_screenshot ctx "03-books-extracted" None;
  let test3Passed := 0 <? length books in
  results_push {| step := test3_step; passed := test3Passed; screenshot := ss3 |}.

Definition test4 : M unit :=
  actions ← observe_M "Find all clickable links on this page";
  ss4 ← ctx_screenshot ctx "04-links-observed" None;
  let test4Passed := 0 <? length actions in
  results_push {| step := test4_step; passed := test4Passed; screenshot := ss4 |}.

(** The [try] block of [main]. *)
Definition main_try : M unit :=
  test1;; test2;; test3;; test4;; test5 ctx.

(** The [catch] block of [main]; of its last line on the error stream only
    the fixed text is kept, not the error object that follows it. *)
Definition main_catch : P unit :=
  try_ignore
    (liftW (page_screenshot (page ctx) (path_join SCREENSHOT_DIR "error-crash.png") true);;
     console_error (newline +:+ "Crash screenshot saved: " +:+
                    path_string SCREENSHOT_DIR +:+ "/error-crash.png"));;
  console_error "Test failed with error:";;
  set_exitCode 1.

(** [main] from its [try] on; the [results] array is the one of the world. *)
Definition main : P unit :=
  try_finally
    (try_catch (liftW main_try) main_catch)
    (λ s, teardownTestEnv (results (world_of s)) s).

End TestRun.

(** *** The helpers of the monolithic [e2e-cfe.ts]

    The older single-file version of the test has its own copies of the
    helpers; they take the directories from the constants of the file. *)

Module Monolithic.
Section Helpers.
Context `{R : Runner}.

Definition compareScreenshots (currentPath baselinePath diffPath : path)
    : SE fs comparison :=
  found ← Fs.existsSync baselinePath;
  if negb found then
    mret {| mismatchRatio := 0; diffSaved := false; skipped := true |}
  else
    img1 ← Fs.readFileSync currentPath ≫= decode;
    img2 ← Fs.readFileSync baselinePath ≫= decode;
    if negb (width img1 =? width img2) || negb (height img1 =? height img2)
    then mret {| mismatchRatio := 1; diffSaved := false; skipped := false |}
    else
      let w := width img1 in
      let h := height img1 in
      let diff := PNG_new w h in
      let '(numDiffPixels, out) :=
        pixelmatch (data img1) (data img2) (data diff) w h (1 # 10)%Q in
      let mismatch := ratio numDiffPixels (w * h) in
      Fs.writeFileSync diffPath
        (PNG_sync_write {| width := w; height := h; data := out |});;
      mret {| mismatchRatio := mismatch; diffSaved := true; skipped := false |}.

Definition saveBaseline (screenshotPath : path) (baselineName : string)
    : SE fs path :=
  found ← Fs.existsSync BASELINES_DIR;
  (if negb found then Fs.mkdirSync_recursive BASELINES_DIR else mret tt);;
  let dest := path_join BASELINES_DIR (baselineName +:+ ".png") in
  Fs.copyFileSync screenshotPath dest;;
  mret dest.

Definition framesToVideo (rate : nat) : SE process (option path) :=
  let outputPath := path_join RECORDING_DIR "test-recording.mp4" in
  let pattern := path_join FRAMES_DIR "frame-%05d.png" in
  try_catch
    ((λ s, let '(d, ok) := ffmpeg rate pattern outputPath (disk (world_of s)) in
           (if ok then Ok tt else Throw,
            {| world_of := set_disk d (world_of s); stdout := stdout s;
               stderr := stderr s; exitCode := exitCode s |}));;
     liftW (liftFs (Fs.rmSync_recursive FRAMES_DIR));;
     mret (Some outputPath))
    (console_error ("  ffmpeg conversion failed. Raw frames kept in: " +:+
                    path_string FRAMES_DIR);;
     mret None).

End Helpers.
End Monolithic.

(** *** [startRecording] of [helpers/recording.ts]

    The capture loop runs beside the tests.  One round of it is a step on
    the world; the loop as a whole is modelled together with what the rest
    of the program does between two rounds.  [injectFrames], which nothing
    in the repository calls, is not modelled. *)

Fixpoint zeros (n : nat) : string :=
  match n with
  | 0 => ""
  | S n' => String "0"%char (zeros n')
  end.

(** [s.padStart(targetLength, "0")] *)
Definition padStart (targetLength : nat) (s : string) : string :=
  zeros (targetLength - String.length s) +:+ s.

(** [path.join(framesDir, `frame-${String(frameIndex).padStart(5, "0")}.png`)] *)
Definition frame_file (framesDir : path) (frameIndex : nat) : path :=
  path_join framesDir ("frame-" +:+ padStart 5 (pretty frameIndex) +:+ ".png").

(** The variables of the closure of [startRecording]. *)
Record recorder := { frameIndex : nat; stopped : bool; injecting : bool }.

Section Recording.
Context `{E : Env}.

(** The body of [while (!stopped) { ... }] in [capture]. *)
Definition capture_round (pg : handle) (framesDir : path) (intervalMs : nat)
    (r : recorder) : M recorder :=
  r' ← (if injecting r then mret r
        else
          try_catch
            (page_screenshot pg (frame_file framesDir (frameIndex r)) false;;
             mret {| frameIndex := S (frameIndex r); stopped := stopped r;
                     injecting := injecting r |})
            (mret r));
  setTimeout intervalMs;;
  mret r'.

(** The loop [while (!stopped) { ... }] of [capture]: [moves] holds, for
    every round, what the rest of the program has done to the world since
    the round before. *)
Fixpoint capture_loop (pg : handle) (framesDir : path) (intervalMs : nat)
    (moves : list (world → world)) (r : recorder) (w : world)
    : recorder * world :=
  match moves with
  | [] => (r, w)
  | move :: rest =>
      if stopped r then (r, w)
      else
        let '(o, w1) := capture_round pg framesDir intervalMs r (move w) in
        capture_loop pg framesDir intervalMs rest
          (match o with Ok r1 => r1 | _ => r end) w1
  end.

(** [stop()]: raises the flag; the number of frames is what it returns once
    the loop has ended. *)
Definition stop (r : recorder) : recorder :=
  {| frameIndex := frameIndex r; stopped := true; injecting := injecting r |}.

End Recording.

(** ** Vocabulary of the properties *)

(** [sub] occurs in [s]. *)
Definition contains (s sub : string) : Prop :=
  ∃ pre post, s = pre +:+ sub +:+ post.

(** Fuel is never the reason a step ends. *)
Definition halts {S A} (m : SE S A) : Prop := ∀ s, (m s).1 ≠ OutOfFuel.

(** One outcome passes a failure on to the next. *)
Definition stuck {A C} (o : outcome A) (o' : outcome C) : Prop :=
  (o = Throw ∧ o' = Throw) ∨ (o = OutOfFuel ∧ o' = OutOfFuel).

Definition click : string := "Click the GitHub link".

Definition is_act (e : event) : bool :=
  match e with EvAct _ => true | _ => false end.

(** The number of calls of [stagehand.act] in a log. *)
Definition count_acts (l : list event) : nat := length (List.filter is_act l).

Definition silent (e : event) : Prop := False.

(** browser calls of the self-heal block *)
Definition heal_event (e : event) : Prop :=
  match e with
  | EvClose _ => True
  | EvGoto _ _ => True
  | EvWaitForLoadState _ _ => True
  | _ => False
  end.

Definition attempt_event (e : event) : Prop := e = EvAct click ∨ heal_event e.

Definition failed (artifact : path) : TestResult :=
  {| step := test5_step; passed := false; screenshot := artifact |}.

Definition fs_framed {A} (S : path → Prop) (m : SE fs A) : Prop :=
  ∀ d o d' p, m d = (o, d') → ¬ S p → d' !! p = d !! p.

Section Vocabulary.
Context `{E : Env}.
Variable ctx : TestContext.

Definition baselinePath : path :=
  path_join BASELINES_DIR ("05a-before-click" +:+ ".png").

(** below the cache directory *)
Definition under_cache (p : path) : Prop := cacheDir `prefix_of` p.

(** below the cache directory, or one of its ancestors *)
Definition near_cache (p : path) : Prop :=
  cacheDir `prefix_of` p ∨ p `prefix_of` cacheDir.

(** The cache directory is there, holds nothing, and takes new entries. *)
Definition cache_ready (d : fs) : Prop :=
  d !! cacheDir = Some Dir ∧
  (∀ q, cacheDir `prefix_of` q → q ≠ cacheDir → d !! q = None) ∧
  (∀ name, Fs.writable d (path_join cacheDir name) = true).

(** the pre-click screenshot *)
Definition preclick_event : event :=
  EvScreenshot (page ctx) comparisonSsPath false.

(** browser calls of the new-tab screenshot *)
Definition newtab_event (e : event) : Prop :=
  match e with
  | EvWaitForLoadState _ _ => True
  | EvScreenshot p file _ => file = newTabPath ∧ p ≠ page ctx
  | _ => False
  end.

(** a screenshot saved as [05b-new-tab.png] *)
Definition is_newtab_shot (e : event) : Prop :=
  match e with
  | EvScreenshot _ file _ => file = newTabPath
  | _ => False
  end.

Definition succeeded : TestResult :=
  {| step := test5_step; passed := true; screenshot := newTabPath |}.

(** [frame S L w w']: from [w] to [w'] the results are untouched, the
    browser calls that were added all satisfy [L], and outside of [S] the
    disk is as it was. *)
Record frame (S : path → Prop) (L : event → Prop) (w w' : world) : Prop := {
  fr_results : results w' = results w;
  fr_log : ∃ l, log w' = log w ++ l ∧ Forall L l;
  fr_disk : ∀ p, ¬ S p → disk w' !! p = disk w !! p
}.

Definition framed {A} (S : path → Prop) (L : event → Prop) (m : M A) : Prop :=
  ∀ w o w', m w = (o, w') → frame S L w w'.

End Vocabulary.

(** ** Vocabulary of the further properties *)

(** Both files are there and decode, and either the sizes differ or the
    diff file can be written. *)
Definition comparable `{E : Env} (currentPath : path) (baselineName : string)
    (baselinesDir diffPath : path) (d : fs) : Prop :=
  ∃ b1 b2 img1 img2,
    d !! currentPath = Some (File b1) ∧ PNG_sync_read b1 = Some img1 ∧
    d !! path_join baselinesDir (baselineName +:+ ".png") = Some (File b2) ∧
    PNG_sync_read b2 = Some img2 ∧
    (width img1 ≠ width img2 ∨ height img1 ≠ height img2 ∨
     Fs.writable d diffPath = true).

(** [name] is a single path component: it holds no separator, so that
    [path.join] appends [name.png] to the directory as it stands. *)
Definition plain_name (name : string) : Prop := includes name "/" = false.

(** Nothing lies below [dir] when [dir] itself is missing, as on every real
    file system. *)
Definition no_orphans (d : fs) (dir : path) : Prop :=
  d !! dir = None → ∀ q, dir `prefix_of` q → d !! q = None.

(** [dir] exists as a directory and holds nothing but the entries [keep]. *)
Definition holds_only (d : fs) (dir : path) (keep : path → Prop) : Prop :=
  d !! dir = Some Dir ∧
  ∀ q, dir `prefix_of` q → q ≠ dir → ¬ keep q → d !! q = None.

(** [steps names m]: a run of [m] never ends for lack of fuel and appends to
    the results, in order, results for a prefix of the steps [names], for
    all of them when it returns. *)
Definition steps `{E : Env} (names : list string) (m : M unit) : Prop :=
  ∀ w o w', m w = (o, w') →
    o ≠ OutOfFuel ∧
    ∃ rs, results w' = results w ++ rs ∧
          map step rs `prefix_of` names ∧
          (o = Ok tt → map step rs = names).

Definition all_steps : list string :=
  [test1_step; test2_step; test3_step; test4_step; test5_step].


(** The frames on the disk are those numbered below [frameIndex]. *)
Definition frames_numbered `{E : Env} (framesDir : path) (r : recorder)
    (d : fs) : Prop :=
  ∀ i, (∃ c, d !! frame_file framesDir i = Some (File c)) ↔ i < frameIndex r.

(** A move of the rest of the program that leaves the frames alone. *)
Definition keeps_frames `{E : Env} (framesDir : path) (move : world → world)
    : Prop :=
  ∀ w i, disk (move w) !! frame_file framesDir i = disk w !! frame_file framesDir i.

(** ** A scripted test double

    An implementation of [Env] in which the outcome of every click is
    scripted: the browser is a clock, a list of tabs, the raster every
    screenshot renders, and the tab lists the successive calls of [act]
    leave behind.  Images are stored as two header bytes (width, height)
    followed by the RGBA raster. *)

Module Scripted.

Record browser_state := {
  clock : nat;
  tabs : list (handle * string);
  screen : list Byte.byte;
  script : list (list (handle * string))
}.

Definition tab_url (b : browser_state) (p : handle) : string :=
  match List.find (λ t, fst t =? p) (tabs b) with
  | Some t => snd t
  | None => "about:blank"
  end.

Definition tick (ms : nat) (b : browser_state) : browser_state :=
  {| clock := clock b + ms; tabs := tabs b; screen := screen b; script := script b |}.

Definition press (b : browser_state) : browser_state * bool :=
  match script b with
  | [] => (b, true)
  | next :: rest =>
      ({| clock := clock b; tabs := next; screen := screen b; script := rest |}, true)
  end.

Definition navigate (p : handle) (target : string) (b : browser_state)
    : browser_state * bool :=
  ({| clock := clock b;
      tabs := map (λ t, if fst t =? p then (p, target) else t) (tabs b);
      screen := screen b; script := script b |}, true).

Definition close_tab (p : handle) (b : browser_state) : browser_state * bool :=
  ({| clock := clock b;
      tabs := List.filter (λ t, negb (fst t =? p)) (tabs b);
      screen := screen b; script := script b |}, true).

Definition render (p : handle) (b : browser_state)
    : browser_state * option (list Byte.byte) :=
  (b, if existsb (λ t, fst t =? p) (tabs b) then Some (screen b) else None).

Definition read (bytes : list Byte.byte) : option image :=
  match bytes with
  | w :: h :: raster =>
      if length raster =? 4 * Byte.to_nat w * Byte.to_nat h
      then Some {| width := Byte.to_nat w; height := Byte.to_nat h; data := raster |}
      else None
  | _ => None
  end.

Definition write (img : image) : list Byte.byte :=
  default Byte.x00 (Byte.of_nat (width img))
    :: default Byte.x00 (Byte.of_nat (height img)) :: data img.

Fixpoint bytes_eqb (a b : list Byte.byte) : bool :=
  match a, b with
  | [], [] => true
  | x :: a', y :: b' => Byte.eqb x y && bytes_eqb a' b'
  | _, _ => false
  end.

(** The number of the first [n] pixels on which two rasters differ. *)
Fixpoint count_diff (n : nat) (a b : list Byte.byte) : nat :=
  match n with
  | 0 => 0
  | S n' =>
      (if bytes_eqb (take 4 a) (take 4 b) then 0 else 1)
      + count_diff n' (drop 4 a) (drop 4 b)
  end.

Lemma bytes_eqb_refl a : bytes_eqb a a = true.
Proof.
  induction a as [|x a IH]; simpl; [done|].
  rewrite IH, (Byte.byte_dec_lb (eq_refl x)). done.
Qed.

Lemma count_diff_le n : ∀ a b, count_diff n a b ≤ n.
Proof.
  induction n as [|n IH]; intros a b; simpl; [lia|].
  specialize (IH (drop 4 a) (drop 4 b)).
  destruct (bytes_eqb _ _); lia.
Qed.

Lemma count_diff_same n : ∀ a, count_diff n a a = 0.
Proof.
  induction n as [|n IH]; intros a; simpl; [done|].
  rewrite bytes_eqb_refl, IH. done.
Qed.

#[local] Instance env : Env := {|
  B := browser_state;
  cwd := ["work"];
  pages b := map fst (tabs b);
  url := tab_url;
  now := clock;
  sleep := tick;
  act _ := press;
  act_disk _ _ d := d;
  goto := navigate;
  waitForLoadState _ _ b := (b, true);
  close := close_tab;
  capture p _ := render p;
  PNG_sync_read := read;
  PNG_sync_write := write;
  pixelmatch a b out w h _ := (count_diff (w * h) a b, out);
  sleep_advances ms b := le_n _;
  act_disk_frame _ _ _ _ _ := eq_refl;
  pixelmatch_le a b _ w h _ := count_diff_le (w * h) a b;
  pixelmatch_same a _ w h _ := count_diff_same (w * h) a
|}.

Definition ctx : TestContext := {| page := 0 |}.

(** A raster of [n] pixels, the first [k] white and the rest black. *)
Definition raster (k n : nat) : list Byte.byte :=
  repeat Byte.xff (4 * k) ++ repeat Byte.x00 (4 * (n - k)).

(** An image file of the given size whose first [k] pixels are white. *)
Definition picture (w h : Byte.byte) (k : nat) : list Byte.byte :=
  w :: h :: raster k (Byte.to_nat w * Byte.to_nat h).

(** A 5 by 2 screenshot. *)
Definition shot (k : nat) : list Byte.byte := picture Byte.x05 Byte.x02 k.

Definition home : string := "https://cfe.jp/".
Definition github : string := "https://github.com/uzulla".
Definition slideshare : string := "https://www.slideshare.net/junichiishida".

(** What a click leaves behind: a new tab on GitHub, a new tab on the
    wrong site, or the original tab navigated to the wrong site. *)
Definition to_github : list (handle * string) := [(0, home); (1, github)].
Definition to_slideshare : list (handle * string) := [(0, home); (1, slideshare)].
Definition slideshare_in_place : list (handle * string) := [(0, slideshare)].

Definition cmpFile : path := comparisonSsPath (E := env).
Definition diffFile : path := diffPath (E := env).
Definition newTabFile : path := newTabPath (E := env).
Definition baselines : path := BASELINES_DIR (E := env).
Definition baselineFile : path := path_join baselines "05a-before-click.png".
Definition cache : path := cacheDir (E := env).

(** The disk after [setupTestEnv]: the screenshot directory is empty. *)
Definition disk0 : fs :=
  <[ ["work"; "screenshots"] := Dir ]> (<[ ["work"] := Dir ]> ∅).

Definition disk_with_baseline (bytes : list Byte.byte) : fs :=
  <[ baselineFile := File bytes ]> (<[ baselines := Dir ]> disk0).

Definition disk_with_shot (bytes : list Byte.byte) (d : fs) : fs :=
  <[ cmpFile := File bytes ]> d.

Definition disk_with_cache : fs :=
  <[ path_join cache "entry.json" := File [] ]>
    (<[ cache := Dir ]> (<[ ["work"; ".cache"] := Dir ]> disk0)).

Definition start (scr : list Byte.byte) (sc : list (list (handle * string)))
    (d : fs) : world :=
  {| browser := {| clock := 0; tabs := [(0, home)]; screen := scr; script := sc |};
     disk := d; results := []; log := [] |}.

(** The verdicts of a click that went to the wrong site. *)
Definition wrong_new_tab : attempt :=
  {| success := false; githubPage := None; allPages := [0; 1] |}.
Definition wrong_same_tab : attempt :=
  {| success := false; githubPage := None; allPages := [0] |}.

(** First run, and the click opens GitHub in a new tab. *)
Definition first_run_pass : world := start (shot 0) [to_github] disk0.

(** Every click opens the wrong site in a new tab; a cache is on disk. *)
Definition always_wrong : world :=
  start (shot 0) [to_slideshare; to_slideshare] disk_with_cache.

(** Every click navigates the original tab to the wrong site; no cache. *)
Definition wrong_in_place : world :=
  start (shot 0) [slideshare_in_place; slideshare_in_place] disk0.

(** Three pixels of ten differ from the baseline. *)
Definition broken_page : world :=
  start (shot 3) [to_github] (disk_with_baseline (shot 0)).

(** One pixel of ten differs from the baseline: a ratio of exactly 0.10. *)
Definition borderline : world :=
  start (shot 1) [to_github] (disk_with_baseline (shot 0)).

End Scripted.

(** ** Further test doubles *)

(** A page too tall for a full-page screenshot: the browser of [Scripted]
    with a [capture] that fails whenever the full page is asked for. *)
Module Viewport.

#[local] Instance env : Env := {|
  B := Scripted.browser_state;
  cwd := ["work"];
  pages b := map fst (Scripted.tabs b);
  url := Scripted.tab_url;
  now := Scripted.clock;
  sleep := Scripted.tick;
  act _ := Scripted.press;
  act_disk _ _ d := d;
  goto := Scripted.navigate;
  waitForLoadState _ _ b := (b, true);
  close := Scripted.close_tab;
  capture p fullPage b := if fullPage then (b, None) else Scripted.render p b;
  PNG_sync_read := Scripted.read;
  PNG_sync_write := Scripted.write;
  pixelmatch a b out w h _ := (Scripted.count_diff (w * h) a b, out);
  sleep_advances ms b := le_n _;
  act_disk_frame _ _ _ _ _ := eq_refl;
  pixelmatch_le a b _ w h _ := Scripted.count_diff_le (w * h) a b;
  pixelmatch_same a _ w h _ := Scripted.count_diff_same (w * h) a
|}.

Definition start (scr : list Byte.byte) (d : fs) : world :=
  {| browser := {| Scripted.clock := 0; Scripted.tabs := [(0, Scripted.home)];
                   Scripted.screen := scr; Scripted.script := [] |};
     disk := d; results := []; log := [] |}.

End Viewport.

(** The collaborators of the whole run, over the browser of [Scripted]:
    the extractions and the observation answer with fixed values, the
    recorder has captured three frames, and ffmpeg writes an empty video. *)
Module ScriptedRun.

#[local] Existing Instance Scripted.env.

#[local] Instance runner : Runner (E := Scripted.env) := {|
  extract_profile _ b :=
    (b, Some {| profile_name := "uzulla"; profile_description := "programmer";
                profile_snsLinks := ["GitHub"; "SlideShare"] |});
  extract_books _ b := (b, Some []);
  observe _ b :=
    (b, Some [{| action_description := "GitHub link"; action_method := "click" |}]);
  recorder_stop b := (b, 3);
  stagehand_close b := (b, true);
  ffmpeg _ _ out d := (<[out := File []]> d, true)
|}.

Definition recordings : path := RECORDING_DIR (E := Scripted.env).
Definition frames : path := FRAMES_DIR (E := Scripted.env).

(** The disk left by an earlier run: a screenshot, no recordings. *)
Definition disk_after_run : fs :=
  Scripted.disk_with_shot (Scripted.shot 0) Scripted.disk0.

(** The disk after [setupTestEnv]. *)
Definition disk_ready : fs :=
  <[ frames := Dir ]> (<[ recordings := Dir ]> Scripted.disk0).


(** The baseline is a 4 by 2 image, the screenshot a 5 by 2 one. *)
Definition resized_page : world :=
  Scripted.start (Scripted.shot 0) [Scripted.to_github]
    (Scripted.disk_with_baseline (Scripted.picture Byte.x04 Byte.x02 0)).

(** A regular file stands in the place of the baseline directory. *)
Definition baselines_blocked : world :=
  Scripted.start (Scripted.shot 0) [Scripted.to_github]
    (<[ Scripted.baselines := File [] ]> Scripted.disk0).

(** The process at the [try] of [main]. *)
Definition boot (w : world) : process :=
  {| world_of := w; stdout := []; stderr := []; exitCode := None |}.

(** The click opens GitHub in a new tab; no book is found by Test 3. *)
Definition run : process :=
  boot (Scripted.start (Scripted.shot 0) [Scripted.to_github] disk_ready).

(** Between two rounds of the recorder the rest of the program does nothing. *)
Definition still : world → world := λ w, w.

(** The recorder before its first round. *)
Definition recorder0 : recorder :=
  {| frameIndex := 0; stopped := false; injecting := false |}.

End ScriptedRun.

(** A browser that cannot reload the page: the browser of [Scripted] with a
    [goto] that always rejects. *)
Module Offline.

#[local] Instance env : Env := {|
  B := Scripted.browser_state;
  cwd := ["work"];
  pages b := map fst (Scripted.tabs b);
  url := Scripted.tab_url;
  now := Scripted.clock;
  sleep := Scripted.tick;
  act _ := Scripted.press;
  act_disk _ _ d := d;
  goto _ _ b := (b, false);
  waitForLoadState _ _ b := (b, true);
  close := Scripted.close_tab;
  capture p _ := Scripted.render p;
  PNG_sync_read := Scripted.read;
  PNG_sync_write := Scripted.write;
  pixelmatch a b out w h _ := (Scripted.count_diff (w * h) a b, out);
  sleep_advances ms b := le_n _;
  act_disk_frame _ _ _ _ _ := eq_refl;
  pixelmatch_le a b _ w h _ := Scripted.count_diff_le (w * h) a b;
  pixelmatch_same a _ w h _ := Scripted.count_diff_same (w * h) a
|}.

Definition ctx : TestContext := {| page := 0 |}.


End Offline.

(** * Properties *)

(** ** Substrings *)

Lemma append_empty (s : string) : "" +:+ s = s.
Proof. reflexivity. Qed.

Lemma append_String c (a s : string) : String c a +:+ s = String c (a +:+ s).
Proof. reflexivity. Qed.

Lemma prefix_true_iff (a s : string) :
  String.prefix a s = true ↔ ∃ post, s = a +:+ post.
Proof.
  revert s. induction a as [|c a IH]; intros s.
  - split; [intros _; by exists s | by destruct s].
  - destruct s as [|c' s]; simpl.
    + split; [done | intros [post Hp]; discriminate].
    + destruct (Ascii.ascii_dec c c') as [->|Hne].
      * rewrite IH. split; intros [post Hp]; exists post;
          rewrite append_String in *; congruence.
      * split; [done | intros [post Hp]; rewrite append_String in Hp; congruence].
Qed.

Lemma includes_contains (s sub : string) :
  includes s sub = true ↔ contains s sub.
Proof.
  induction s as [|c s IH].
  - change (includes "" sub) with (String.prefix sub "" || false).
    rewrite orb_false_r, prefix_true_iff. split.
    + intros [post Hp]. by exists "", post.
    + intros ([|c pre] & post & Hp); [by exists post | discriminate].
  - change (includes (String c s) sub)
      with (String.prefix sub (String c s) || includes s sub).
    rewrite orb_true_iff, prefix_true_iff, IH. split.
    + intros [[post Hp] | (pre & post & Hp)].
      * by exists "", post.
      * exists (String c pre), post. rewrite append_String. by rewrite Hp.
    + intros ([|c' pre] & post & Hp).
      * left. by exists post.
      * right. exists pre, post. rewrite append_String in Hp. congruence.
Qed.

(** ** The monad *)

Lemma bind_run {S A B} (m : SE S A) (f : A → SE S B) (s : S) :
  (m ≫= f) s =
  match m s with
  | (Ok a, s') => f a s'
  | (Throw, s') => (Throw, s')
  | (OutOfFuel, s') => (OutOfFuel, s')
  end.
Proof. reflexivity. Qed.

Lemma bind_inv {S A B} (m : SE S A) (f : A → SE S B) s o s' :
  (m ≫= f) s = (o, s') →
  (∃ a s1, m s = (Ok a, s1) ∧ f a s1 = (o, s'))
  ∨ (m s = (Throw, s') ∧ o = Throw)
  ∨ (m s = (OutOfFuel, s') ∧ o = OutOfFuel).
Proof.
  rewrite bind_run. destruct (m s) as [[a| |] s1]; intros Hr.
  - left. eauto.
  - right; left. by simplify_eq.
  - right; right. by simplify_eq.
Qed.

Lemma bind_Ok_inv {S A B} (m : SE S A) (f : A → SE S B) s b s' :
  (m ≫= f) s = (Ok b, s') →
  ∃ a s1, m s = (Ok a, s1) ∧ f a s1 = (Ok b, s').
Proof. intros [?|[[_ ?]|[_ ?]]]%bind_inv; done. Qed.

Lemma bind_Ok_run {S A B} (m : SE S A) (f : A → SE S B) s a s1 :
  m s = (Ok a, s1) → (m ≫= f) s = f a s1.
Proof. intros Hm. by rewrite bind_run, Hm. Qed.

(** Run the first statement of a sequence that is sure to return. *)
Ltac step := erewrite bind_Ok_run; [|reflexivity || eassumption].

Lemma run_eq {S A} (m : SE S A) (s : S) (a : A) :
  (m s).1 = Ok a → m s = (Ok a, (m s).2).
Proof. destruct (m s) as [o s']. simpl. by intros ->. Qed.

Ltac se_unfold :=
  unfold mbind, mret, SE_bind, SE_ret, se_bind, se_ret, throw, diverge in *.

(** ** Ratios *)


Lemma ratio_zero (total : nat) : (ratio 0 total == 0)%Q.
Proof. unfold ratio. simpl. unfold Qdiv. apply Qmult_0_l. Qed.

Lemma Qgtb_true (x y : Q) : Qgtb x y = true ↔ (y < x)%Q.
Proof.
  unfold Qgtb. rewrite negb_true_iff, <- not_true_iff_false, Qle_bool_iff.
  split; [apply Qnot_le_lt | apply Qlt_not_le].
Qed.

(** ** [compareWithBaseline] *)

Section Compare.
Context `{E : Env}.
Variables (currentPath : path) (baselineName : string)
          (baselinesDir diffPath : path).

Abbreviation thePath := (path_join baselinesDir (baselineName +:+ ".png")).
Abbreviation compare :=
  (compareWithBaseline currentPath baselineName baselinesDir diffPath).

Lemma compare_no_baseline (d : fs) :
  Fs.present d thePath = false →
  compare d = (Ok {| mismatchRatio := 0; diffSaved := false; skipped := true |}, d).
Proof.
  intros Hno. unfold compareWithBaseline, Fs.existsSync. se_unfold.
  by rewrite Hno.
Qed.

Lemma compare_with_baseline (d : fs) r d' :
  Fs.present d thePath = true →
  compare d = (Ok r, d') →
  skipped r = false ∧
  ∃ b1 b2 img1 img2,
    d !! currentPath = Some (File b1) ∧ PNG_sync_read b1 = Some img1 ∧
    d !! thePath = Some (File b2) ∧ PNG_sync_read b2 = Some img2.
Proof.
  intros Hyes. unfold compareWithBaseline, Fs.existsSync,
    Fs.readFileSync, Fs.writeFileSync, decode.
  se_unfold. rewrite Hyes. simpl.
  destruct (d !! currentPath) as [[b1|]|] eqn:H1; try done.
  destruct (PNG_sync_read b1) as [img1|] eqn:R1; try done.
  destruct (d !! thePath) as [[b2|]|] eqn:H2; try done.
  destruct (PNG_sync_read b2) as [img2|] eqn:R2; try done.
  intros Hr. assert (skipped r = false) as Hs.
  { destruct (negb _ || negb _); [by simplify_eq|].
    destruct (pixelmatch _ _ _ _ _ _) as [n out].
    destruct (Fs.writable d diffPath); by simplify_eq. }
  split; [done|]. by exists b1, b2, img1, img2.
Qed.

Lemma compare_decoded (d : fs) b1 b2 img1 img2 :
  d !! currentPath = Some (File b1) → PNG_sync_read b1 = Some img1 →
  d !! thePath = Some (File b2) → PNG_sync_read b2 = Some img2 →
  compare d =
    if negb (width img1 =? width img2) || negb (height img1 =? height img2)
    then (Ok {| mismatchRatio := 1; diffSaved := false; skipped := false |}, d)
    else
      let w := width img1 in
      let h := height img1 in
      let r := pixelmatch (data img1) (data img2) (data (PNG_new w h)) w h (1 # 10)%Q in
      if Fs.writable d diffPath then
        (Ok {| mismatchRatio := ratio r.1 (w * h); diffSaved := true; skipped := false |},
         <[diffPath := File (PNG_sync_write {| width := w; height := h; data := r.2 |})]> d)
      else (Throw, d).
Proof.
  intros H1 R1 H2 R2.
  assert (Fs.present d thePath = true) as Hyes.
  { unfold Fs.present. apply bool_decide_eq_true. right. by rewrite H2. }
  unfold compareWithBaseline, Fs.existsSync,
    Fs.readFileSync, Fs.writeFileSync, decode.
  se_unfold. rewrite Hyes. simpl.
  rewrite H1, R1, H2, R2.
  destruct (negb _ || negb _); [done|].
  destruct (pixelmatch _ _ _ _ _ _) as [n out]. simpl.
  by destruct (Fs.writable d diffPath).
Qed.

(** Whatever the outcome, only the diff file can have changed. *)
Lemma compare_frame (d : fs) o d' p :
  compare d = (o, d') → p ≠ diffPath → d' !! p = d !! p.
Proof.
  unfold compareWithBaseline, Fs.existsSync,
    Fs.readFileSync, Fs.writeFileSync, decode.
  se_unfold. intros Hr Hp.
  destruct (Fs.present d thePath); simpl in Hr; [|by simplify_eq].
  destruct (d !! currentPath) as [[b1|]|]; try by simplify_eq.
  destruct (PNG_sync_read b1) as [img1|]; try by simplify_eq.
  destruct (d !! thePath) as [[b2|]|]; try by simplify_eq.
  destruct (PNG_sync_read b2) as [img2|]; try by simplify_eq.
  destruct (negb _ || negb _); [by simplify_eq|].
  destruct (pixelmatch _ _ _ _ _ _) as [n out].
  destruct (Fs.writable d diffPath); simplify_eq; [|done].
  by rewrite lookup_insert_ne.
Qed.

(** A result with [diffSaved] has its diff image on disk. *)
Lemma compare_diff_saved (d : fs) r d' :
  compare d = (Ok r, d') → diffSaved r = true →
  ∃ bytes, d' !! diffPath = Some (File bytes).
Proof.
  unfold compareWithBaseline, Fs.existsSync,
    Fs.readFileSync, Fs.writeFileSync, decode.
  se_unfold. intros Hr Hs.
  destruct (Fs.present d thePath); simpl in Hr; [|by simplify_eq].
  destruct (d !! currentPath) as [[b1|]|]; try by simplify_eq.
  destruct (PNG_sync_read b1) as [img1|]; try by simplify_eq.
  destruct (d !! thePath) as [[b2|]|]; try by simplify_eq.
  destruct (PNG_sync_read b2) as [img2|]; try by simplify_eq.
  destruct (negb _ || negb _); [by simplify_eq|].
  destruct (pixelmatch _ _ _ _ _ _) as [n out].
  destruct (Fs.writable d diffPath); simplify_eq.
  eexists. apply lookup_insert_eq.
Qed.

End Compare.

(** ** The file system *)

Lemma write_frame (p q : path) (c : list Byte.byte) (d : fs) o d' :
  Fs.writeFileSync p c d = (o, d') → q ≠ p → d' !! q = d !! q.
Proof.
  unfold Fs.writeFileSync. destruct (Fs.writable d p); intros; simplify_eq; [|done].
  by rewrite lookup_insert_ne.
Qed.

Lemma write_Ok (p : path) (c : list Byte.byte) (d d' : fs) :
  Fs.writeFileSync p c d = (Ok tt, d') → d' = <[p := File c]> d.
Proof. unfold Fs.writeFileSync. destruct (Fs.writable d p); intros; by simplify_eq. Qed.

Lemma rm_frame (p q : path) (d : fs) o d' :
  Fs.rmSync_recursive p d = (o, d') → ¬ p `prefix_of` q → d' !! q = d !! q.
Proof.
  unfold Fs.rmSync_recursive. intros Hr Hq.
  destruct (d !! p) as [x|]; inversion Hr; subst; [|done].
  apply option_eq; intros y. rewrite map_lookup_filter_Some.
  split; [by intros [? _] | by intros ?].
Qed.

Lemma rm_gone (p q : path) (d d' : fs) :
  Fs.rmSync_recursive p d = (Ok tt, d') → p `prefix_of` q → d' !! q = None.
Proof.
  unfold Fs.rmSync_recursive. destruct (d !! p) as [x|]; intros; simplify_eq.
  apply map_lookup_filter_None. right. intros y _ Hy. by apply Hy.
Qed.

(** [mkdirp] only turns missing ancestors of its target into directories. *)
Lemma mkdirp_spec (rest : path) : ∀ (pre : path) (d : fs) o d' (q : path),
  Fs.mkdirp pre rest d = (o, d') →
  d' !! q = d !! q ∨
  (d !! q = None ∧ d' !! q = Some Dir ∧
   ∃ k, k ≠ [] ∧ q = pre ++ k ∧ k `prefix_of` rest).
Proof.
  induction rest as [|c rest IH]; intros pre d o d' q; simpl.
  - intros Hr. left. by inversion Hr.
  - assert (∀ k, k ≠ [] → k `prefix_of` rest →
              ∃ k', k' ≠ [] ∧ (pre ++ [c]) ++ k = pre ++ k' ∧ k' `prefix_of` c :: rest)
      as Hshift.
    { intros k Hk Hp. exists (c :: k). rewrite <- app_assoc.
      split; [done|]. split; [done|]. by apply prefix_cons. }
    destruct (d !! (pre ++ [c])) as [[b|]|] eqn:Hd.
    + intros Hr. left. by inversion Hr.
    + intros Hr. destruct (IH _ _ _ _ q Hr) as [?|(?&?&k&?&->&?)]; [by left|].
      right. split; [done|]. split; [done|]. by apply Hshift.
    + intros Hr. destruct (decide (q = pre ++ [c])) as [->|Hq].
      * right. destruct (IH _ _ _ _ (pre ++ [c]) Hr) as [Heq|(Hn&_)].
        -- rewrite Heq, lookup_insert_eq. split; [done|]. split; [done|].
           exists [c]. split; [done|]. split; [done|]. apply prefix_cons, prefix_nil.
        -- by rewrite lookup_insert_eq in Hn.
      * destruct (IH _ _ _ _ q Hr) as [Heq|(Hn&?&k&?&->&?)].
        -- left. by rewrite Heq, lookup_insert_ne.
        -- right. rewrite lookup_insert_ne in Hn by done.
           split; [done|]. split; [done|]. by apply Hshift.
Qed.

Lemma mkdirp_keeps (pre rest : path) (d : fs) o d' (q : path) n :
  Fs.mkdirp pre rest d = (o, d') → d !! q = Some n → d' !! q = Some n.
Proof.
  intros Hr Hq. destruct (mkdirp_spec _ _ _ _ _ q Hr) as [->|(?&_)]; congruence.
Qed.

Lemma mkdirp_frame (pre rest : path) (d : fs) o d' (q : path) :
  Fs.mkdirp pre rest d = (o, d') → ¬ q `prefix_of` pre ++ rest → d' !! q = d !! q.
Proof.
  intros Hr Hq. destruct (mkdirp_spec _ _ _ _ _ q Hr) as [->|(_&_&k&_&->&?)]; [done|].
  destruct Hq. by apply prefix_app.
Qed.

Lemma mkdirp_made (rest : path) : ∀ (pre : path) (d d' : fs),
  Fs.mkdirp pre rest d = (Ok tt, d') → rest ≠ [] → d' !! (pre ++ rest) = Some Dir.
Proof.
  induction rest as [|c rest IH]; intros pre d d'; [done|]. simpl. intros Hr _.
  destruct rest as [|c' rest].
  - destruct (d !! (pre ++ [c])) as [[b|]|] eqn:Hd; simpl in Hr; inversion Hr; subst.
    + done.
    + apply lookup_insert_eq.
  - rewrite (cons_middle c), app_assoc.
    destruct (d !! (pre ++ [c])) as [[b|]|] eqn:Hd; [done| |]; by eapply IH.
Qed.

(** ** Footprints of the steps of Test 5 *)

Section Frames.
Context `{E : Env}.

Lemma frame_refl (S : path → Prop) (L : event → Prop) w : frame S L w w.
Proof. split; [done| |done]. exists []. by rewrite app_nil_r. Qed.

Lemma frame_trans (S : path → Prop) (L : event → Prop) w1 w2 w3 :
  frame S L w1 w2 → frame S L w2 w3 → frame S L w1 w3.
Proof.
  intros [R1 (l1 & G1 & F1) D1] [R2 (l2 & G2 & F2) D2]. split.
  - congruence.
  - exists (l1 ++ l2). rewrite G2, G1, app_assoc. split; [done|].
    by apply Forall_app.
  - intros p Hp. by rewrite D2, D1.
Qed.

Lemma frame_mono (S S' : path → Prop) (L L' : event → Prop) w w' :
  (∀ p, S p → S' p) → (∀ e, L e → L' e) → frame S L w w' → frame S' L' w w'.
Proof.
  intros HS HL [R (l & G & F) D]. split; [done| |].
  - exists l. split; [done|]. eapply Forall_impl; eauto.
  - intros p Hp. apply D. naive_solver.
Qed.

Lemma framed_mono {A} (S S' : path → Prop) (L L' : event → Prop) (m : M A) :
  (∀ p, S p → S' p) → (∀ e, L e → L' e) → framed S L m → framed S' L' m.
Proof. intros HS HL Hm w o w' Hr. eapply frame_mono; eauto. Qed.

Lemma framed_bind {A C} (S : path → Prop) (L : event → Prop) (m : M A) (f : A → M C) :
  framed S L m → (∀ a, framed S L (f a)) → framed S L (m ≫= f).
Proof.
  intros Hm Hf w o w' [(a & w1 & H1 & H2)|[[H1 _]|[H1 _]]]%bind_inv.
  - eapply frame_trans; [by eapply Hm | by eapply Hf].
  - by eapply Hm.
  - by eapply Hm.
Qed.

Lemma framed_try_ignore (S : path → Prop) (L : event → Prop) (m : M unit) :
  framed S L m → framed S L (try_ignore m).
Proof.
  intros Hm w o w'. unfold try_ignore.
  destruct (m w) as [[[]| |] w1] eqn:Hr; intros Ho; simplify_eq; by eapply Hm.
Qed.

Lemma framed_try_catch {A} (S : path → Prop) (L : event → Prop) (m h : M A) :
  framed S L m → framed S L h → framed S L (try_catch m h).
Proof.
  intros Hm Hh w o w'. unfold try_catch.
  destruct (m w) as [[a| |] w1] eqn:Hr; intros Ho; simplify_eq.
  - by eapply Hm.
  - eapply frame_trans; [by eapply Hm | by eapply Hh].
  - by eapply Hm.
Qed.

(** Steps that only read, or only move the browser. *)
Lemma framed_silent {A} (S : path → Prop) (L : event → Prop) (m : M A) :
  (∀ w, disk (m w).2 = disk w ∧ results (m w).2 = results w ∧ log (m w).2 = log w) →
  framed S L m.
Proof.
  intros Hm w o w' Hr. destruct (Hm w) as (Hd & Hrs & Hl).
  rewrite Hr in *. simpl in *. split; [done| |by intros; rewrite Hd].
  exists []. by rewrite app_nil_r.
Qed.

Lemma framed_ret {A} (S : path → Prop) (L : event → Prop) (a : A) : framed S L (mret a : M A).
Proof. by apply framed_silent. Qed.

Lemma framed_throw {A} (S : path → Prop) (L : event → Prop) : framed S L (throw : M A).
Proof. by apply framed_silent. Qed.

Lemma framed_context_pages (S : path → Prop) (L : event → Prop) : framed S L context_pages.
Proof. by apply framed_silent. Qed.

Lemma framed_page_url (S : path → Prop) (L : event → Prop) p : framed S L (page_url p).
Proof. by apply framed_silent. Qed.

Lemma framed_Date_now (S : path → Prop) (L : event → Prop) : framed S L Date_now.
Proof. by apply framed_silent. Qed.

Lemma framed_setTimeout (S : path → Prop) (L : event → Prop) ms : framed S L (setTimeout ms).
Proof. by apply framed_silent. Qed.

Lemma framed_call (S : path → Prop) (L : event → Prop) e op : L e → framed S L (call e op).
Proof.
  intros He w o w'. unfold call. destruct (op (browser w)) as [b ok].
  intros Hr; simplify_eq. split; [done| |done].
  exists [e]. split; [done|]. by apply Forall_singleton.
Qed.

Lemma framed_liftFs {A} (S : path → Prop) (L : event → Prop) (m : SE fs A) :
  fs_framed S m → framed S L (liftFs m).
Proof.
  intros Hm w o w'. unfold liftFs. destruct (m (disk w)) as [o1 d1] eqn:Hr.
  intros ?; simplify_eq. split; [done| |].
  - exists []. by rewrite app_nil_r.
  - intros p Hp. simpl. by eapply Hm.
Qed.

Lemma framed_stagehand_act (S : path → Prop) (L : event → Prop) instr :
  (∀ p, cwd ++ [".cache"; "cfe-test"] `prefix_of` p → S p) →
  L (EvAct instr) → framed S L (stagehand_act instr).
Proof.
  intros HS HL w o w'. unfold stagehand_act.
  destruct (act instr (browser w)) as [b ok]. intros ?; simplify_eq.
  split; [done| |].
  - exists [EvAct instr]. split; [done|]. by apply Forall_singleton.
  - intros p Hp. simpl. apply act_disk_frame. naive_solver.
Qed.

Lemma framed_page_screenshot (S : path → Prop) (L : event → Prop) p file fullPage :
  S file → L (EvScreenshot p file fullPage) →
  framed S L (page_screenshot p file fullPage).
Proof.
  intros HS HL w o w'. unfold page_screenshot.
  destruct (capture p fullPage (browser w)) as [b [bytes|]]; intros Hr.
  - unfold liftFs in Hr. simpl in Hr.
    destruct (Fs.writeFileSync file bytes (disk w)) as [o1 d1] eqn:Hw.
    simplify_eq. split; [done| |].
    + exists [EvScreenshot p file fullPage]. split; [done|]. by apply Forall_singleton.
    + intros q Hq. simpl. eapply write_frame; [done|]. by intros ->.
  - simplify_eq. split; [done| |done].
    exists [EvScreenshot p file fullPage]. split; [done|]. by apply Forall_singleton.
Qed.

End Frames.

(** ** The paths of Test 5 *)

Section Paths.
Context `{E : Env}.

Lemma resolve_near_cache (a b : string) : ¬ near_cache (path_resolve [a; b]) ↔ a ≠ ".cache" ∨ b ≠ "cfe-test".
Proof.
  unfold near_cache, cacheDir, path_resolve. split.
  - intros Hn. destruct (decide (a = ".cache")) as [->|]; [|by left].
    destruct (decide (b = "cfe-test")) as [->|]; [|by right].
    destruct Hn. by left.
  - intros Hne [H|H]; apply prefix_app_inv in H; destruct H as [k Hk];
      simpl in Hk; injection Hk as Ha Hb _; destruct Hne; congruence.
Qed.

Lemma comparisonSsPath_far : ¬ near_cache comparisonSsPath.
Proof.
  unfold comparisonSsPath, SCREENSHOT_DIR, path_join, path_resolve.
  rewrite <- app_assoc. apply resolve_near_cache. by left.
Qed.

Lemma diffPath_far : ¬ near_cache diffPath.
Proof.
  unfold diffPath, SCREENSHOT_DIR, path_join, path_resolve.
  rewrite <- app_assoc. apply resolve_near_cache. by left.
Qed.

Lemma newTabPath_far : ¬ near_cache newTabPath.
Proof.
  unfold newTabPath, SCREENSHOT_DIR, path_join, path_resolve.
  rewrite <- app_assoc. apply resolve_near_cache. by left.
Qed.

Lemma baselinePath_far : ¬ near_cache baselinePath.
Proof.
  unfold baselinePath, BASELINES_DIR, path_join, path_resolve.
  rewrite <- app_assoc. apply resolve_near_cache. by left.
Qed.

Ltac path_neq :=
  unfold comparisonSsPath, diffPath, newTabPath, baselinePath, SCREENSHOT_DIR,
    BASELINES_DIR, path_join;
  unfold path_resolve; rewrite <- ?app_assoc;
  let H := fresh in intros H; apply app_inv_head in H; discriminate H.

Lemma comparisonSsPath_diffPath : comparisonSsPath ≠ diffPath.
Proof. path_neq. Qed.
Lemma comparisonSsPath_newTabPath : comparisonSsPath ≠ newTabPath.
Proof. path_neq. Qed.
Lemma comparisonSsPath_baselinePath : comparisonSsPath ≠ baselinePath.
Proof. path_neq. Qed.
Lemma baselinePath_diffPath : baselinePath ≠ diffPath.
Proof. path_neq. Qed.
Lemma baselinePath_newTabPath : baselinePath ≠ newTabPath.
Proof. path_neq. Qed.
Lemma newTabPath_diffPath : newTabPath ≠ diffPath.
Proof. path_neq. Qed.

End Paths.

(** ** The steps of Test 5 *)

Section Steps.
Context `{E : Env}.
Variable ctx : TestContext.

Lemma count_acts_app l1 l2 : count_acts (l1 ++ l2) = count_acts l1 + count_acts l2.
Proof. unfold count_acts. by rewrite List.filter_app, length_app. Qed.

Lemma count_acts_none l : Forall (λ e, is_act e = false) l → count_acts l = 0.
Proof.
  unfold count_acts. induction 1 as [|e l He _ IH]; simpl; [done|].
  by rewrite He.
Qed.

Lemma silent_nil (l : list event) : Forall silent l → l = [].
Proof. by destruct 1. Qed.

Lemma framed_pollNewPage (S : path → Prop) (L : event → Prop) fuel deadline pagesBefore :
  framed S L (pollNewPage fuel deadline pagesBefore).
Proof.
  induction fuel as [|fuel IH]; simpl.
  - by apply framed_silent.
  - apply framed_bind; [apply framed_Date_now|]. intros t.
    destruct (t <? deadline); [|apply framed_ret].
    apply framed_bind; [apply framed_context_pages|]. intros current.
    destruct (pagesBefore <? length current); [apply framed_ret|].
    apply framed_bind; [apply framed_setTimeout | done].
Qed.

(** The loop leaves with fuel to spare: every round sleeps 300 ms. *)
Lemma pollNewPage_fuel fuel : ∀ deadline pagesBefore w,
  deadline ≤ now (browser w) + 300 * fuel →
  (pollNewPage (S fuel) deadline pagesBefore w).1 = Ok tt.
Proof.
  induction fuel as [|fuel IH]; intros deadline pagesBefore w Hd.
  - simpl. se_unfold. unfold Date_now.
    destruct (now (browser w) <? deadline) eqn:Hlt; [|done].
    apply Nat.ltb_lt in Hlt. lia.
  - change (pollNewPage (S (S fuel)) deadline pagesBefore w)
      with ((t ← Date_now;
             if t <? deadline then
               current ← context_pages;
               if pagesBefore <? length current then mret tt
               else setTimeout 300;; pollNewPage (S fuel) deadline pagesBefore
             else mret tt) w).
    step. destruct (now (browser w) <? deadline); [|done].
    step. destruct (pagesBefore <? length (pages (browser w))); [done|].
    step. apply IH. simpl. pose proof (sleep_advances 300 (browser w)). lia.
Qed.

(** An attempt clicks once, whatever comes of it, and reports what the
    browser shows when it ends. *)
Lemma actAndAssert_spec w o w' :
  actAndAssert ctx w = (o, w') →
  results w' = results w ∧
  log w' = log w ++ [EvAct click] ∧
  (∀ p, ¬ under_cache p → disk w' !! p = disk w !! p) ∧
  o ≠ OutOfFuel ∧
  (∀ a, o = Ok a → a = assess ctx (browser w')).
Proof.
  unfold actAndAssert. step. rewrite bind_run.
  destruct (stagehand_act "Click the GitHub link" w) as [o1 w1] eqn:H1.
  assert (frame under_cache (eq (EvAct click)) w w1 ∧ log w1 = log w ++ [EvAct click])
    as [[R1 _ D1] G1].
  { split; [by eapply (framed_stagehand_act under_cache); [| |done] |].
    unfold stagehand_act in H1. destruct (act _ _) as [b ok]. by simplify_eq. }
  destruct o1 as [[]| |]; [|intros; by simplify_eq|].
  2:{ unfold stagehand_act in H1. destruct (act _ _) as [b []]; by simplify_eq. }
  step.
  destruct (pollNewPage 18 (now (browser w1) + 5000)
              (length (pages (browser w))) w1) as [o2 w2] eqn:H2.
  assert (o2 = Ok tt) as ->.
  { change o2 with (o2, w2).1. rewrite <- H2. apply pollNewPage_fuel. lia. }
  step. step. unfold observe_attempt.
  intros ?; simplify_eq.
  destruct (framed_pollNewPage (λ _, False) silent _ _ _ _ _ _ H2)
    as [R2 (l & G2 & ->%silent_nil) D2].
  rewrite app_nil_r in G2. simpl.
  split; [congruence|]. split; [congruence|]. split.
  - intros p Hp. rewrite D2 by tauto. by apply D1.
  - split; [done|]. by intros a [= <-].
Qed.

Lemma framed_actAndAssert (S : path → Prop) (L : event → Prop) :
  (∀ p, under_cache p → S p) → L (EvAct click) → framed S L (actAndAssert ctx).
Proof.
  intros HS HL w o w' (R & G & D & _)%actAndAssert_spec. split; [done| |].
  - exists [EvAct click]. split; [done|]. by apply Forall_singleton.
  - intros p Hp. apply D. naive_solver.
Qed.

(** An attempt returns as soon as the click resolves. *)
Lemma actAndAssert_returns w :
  (act click (browser w)).2 = true →
  ∃ w', actAndAssert ctx w = (Ok (assess ctx (browser w')), w').
Proof.
  intros Hok. destruct (actAndAssert ctx w) as [o w'] eqn:Hr. exists w'.
  destruct (actAndAssert_spec _ _ _ Hr) as (_ & _ & _ & Hf & Ha).
  destruct o as [a| |]; [by rewrite (Ha a eq_refl) | | done].
  revert Hr. unfold actAndAssert. step. rewrite bind_run.
  unfold stagehand_act at 1. fold click.
  destruct (act click (browser w)) as [b ok]. simpl in Hok. subst ok.
  step. rewrite bind_run.
  match goal with |- context [pollNewPage 18 ?dl ?pb ?w1] =>
    pose proof (pollNewPage_fuel 17 dl pb w1) as H2;
    destruct (pollNewPage 18 dl pb w1) as [o2 w2] end.
  simpl in H2. rewrite H2 by lia. by step.
Qed.

End Steps.

(** ** Fuel is never the reason a step ends *)

Lemma halts_bind {S A C} (m : SE S A) (f : A → SE S C) :
  halts m → (∀ a, halts (f a)) → halts (m ≫= f).
Proof.
  intros Hm Hf s. rewrite bind_run. specialize (Hm s).
  destruct (m s) as [[a| |] s1]; [apply Hf|done|done].
Qed.

Lemma halts_ret {S A} (a : A) : halts (mret a : SE S A).
Proof. done. Qed.

Lemma halts_throw {S A} : halts (throw : SE S A).
Proof. done. Qed.

Lemma halts_try_ignore {S} (m : SE S unit) : halts m → halts (try_ignore m).
Proof.
  intros Hm s. unfold try_ignore. specialize (Hm s).
  by destruct (m s) as [[[]| |] s1].
Qed.

Lemma halts_try_catch {S A} (m h : SE S A) :
  halts m → halts h → halts (try_catch m h).
Proof.
  intros Hm Hh s. unfold try_catch. specialize (Hm s).
  destruct (m s) as [[a| |] s1]; [done|apply Hh|done].
Qed.

Lemma halts_existsSync p : halts (Fs.existsSync p).
Proof. done. Qed.

Lemma halts_readFileSync p : halts (Fs.readFileSync p).
Proof. intros d. unfold Fs.readFileSync. by destruct (d !! p) as [[?|]|]. Qed.

Lemma halts_writeFileSync p c : halts (Fs.writeFileSync p c).
Proof. intros d. unfold Fs.writeFileSync. by destruct (Fs.writable d p). Qed.

Lemma halts_copyFileSync src dest : halts (Fs.copyFileSync src dest).
Proof.
  apply halts_bind; [apply halts_readFileSync|]. intros c. apply halts_writeFileSync.
Qed.

Lemma halts_rmSync p : halts (Fs.rmSync_recursive p).
Proof. intros d. unfold Fs.rmSync_recursive. by destruct (d !! p). Qed.

Lemma halts_mkdirp rest : ∀ pre, halts (Fs.mkdirp pre rest).
Proof.
  induction rest as [|c rest IH]; intros pre d; simpl; [done|].
  destruct (d !! (pre ++ [c])) as [[?|]|]; [done| |]; apply IH.
Qed.

Lemma halts_mkdirSync p : halts (Fs.mkdirSync_recursive p).
Proof. apply halts_mkdirp. Qed.

Section Halting.
Context `{E : Env}.
Variable ctx : TestContext.

Lemma halts_decode bytes : halts (decode bytes).
Proof. intros d. unfold decode. by destruct (PNG_sync_read bytes). Qed.

Lemma halts_compare cur name dir diff : halts (compareWithBaseline cur name dir diff).
Proof.
  unfold compareWithBaseline.
  apply halts_bind; [apply halts_existsSync|]. intros found.
  destruct (negb found); [apply halts_ret|].
  apply halts_bind.
  { apply halts_bind; [apply halts_readFileSync | apply halts_decode]. }
  intros img1. apply halts_bind.
  { apply halts_bind; [apply halts_readFileSync | apply halts_decode]. }
  intros img2. destruct (negb _ || negb _); [apply halts_ret|].
  destruct (pixelmatch _ _ _ _ _ _) as [n out].
  apply halts_bind; [apply halts_writeFileSync | intros _; apply halts_ret].
Qed.

Lemma halts_saveBaseline src name dir : halts (saveBaseline src name dir).
Proof.
  unfold saveBaseline.
  apply halts_bind; [apply halts_existsSync|]. intros found.
  apply halts_bind.
  { destruct (negb found); [apply halts_mkdirSync | apply halts_ret]. }
  intros _. apply halts_bind; [apply halts_copyFileSync | intros _; apply halts_ret].
Qed.

Lemma halts_liftFs {A} (m : SE fs A) : halts m → halts (liftFs m).
Proof.
  intros Hm w. unfold liftFs. specialize (Hm (disk w)).
  by destruct (m (disk w)) as [o d].
Qed.

Lemma halts_call e op : halts (call e op).
Proof. intros w. unfold call. by destruct (op (browser w)) as [b []]. Qed.

Lemma halts_stagehand_act instr : halts (stagehand_act instr).
Proof. intros w. unfold stagehand_act. by destruct (act instr (browser w)) as [b []]. Qed.

Lemma halts_page_screenshot p file fullPage : halts (page_screenshot p file fullPage).
Proof.
  intros w. unfold page_screenshot.
  destruct (capture p fullPage (browser w)) as [b [bytes|]]; [|done].
  apply (halts_liftFs _ (halts_writeFileSync file bytes)).
Qed.

Lemma halts_ctx_screenshot name target : halts (ctx_screenshot ctx name target).
Proof.
  unfold ctx_screenshot, createScreenshotHelper.
  apply halts_bind; [|intros _; apply halts_ret].
  apply halts_try_catch; apply halts_page_screenshot.
Qed.

Lemma halts_closeEach l : halts (closeEach l).
Proof.
  induction l as [|ep l IH]; simpl; [apply halts_ret|].
  apply halts_bind; [|done]. apply halts_try_ignore, halts_call.
Qed.

Lemma halts_selfHeal att : halts (selfHeal ctx att).
Proof.
  unfold selfHeal.
  apply halts_bind; [apply halts_closeEach|]. intros _.
  apply halts_bind; [apply halts_liftFs, halts_existsSync|]. intros found.
  apply halts_bind.
  { destruct found; [|apply halts_ret].
    apply halts_bind; [|intros _]; apply halts_liftFs;
      [apply halts_rmSync | apply halts_mkdirSync]. }
  intros _. apply halts_bind; [|intros _]; apply halts_call.
Qed.

Lemma halts_actAndAssert : halts (actAndAssert ctx).
Proof.
  intros w. destruct (actAndAssert ctx w) as [o w'] eqn:Hr.
  by destruct (actAndAssert_spec _ _ _ _ Hr) as (_ & _ & _ & ? & _).
Qed.

Lemma halts_attemptWithSelfHeal : halts (attemptWithSelfHeal ctx).
Proof.
  unfold attemptWithSelfHeal.
  apply halts_bind; [apply halts_actAndAssert|]. intros att.
  destruct (negb (success att)); [|apply halts_ret].
  apply halts_bind; [apply halts_selfHeal | intros _; apply halts_actAndAssert].
Qed.

Lemma halts_captureNewTab att : halts (captureNewTab ctx att).
Proof.
  unfold captureNewTab. destruct (last (allPages att)) as [newTab|]; [|apply halts_throw].
  destruct (bool_decide (newTab ≠ page ctx)); [|apply halts_ret].
  apply halts_bind; [apply halts_try_ignore, halts_call|]. intros _.
  apply halts_bind; [apply halts_ctx_screenshot | intros _; apply halts_ret].
Qed.

Lemma halts_recordOutcome att : halts (recordOutcome att).
Proof.
  unfold recordOutcome. destruct (success att); [|done].
  apply halts_bind.
  { destruct (githubPage att); [done | apply halts_throw]. }
  intros _. apply halts_bind; [done|]. intros _.
  apply halts_bind; [|intros _; apply halts_ret].
  apply halts_liftFs, halts_saveBaseline.
Qed.

Lemma halts_visualCheck : halts (visualCheck ctx).
Proof.
  apply halts_bind; [apply halts_page_screenshot|]. intros _.
  apply halts_liftFs, halts_compare.
Qed.

(** Test 5 always comes to an end: it returns or it throws. *)
Lemma halts_test5 : halts (test5 ctx).
Proof.
  unfold test5. apply halts_bind; [apply halts_visualCheck|]. intros c.
  destruct (pageVisuallyBroken c); [done|].
  apply halts_bind; [apply halts_attemptWithSelfHeal|]. intros att.
  apply halts_bind; [apply halts_captureNewTab | intros _; apply halts_recordOutcome].
Qed.

End Halting.

Section Phases.
Context `{E : Env}.
Variable ctx : TestContext.

Lemma bind_cases {S A C} (m : SE S A) (f : A → SE S C) s o s' :
  (m ≫= f) s = (o, s') →
  (∃ om, m s = (om, s') ∧ stuck om o) ∨
  (∃ a s1, m s = (Ok a, s1) ∧ f a s1 = (o, s')).
Proof.
  intros [?|[[? ->]|[? ->]]]%bind_inv; [by right| |]; left; eexists; split; eauto;
    [by left | by right].
Qed.

(** *** The visual check *)

Lemma fs_framed_compare cur name dir diff :
  fs_framed (eq diff) (compareWithBaseline cur name dir diff).
Proof. intros d o d' p Hr Hp. eapply compare_frame; [done|]. by intros ->. Qed.

Lemma framed_visualCheck :
  framed (λ p, p = comparisonSsPath ∨ p = diffPath) (eq (preclick_event ctx))
         (visualCheck ctx).
Proof.
  apply framed_bind; [apply framed_page_screenshot; [by left|done] |]. intros _.
  apply framed_liftFs. intros d o d' p Hr Hp.
  eapply fs_framed_compare; [done|]. naive_solver.
Qed.

Lemma visualCheck_Ok w c w1 :
  visualCheck ctx w = (Ok c, w1) →
  ∃ shot b,
    capture (page ctx) false (browser w) = (b, Some shot) ∧
    disk w1 !! comparisonSsPath = Some (File shot) ∧
    compareWithBaseline comparisonSsPath "05a-before-click" BASELINES_DIR diffPath
      (<[comparisonSsPath := File shot]> (disk w)) = (Ok c, disk w1) ∧
    results w1 = results w ∧
    log w1 = log w ++ [(preclick_event ctx)] ∧
    (diffSaved c = true → ∃ bytes, disk w1 !! diffPath = Some (File bytes)).
Proof.
  unfold visualCheck. intros ([] & w0 & H1 & H2)%bind_Ok_inv.
  unfold page_screenshot in H1.
  destruct (capture (page ctx) false (browser w)) as [b [shot|]]; [|done].
  unfold liftFs in H1. simpl in H1.
  destruct (Fs.writeFileSync comparisonSsPath shot (disk w)) as [o1 d1] eqn:Hw.
  simplify_eq. apply write_Ok in Hw as ->.
  unfold liftFs in H2. simpl in H2.
  destruct (compareWithBaseline _ _ _ _ _) as [o2 d2] eqn:Hc. simplify_eq.
  exists shot, b. split; [done|]. split; [|split; [done|]].
  - simpl. erewrite compare_frame; [|done|apply comparisonSsPath_diffPath].
    apply lookup_insert_eq.
  - split; [done|]. split; [done|]. simpl. by eapply compare_diff_saved.
Qed.

(** *** Self-heal *)

Lemma framed_closeEach (S : path → Prop) (L : event → Prop) l :
  (∀ p, L (EvClose p)) → framed S L (closeEach l).
Proof.
  intros HL. induction l as [|ep l IH]; simpl; [apply framed_ret|].
  apply framed_bind; [|done]. apply framed_try_ignore. by apply framed_call.
Qed.

Lemma closeEach_Ok l : ∀ w, ∃ w', closeEach l w = (Ok tt, w') ∧ disk w' = disk w.
Proof.
  induction l as [|ep l IH]; intros w; simpl; [by eexists|].
  destruct (try_ignore (page_close ep) w) as [o1 w1] eqn:H1.
  assert (o1 = Ok tt ∧ disk w1 = disk w) as [-> Hd].
  { revert H1. unfold try_ignore, page_close, call.
    destruct (close ep (browser w)) as [b []]; intros; by simplify_eq. }
  destruct (IH w1) as (w' & Hr & Hd'). exists w'.
  split; [by erewrite bind_Ok_run | congruence].
Qed.

Lemma fs_framed_existsSync (S : path → Prop) p : fs_framed S (Fs.existsSync p).
Proof. intros d o d' q Hr _. unfold Fs.existsSync in Hr. by simplify_eq. Qed.

Lemma fs_framed_rm p : fs_framed (prefix p) (Fs.rmSync_recursive p).
Proof. intros d o d' q Hr Hq. by eapply rm_frame. Qed.

Lemma fs_framed_mkdir p : fs_framed (λ q, q `prefix_of` p) (Fs.mkdirSync_recursive p).
Proof. intros d o d' q Hr Hq. by eapply mkdirp_frame. Qed.

Lemma fs_framed_mono {A} (S S' : path → Prop) (m : SE fs A) :
  (∀ p, S p → S' p) → fs_framed S m → fs_framed S' m.
Proof. intros HS Hm d o d' p Hr Hp. eapply Hm; [done|]. naive_solver. Qed.

Lemma framed_selfHeal att : framed near_cache heal_event (selfHeal ctx att).
Proof.
  unfold selfHeal.
  apply framed_bind; [by apply framed_closeEach|]. intros _.
  apply framed_bind; [apply framed_liftFs, fs_framed_existsSync|]. intros found.
  apply framed_bind.
  { destruct found; [|apply framed_ret].
    apply framed_bind; [|intros _]; apply framed_liftFs.
    - eapply fs_framed_mono; [|apply fs_framed_rm]. by left.
    - eapply fs_framed_mono; [|apply fs_framed_mkdir]. by right. }
  intros _. apply framed_bind; [|intros _]; by apply framed_call.
Qed.

Lemma framed_attemptWithSelfHeal :
  framed near_cache attempt_event (attemptWithSelfHeal ctx).
Proof.
  unfold attemptWithSelfHeal.
  apply framed_bind; [apply framed_actAndAssert; [by left|by left] |]. intros att.
  destruct (negb (success att)); [|apply framed_ret].
  apply framed_bind; [|intros _; apply framed_actAndAssert; [by left|by left]].
  eapply framed_mono; [| |apply framed_selfHeal]; [done|by right].
Qed.



End Phases.

Section Outcome.
Context `{E : Env}.
Variable ctx : TestContext.

(** *** The new-tab screenshot *)

Lemma framed_captureNewTab att :
  framed (eq newTabPath) (newtab_event ctx) (captureNewTab ctx att).
Proof.
  unfold captureNewTab. destruct (last (allPages att)) as [newTab|]; [|apply framed_throw].
  destruct (bool_decide_reflect (newTab ≠ page ctx)) as [Hne|_]; [|apply framed_ret].
  apply framed_bind; [by apply framed_try_ignore, framed_call|]. intros _.
  apply framed_bind; [|intros _; apply framed_ret].
  unfold ctx_screenshot, createScreenshotHelper.
  apply framed_bind; [|intros _; apply framed_ret].
  apply framed_try_catch; by apply framed_page_screenshot.
Qed.

(** The original page in last position: nothing is captured. *)
Lemma captureNewTab_original att w :
  last (allPages att) = Some (page ctx) → captureNewTab ctx att w = (Ok tt, w).
Proof.
  intros Hl. unfold captureNewTab. rewrite Hl.
  by rewrite bool_decide_eq_false_2 by (intros Hne; by apply Hne).
Qed.

(** *** Recording the result *)

Lemma recordOutcome_failure att w :
  success att = false →
  recordOutcome att w =
    (Ok tt, {| browser := browser w; disk := disk w;
               results := results w ++ [failed newTabPath]; log := log w |}).
Proof. intros Hs. unfold recordOutcome. by rewrite Hs. Qed.

Lemma saveBaseline_Ok (src : path) (name : string) (dir : path) (d : fs)
    (c : list Byte.byte) (p : path) (d' : fs) :
  d !! src = Some (File c) →
  saveBaseline src name dir d = (Ok p, d') →
  p = path_join dir (name +:+ ".png") ∧ d' !! p = Some (File c).
Proof.
  intros Hsrc. unfold saveBaseline. step.
  intros ([] & d1 & Hm & Hc)%bind_Ok_inv.
  assert (d1 !! src = Some (File c)) as Hsrc1.
  { destruct (negb (Fs.present d dir)); [by eapply mkdirp_keeps | by inversion Hm; subst]. }
  apply bind_Ok_inv in Hc as ([] & d2 & Hc & Hret). inversion Hret; subst.
  unfold Fs.copyFileSync in Hc. apply bind_Ok_inv in Hc as (c' & d3 & Hrd & Hw).
  unfold Fs.readFileSync in Hrd. rewrite Hsrc1 in Hrd. simplify_eq.
  apply write_Ok in Hw as ->. split; [done|]. apply lookup_insert_eq.
Qed.

Lemma recordOutcome_success att w o w' :
  success att = true →
  recordOutcome att w = (o, w') →
  log w' = log w ∧
  (o = Ok tt →
     results w' = results w ++ [succeeded] ∧
     ∀ c, disk w !! comparisonSsPath = Some (File c) →
          disk w' !! baselinePath = Some (File c)).
Proof.
  intros Hs. unfold recordOutcome. rewrite Hs. rewrite bind_run.
  destruct (githubPage att) as [g|]; [|by intros [= <- <-]].
  unfold page_url at 1. step. rewrite bind_run. unfold liftFs.
  destruct (saveBaseline _ _ _ _) as [os d'] eqn:Hsave. simpl.
  destruct os as [p| |]; intros [= <- <-]; split; try done.
  intros _. split; [done|]. intros c Hc. simpl in *.
  by destruct (saveBaseline_Ok _ _ _ _ _ _ _ Hc Hsave) as [-> ?].
Qed.

(** *** The shape of a run of Test 5 *)

Lemma test5_cases w o w' :
  test5 ctx w = (o, w') →
  (∃ oc, visualCheck ctx w = (oc, w') ∧ stuck oc o) ∨
  ∃ c w1, visualCheck ctx w = (Ok c, w1) ∧
    ((pageVisuallyBroken c = true ∧
      results_push (failed diffPath) w1 = (o, w')) ∨
     (pageVisuallyBroken c = false ∧
      ((∃ oa, attemptWithSelfHeal ctx w1 = (oa, w') ∧ stuck oa o) ∨
       ∃ att w2, attemptWithSelfHeal ctx w1 = (Ok att, w2) ∧
         ((∃ ok, captureNewTab ctx att w2 = (ok, w') ∧ stuck ok o) ∨
          ∃ w3, captureNewTab ctx att w2 = (Ok tt, w3) ∧
                recordOutcome att w3 = (o, w'))))).
Proof.
  unfold test5. intros [?|(c & w1 & Hv & Hr)]%bind_cases; [by left|].
  right. exists c, w1. split; [done|].
  destruct (pageVisuallyBroken c); [by left|]. right. split; [done|].
  apply bind_cases in Hr as [?|(att & w2 & Ha & Hr)]; [by left|].
  right. exists att, w2. split; [done|].
  apply bind_cases in Hr as [?|([] & w3 & Hk & Hr)]; [by left|].
  right. by exists w3.
Qed.

End Outcome.

(** ** Further facts used by the claims *)

Lemma find_github_Some `{E : Env} (b : B) (l : list handle) :
  is_Some (find_github b l) ↔ ∃ p, p ∈ l ∧ contains (url b p) "github.com".
Proof.
  unfold find_github. split.
  - intros [p Hp]. apply find_some in Hp as [Hin Hinc].
    exists p. split; [by apply list_elem_of_In | by apply includes_contains].
  - intros (p & Hin & Hc). destruct (List.find _ l) as [q|] eqn:Hf; [done|].
    apply list_elem_of_In in Hin. apply includes_contains in Hc.
    pose proof (find_none _ _ Hf p Hin) as Hn. simpl in Hn. congruence.
Qed.

Lemma assess_success `{E : Env} (ctx : TestContext) (b : B) :
  success (assess ctx b) = true ↔
  (∃ p, p ∈ pages b ∧ contains (url b p) "github.com")
  ∨ contains (url b (page ctx)) "github.com".
Proof.
  unfold assess. simpl.
  by rewrite orb_true_iff, bool_decide_eq_true, find_github_Some, includes_contains.
Qed.



Lemma results_push_declares (r r' : TestResult) (rs rs' : list TestResult) :
  rs ++ [r] = rs' ++ [r'] → rs = rs' ∧ r = r'.
Proof. intros H. apply app_inj_tail in H. done. Qed.

Lemma results_same_no_push (r : TestResult) (rs : list TestResult) : rs ≠ rs ++ [r].
Proof.
  intros H. apply (f_equal length) in H. rewrite length_app in H. simpl in H. lia.
Qed.

Lemma cacheDir_not_root `{E : Env} : cacheDir ≠ [].
Proof.
  unfold cacheDir, path_resolve. intros H. apply (f_equal length) in H.
  rewrite length_app in H. simpl in H. lia.
Qed.

Lemma writable_child (d : fs) (dir : path) (name : string) :
  dir ≠ [] → d !! dir = Some Dir → d !! path_join dir name = None →
  Fs.writable d (path_join dir name) = true.
Proof.
  intros Hne Hdir Hchild. unfold Fs.writable, path_join, Fs.parent.
  destruct (dir ++ [name]) as [|x l] eqn:Hp; [by destruct dir|].
  rewrite <- Hp, removelast_last. unfold Fs.is_dir.
  rewrite Hp, <- Hp. unfold path_join in Hchild. rewrite Hdir, Hchild.
  by destruct dir.
Qed.

Lemma heal_navigation_disk `{E : Env} (ctx : TestContext) w o w' :
  (page_goto (page ctx) "https://cfe.jp/";;
   page_waitForLoadState (page ctx) "networkidle") w = (o, w') →
  disk w' = disk w.
Proof.
  intros Hr. apply map_eq. intros p.
  assert (framed (λ _, False) (λ _, True)
            (page_goto (page ctx) "https://cfe.jp/";;
             page_waitForLoadState (page ctx) "networkidle")) as Hf.
  { apply framed_bind; [|intros _]; by apply framed_call. }
  eapply Hf; [done|tauto].
Qed.

(** ** The quotient, and exceptions around the verdict *)


Lemma present_dir_or_file (d : fs) (p : path) :
  Fs.present d p = true → p = [] ∨ is_Some (d !! p).
Proof. unfold Fs.present. by intros ?%bool_decide_eq_true. Qed.

Lemma writable_inv (d : fs) (p : path) :
  Fs.writable d p = true →
  p ≠ [] ∧ Fs.is_dir d (Fs.parent p) = true ∧ Fs.is_dir d p = false.
Proof.
  unfold Fs.writable. destruct p as [|x l]; [done|].
  intros [? ?%negb_true_iff]%andb_true_iff. done.
Qed.

Lemma parent_join (dir : path) (name : string) :
  Fs.parent (path_join dir name) = dir.
Proof. apply removelast_last. Qed.

(** What a call of [saveBaseline] goes through. *)
Lemma saveBaseline_inv (src : path) (name : string) (dir : path)
    (d : fs) (o : outcome path) (d' : fs) :
  saveBaseline src name dir d = (o, d') →
  ∃ om d1,
    (if Fs.present d dir then (om, d1) = (Ok tt, d)
     else Fs.mkdirSync_recursive dir d = (om, d1)) ∧
    match om with
    | Ok _ =>
        match d1 !! src with
        | Some (File c) =>
            if Fs.writable d1 (path_join dir (name +:+ ".png"))
            then o = Ok (path_join dir (name +:+ ".png")) ∧
                 d' = <[path_join dir (name +:+ ".png") := File c]> d1
            else o = Throw ∧ d' = d1
        | _ => o = Throw ∧ d' = d1
        end
    | Throw => o = Throw ∧ d' = d1
    | OutOfFuel => o = OutOfFuel ∧ d' = d1
    end.
Proof.
  unfold saveBaseline. step. rewrite bind_run.
  destruct (Fs.present d dir); simpl.
  - intros Hr. exists (Ok tt), d. split; [done|]. revert Hr.
    rewrite bind_run. unfold Fs.copyFileSync. rewrite bind_run.
    unfold Fs.readFileSync, Fs.writeFileSync.
    destruct (d !! src) as [[c|]|]; try (by intros [= <- <-]).
    destruct (Fs.writable d _); by intros [= <- <-].
  - destruct (Fs.mkdirSync_recursive dir d) as [om d1] eqn:Hm.
    intros Hr. exists om, d1. split; [done|]. revert Hr.
    destruct om as [[]| |]; try (by intros [= <- <-]).
    rewrite bind_run. unfold Fs.copyFileSync. rewrite bind_run.
    unfold Fs.readFileSync, Fs.writeFileSync.
    destruct (d1 !! src) as [[c|]|]; try (by intros [= <- <-]).
    destruct (Fs.writable d1 _); by intros [= <- <-].
Qed.

(** A [saveBaseline] that throws leaves the baseline file as it was. *)
Lemma saveBaseline_throw_keeps (src : path) (name : string) (dir : path)
    (d d' : fs) :
  saveBaseline src name dir d = (Throw, d') →
  d' !! path_join dir (name +:+ ".png") = d !! path_join dir (name +:+ ".png").
Proof.
  intros (om & d1 & Hmk & Hrest)%saveBaseline_inv.
  assert (d1 !! path_join dir (name +:+ ".png")
          = d !! path_join dir (name +:+ ".png")) as Hd1.
  { destruct (Fs.present d dir); [by injection Hmk as _ ->|].
    eapply (mkdirp_frame [] dir); [done|]. simpl. unfold path_join.
    intros [k Hk]. apply (f_equal length) in Hk.
    rewrite !length_app in Hk. simpl in Hk. lia. }
  destruct om as [[]| |]; [|by destruct Hrest as [_ ->]..].
  destruct (d1 !! src) as [[c|]|]; [|by destruct Hrest as [_ ->]..].
  destruct (Fs.writable d1 _); destruct Hrest as [Ho ->]; [done|done].
Qed.

Section Verdicts.
Context `{E : Env}.
Variable ctx : TestContext.




(** What recording a pass leaves behind, whether or not saving the baseline
    throws. *)
Lemma recordOutcome_pass att w o w' :
  success att = true →
  recordOutcome att w = (o, w') →
  (o = Throw ∧ results w' = results w ∧ disk w' = disk w) ∨
  (results w' = results w ++ [succeeded] ∧
   ((o = Ok tt ∧
     ∀ c, disk w !! comparisonSsPath = Some (File c) →
          disk w' !! baselinePath = Some (File c)) ∨
    (o = Throw ∧ disk w' !! baselinePath = disk w !! baselinePath))).
Proof.
  intros Hs Hr.
  pose proof (recordOutcome_success _ _ _ _ Hs Hr) as [_ Hok].
  revert Hr. unfold recordOutcome. rewrite Hs. rewrite bind_run.
  destruct (githubPage att) as [g|].
  - unfold page_url at 1. step. unfold liftFs. rewrite bind_run.
    destruct (saveBaseline _ _ _ _) as [os d3] eqn:Hsave. simpl.
    pose proof (halts_saveBaseline comparisonSsPath "05a-before-click"
                  BASELINES_DIR (disk w)) as Hh.
    simpl in Hsave. rewrite Hsave in Hh. simpl in Hh.
    destruct os as [p| |]; [| |done]; intros [= <- <-]; right.
    + split; [done|]. left. split; [done|]. by apply Hok.
    + split; [done|]. right. split; [done|]. simpl.
      by eapply saveBaseline_throw_keeps.
  - intros [= <- <-]. by left.
Qed.

End Verdicts.

(** * The claims *)

(** ** C1 *)

(** C1, amended. When the comparison with the baseline is not skipped and
    the mismatch ratio is strictly above the threshold of 0.10, Test 5
    returns with the step recorded as failed, the artifact of the record
    being the path of the diff image; the pre-click screenshot is the only
    call it makes into the browser, so no click and no self-heal is ever
    attempted.  When the comparison saved a diff image, that image is at
    this path; at a size mismatch the comparison saves none, as
    [visual_regression_size_mismatch_artifact] below shows. *)
Theorem visual_regression_short_circuit `{E : Env} (ctx : TestContext)
    (w : world) (c : comparison) (w1 : world) :
  visualCheck ctx w = (Ok c, w1) →
  skipped c = false →
  (VISUAL_DIFF_THRESHOLD < mismatchRatio c)%Q →
  ∃ w',
    test5 ctx w = (Ok tt, w') ∧
    results w' = results w ++ [failed diffPath] ∧
    log w' = log w ++ [preclick_event ctx] ∧
    count_acts (log w') = count_acts (log w) ∧
    (diffSaved c = true → ∃ bytes, disk w' !! diffPath = Some (File bytes)).
Proof.
  intros Hv Hs Hgt.
  destruct (visualCheck_Ok _ _ _ _ Hv) as (shot & b & _ & _ & _ & Hres & Hlog & Hdiff).
  eexists. unfold test5. split.
  - step. unfold pageVisuallyBroken. rewrite Hs.
    apply Qgtb_true in Hgt. rewrite Hgt. reflexivity.
  - simpl. rewrite Hres, Hlog. split; [done|]. split; [done|]. split; [|done].
    rewrite count_acts_app. simpl. unfold count_acts. simpl. lia.
Qed.

(** Three pixels of ten differ from the baseline: a ratio of 0.30. *)
Lemma visual_regression_short_circuit_witness :
  ∃ w',
    test5 Scripted.ctx Scripted.broken_page = (Ok tt, w') ∧
    results w' = results Scripted.broken_page ++ [failed Scripted.diffFile] ∧
    log w' = log Scripted.broken_page ++ [EvScreenshot 0 Scripted.cmpFile false] ∧
    count_acts (log w') = count_acts (log Scripted.broken_page) ∧
    (true = true → ∃ bytes, disk w' !! Scripted.diffFile = Some (File bytes)).
Proof.
  apply (visual_regression_short_circuit Scripted.ctx Scripted.broken_page
           {| mismatchRatio := 3 # 10; diffSaved := true; skipped := false |}
           (visualCheck Scripted.ctx Scripted.broken_page).2).
  - apply run_eq. vm_compute. reflexivity.
  - reflexivity.
  - vm_compute. reflexivity.
Defined.

(** C1, as stated, fails at the threshold itself.  With one pixel of ten
    changed the comparison is not skipped and the ratio is 0.10, at the
    threshold; the run clicks once and records the step as passed. *)
Lemma visual_regression_at_threshold :
  (visualCheck Scripted.ctx Scripted.borderline).1
  = Ok {| mismatchRatio := 1 # 10; diffSaved := true; skipped := false |}
  ∧ (VISUAL_DIFF_THRESHOLD <= 1 # 10)%Q
  ∧ (test5 Scripted.ctx Scripted.borderline).1 = Ok tt
  ∧ count_acts (log (test5 Scripted.ctx Scripted.borderline).2) = 1
  ∧ results (test5 Scripted.ctx Scripted.borderline).2 = [succeeded (E := Scripted.env)].
Proof.
  split; [vm_compute; reflexivity|].
  split; [vm_compute; discriminate|].
  split; [vm_compute; reflexivity|].
  split; vm_compute; reflexivity.
Qed.

(** At a size mismatch the ratio is 1 and the step is recorded as failed
    with the diff path as its artifact, although the comparison wrote no
    diff image: the recorded path names a file that is not there. *)
Example visual_regression_size_mismatch_artifact :
  (visualCheck Scripted.ctx ScriptedRun.resized_page).1
  = Ok {| mismatchRatio := 1; diffSaved := false; skipped := false |}
  ∧ (test5 Scripted.ctx ScriptedRun.resized_page).1 = Ok tt
  ∧ results (test5 Scripted.ctx ScriptedRun.resized_page).2 = [failed Scripted.diffFile]
  ∧ disk (test5 Scripted.ctx ScriptedRun.resized_page).2 !! Scripted.diffFile = None.
Proof. repeat split; vm_compute; reflexivity. Qed.

(** ** C2 *)




(** ** C3 *)

(** C3. An attempt whose click resolves returns, with the list of the pages
    that are open when it ends, and declares success exactly when the URL
    of one of those pages contains [github.com] or the URL of the original
    page does; a new tab and a navigation in place both count. *)
Theorem actAndAssert_verdict `{E : Env} (ctx : TestContext) (w : world) :
  (act click (browser w)).2 = true →
  ∃ att w',
    actAndAssert ctx w = (Ok att, w') ∧
    allPages att = pages (browser w') ∧
    (success att = true ↔
     (∃ p, p ∈ pages (browser w') ∧ contains (url (browser w') p) "github.com")
     ∨ contains (url (browser w') (page ctx)) "github.com").
Proof.
  intros Hok. destruct (actAndAssert_returns ctx w Hok) as [w' Hr].
  exists (assess ctx (browser w')), w'. split; [done|]. split; [done|].
  apply assess_success.
Qed.

(** The click opens GitHub in a new tab. *)
Lemma actAndAssert_verdict_witness :
  ∃ att w',
    actAndAssert Scripted.ctx Scripted.first_run_pass = (Ok att, w') ∧
    allPages att = pages (browser w') ∧
    (success att = true ↔
     (∃ p, p ∈ pages (browser w') ∧ contains (url (browser w') p) "github.com")
     ∨ contains (url (browser w') (page Scripted.ctx)) "github.com").
Proof. apply (actAndAssert_verdict Scripted.ctx Scripted.first_run_pass). reflexivity. Defined.

(** ** C4 *)

(** C4, amended.  The baseline of the pre-click checkpoint follows the
    verdict of the step.  In a run that records the step as passed, the
    run captured a pre-click screenshot, and either Test 5 returns and the
    baseline file holds that screenshot, or saving the baseline throws and
    the baseline path holds what it held before.  In a run that records no
    pass (a visual regression, two failed attempts, or an exception before
    the verdict), the baseline path holds what it held before. *)
Theorem baseline_follows_verdict `{E : Env} (ctx : TestContext)
    (w : world) (o : outcome unit) (w' : world) :
  test5 ctx w = (o, w') →
  (∀ r, results w' = results w ++ [r] → passed r = true →
        ∃ shot b,
          capture (page ctx) false (browser w) = (b, Some shot) ∧
          ((o = Ok tt ∧ disk w' !! baselinePath = Some (File shot)) ∨
           (o = Throw ∧ disk w' !! baselinePath = disk w !! baselinePath))) ∧
  ((∀ r, results w' = results w ++ [r] → passed r = false) →
   disk w' !! baselinePath = disk w !! baselinePath).
Proof.
  intros Hrun.
  assert (∀ w0 : world, results w0 = results w →
            disk w0 !! baselinePath = disk w !! baselinePath →
            (∀ r, results w0 = results w ++ [r] → passed r = true → False) ∧
            ((∀ r, results w0 = results w ++ [r] → passed r = false) →
             disk w0 !! baselinePath = disk w !! baselinePath)) as Hquiet.
  { intros w0 Hr Hd. split; [|done]. intros r Hr'. rewrite Hr in Hr'.
    by apply results_same_no_push in Hr'. }
  apply test5_cases in Hrun
    as [(oc & Hv & Hst)|(c & w1 & Hv & [[Hb Hr]|[Hb Hrest]])].
  - destruct (framed_visualCheck _ _ _ _ Hv) as [Hres _ Hd].
    destruct (Hquiet w' Hres) as [Hno Hsame].
    { apply Hd. intros [?|?]; [by eapply comparisonSsPath_baselinePath
                               | by eapply baselinePath_diffPath]. }
    split; [|done]. intros r Hr Hp. by destruct (Hno r).
  - destruct (framed_visualCheck _ _ _ _ Hv) as [Hres _ Hd].
    inversion Hr; subst; clear Hr. simpl. split.
    + intros r Hr Hp. rewrite Hres in Hr.
      apply results_push_declares in Hr as [_ <-]. done.
    + intros _. apply Hd. intros [?|?]; [by eapply comparisonSsPath_baselinePath
                                        | by eapply baselinePath_diffPath].
  - destruct (framed_visualCheck _ _ _ _ Hv) as [Hres1 _ Hd1].
    assert (disk w1 !! baselinePath = disk w !! baselinePath) as Hb1.
    { apply Hd1. intros [?|?]; [by eapply comparisonSsPath_baselinePath
                                | by eapply baselinePath_diffPath]. }
    destruct Hrest as [(oa & Ha & Hst)|(att & w2 & Ha & Hrest)].
    { destruct (framed_attemptWithSelfHeal _ _ _ _ Ha) as [Hres2 _ Hd2].
      destruct (Hquiet w') as [Hno Hsame]; [congruence| |].
      { rewrite Hd2; [done | apply baselinePath_far]. }
      split; [|done]. intros r Hr Hp. by destruct (Hno r). }
    destruct (framed_attemptWithSelfHeal _ _ _ _ Ha) as [Hres2 _ Hd2].
    destruct Hrest as [(ok & Hk & Hst)|(w3 & Hk & Hr)].
    { destruct (framed_captureNewTab _ _ _ _ _ Hk) as [Hres3 _ Hd3].
      destruct (Hquiet w') as [Hno Hsame]; [congruence| |].
      { rewrite Hd3, Hd2; [done | apply baselinePath_far |].
        intros Heq. by eapply baselinePath_newTabPath. }
      split; [|done]. intros r Hr' Hp. by destruct (Hno r). }
    destruct (framed_captureNewTab _ _ _ _ _ Hk) as [Hres3 _ Hd3].
    assert (disk w3 !! baselinePath = disk w !! baselinePath) as Hb3.
    { rewrite Hd3, Hd2; [done | apply baselinePath_far |].
      intros Heq. by eapply baselinePath_newTabPath. }
    destruct (success att) eqn:Hs.
    + destruct (visualCheck_Ok _ _ _ _ Hv) as (shot & b & Hcap & Hshot & _).
      assert (disk w3 !! comparisonSsPath = Some (File shot)) as Hshot3.
      { rewrite Hd3, Hd2; [done | apply comparisonSsPath_far |].
        intros Heq. by eapply comparisonSsPath_newTabPath. }
      destruct (recordOutcome_pass _ _ _ _ Hs Hr)
        as [(-> & Hres' & Hdisk)|(Hres' & Hcase)].
      * destruct (Hquiet w') as [Hno Hsame]; [congruence|by rewrite Hdisk|].
        split; [|done]. intros r Hr' Hp. by destruct (Hno r).
      * split.
        -- intros r _ _. exists shot, b. split; [done|].
           destruct Hcase as [[-> Hbase]|[-> Hkeep]]; [left|right];
             (split; [done|]); [by apply Hbase|congruence].
        -- intros Hnone.
           assert (results w' = results w ++ [succeeded]) as Hp by congruence.
           by specialize (Hnone _ Hp).
    + rewrite recordOutcome_failure in Hr by done. inversion Hr; subst; clear Hr.
      simpl. split; [|done]. intros r Hr Hp.
      rewrite Hres3, Hres2, Hres1 in Hr.
      apply results_push_declares in Hr as [_ <-]. done.
Qed.

(** A first run that passes, and a run stopped by a visual regression. *)
Lemma baseline_follows_verdict_witness :
  (∃ img b,
     capture (page Scripted.ctx) false (browser Scripted.first_run_pass) = (b, Some img) ∧
     disk (test5 Scripted.ctx Scripted.first_run_pass).2 !! baselinePath (E := Scripted.env)
     = Some (File img))
  ∧ disk (test5 Scripted.ctx Scripted.broken_page).2 !! baselinePath (E := Scripted.env)
    = disk Scripted.broken_page !! baselinePath (E := Scripted.env).
Proof.
  split.
  - destruct (proj1 (baseline_follows_verdict Scripted.ctx Scripted.first_run_pass (Ok tt)
                       (test5 Scripted.ctx Scripted.first_run_pass).2
                       (run_eq (test5 Scripted.ctx) Scripted.first_run_pass tt
                          ltac:(vm_compute; reflexivity)))
                (succeeded (E := Scripted.env)))
      as (img & b & Hcap & [[_ Hbase]|[Hthrow _]]).
    + vm_compute. reflexivity.
    + reflexivity.
    + exists img, b. split; [exact Hcap | exact Hbase].
    + discriminate Hthrow.
  - apply (proj2 (baseline_follows_verdict Scripted.ctx Scripted.broken_page (Ok tt)
                    (test5 Scripted.ctx Scripted.broken_page).2
                    (run_eq (test5 Scripted.ctx) Scripted.broken_page tt
                       ltac:(vm_compute; reflexivity)))).
    intros r Hr.
    assert (results (test5 Scripted.ctx Scripted.broken_page).2 = [failed Scripted.diffFile]) as Hres
      by (vm_compute; reflexivity).
    rewrite Hres in Hr. injection Hr as <-. reflexivity.
Defined.

(** C4, as stated, fails when saving the baseline throws.  With a regular
    file in the place of the baseline directory the click opens GitHub and
    the step is recorded as passed, but the copy throws: Test 5 ends with
    the pass recorded and no baseline written. *)
Lemma pass_without_baseline :
  (test5 Scripted.ctx ScriptedRun.baselines_blocked).1 = Throw
  ∧ results (test5 Scripted.ctx ScriptedRun.baselines_blocked).2
    = [succeeded (E := Scripted.env)]
  ∧ disk (test5 Scripted.ctx ScriptedRun.baselines_blocked).2
      !! baselinePath (E := Scripted.env) = None
  ∧ disk ScriptedRun.baselines_blocked !! baselinePath (E := Scripted.env) = None.
Proof. repeat split; vm_compute; reflexivity. Qed.

(** ** C5 *)

(** C5, amended. When self-heal has run and the retry is about to start:
    if the cache directory existed when self-heal began, it exists, is
    empty and accepts new entries; if it did not exist, it is not created
    and the disk is as it was. *)
Theorem selfHeal_cache `{E : Env} (ctx : TestContext)
    (att : attempt) (w w' : world) :
  selfHeal ctx att w = (Ok tt, w') →
  if Fs.present (disk w) cacheDir then cache_ready (disk w')
  else disk w' = disk w.
Proof.
  unfold selfHeal.
  destruct (closeEach_Ok (filter (λ p, p ≠ page ctx) (allPages att)) w)
    as (wc & Hc & Hdc).
  step. step. rewrite <- Hdc. clear Hc Hdc.
  intros ([] & wm & Hclear & Hnav)%bind_Ok_inv.
  apply heal_navigation_disk in Hnav. rewrite Hnav. clear Hnav w'.
  destruct (Fs.present (disk wc) cacheDir) eqn:Hp.
  - apply bind_Ok_inv in Hclear as ([] & wr & Hrm & Hmk).
    unfold liftFs in Hrm, Hmk. simpl in Hrm.
    destruct (Fs.rmSync_recursive cacheDir (disk wc)) as [o1 d1] eqn:Hrm'.
    inversion Hrm; subst; clear Hrm. simpl in Hmk.
    destruct (Fs.mkdirSync_recursive cacheDir d1) as [o2 d2] eqn:Hmk'.
    inversion Hmk; subst; clear Hmk. simpl.
    assert (d2 !! cacheDir = Some Dir) as Hdir.
    { apply (mkdirp_made cacheDir [] d1 d2 Hmk'), cacheDir_not_root. }
    assert (∀ q, cacheDir `prefix_of` q → q ≠ cacheDir → d2 !! q = None) as Hempty.
    { intros q Hq Hne. erewrite (mkdirp_frame [] cacheDir d1); [|done|].
      - by eapply rm_gone.
      - simpl. intros Hq'. apply Hne. by apply (anti_symm prefix). }
    split; [done|]. split; [done|]. intros name.
    apply writable_child; [apply cacheDir_not_root | done |].
    apply Hempty; [by apply prefix_app_r|].
    unfold path_join. intros H. apply (f_equal length) in H.
    rewrite length_app in H. simpl in H. lia.
  - inversion Hclear; subst. done.
Qed.

(** Self-heal after a wrong click, with one entry in the cache. *)
Lemma selfHeal_cache_witness :
  cache_ready (E := Scripted.env)
    (disk (selfHeal Scripted.ctx Scripted.wrong_new_tab
             (actAndAssert Scripted.ctx Scripted.always_wrong).2).2).
Proof.
  pose proof (selfHeal_cache Scripted.ctx
                Scripted.wrong_new_tab
                (actAndAssert Scripted.ctx Scripted.always_wrong).2 _
                (run_eq (selfHeal Scripted.ctx Scripted.wrong_new_tab) (actAndAssert Scripted.ctx Scripted.always_wrong).2 tt
                   ltac:(vm_compute; reflexivity))) as H.
  assert (Fs.present (disk (actAndAssert Scripted.ctx Scripted.always_wrong).2) (cacheDir (E := Scripted.env)) = true)
    as Hp by (vm_compute; reflexivity).
  rewrite Hp in H. exact H.
Defined.

(** C5, as stated, fails when there is no cache directory.  After a failed
    attempt on a disk without [.cache/cfe-test], self-heal returns and the
    retry starts with the directory still missing. *)
Lemma selfHeal_cache_absent :
  (actAndAssert Scripted.ctx Scripted.wrong_in_place).1
  = Ok Scripted.wrong_same_tab
  ∧ (selfHeal Scripted.ctx Scripted.wrong_same_tab
       (actAndAssert Scripted.ctx Scripted.wrong_in_place).2).1 = Ok tt
  ∧ ¬ cache_ready (E := Scripted.env)
        (disk (selfHeal Scripted.ctx Scripted.wrong_same_tab
                 (actAndAssert Scripted.ctx Scripted.wrong_in_place).2).2).
Proof.
  split; [vm_compute; reflexivity|]. split; [vm_compute; reflexivity|].
  intros [Hdir _]. vm_compute in Hdir. discriminate Hdir.
Qed.

(** ** C6 *)

(** C6. [compareWithBaseline] answers [skipped = true] exactly when nothing
    exists at the baseline path of the checkpoint: without a baseline it
    returns, with [mismatchRatio = 0] and [diffSaved = false] and the disk
    as it was, and whatever it returns with [skipped = true] comes from that
    case, so a skipped result never carries a mismatch. *)
Theorem compareWithBaseline_skipped `{E : Env}
    (currentPath : path) (baselineName : string) (baselinesDir diffPath : path)
    (d : fs) :
  (Fs.present d (path_join baselinesDir (baselineName +:+ ".png")) = false →
   compareWithBaseline currentPath baselineName baselinesDir diffPath d
   = (Ok {| mismatchRatio := 0; diffSaved := false; skipped := true |}, d)) ∧
  (∀ r d',
     compareWithBaseline currentPath baselineName baselinesDir diffPath d = (Ok r, d') →
     (skipped r = true ↔
      Fs.present d (path_join baselinesDir (baselineName +:+ ".png")) = false) ∧
     (skipped r = true → mismatchRatio r = 0%Q ∧ diffSaved r = false)).
Proof.
  split; [apply compare_no_baseline|]. intros r d' Hr.
  destruct (Fs.present d _) eqn:Hp.
  - destruct (compare_with_baseline _ _ _ _ _ _ _ Hp Hr) as [Hs _].
    rewrite Hs. by split; [split|].
  - rewrite compare_no_baseline in Hr by done. by simplify_eq.
Qed.

(** First run: a screenshot on disk and no baseline. *)
Lemma compareWithBaseline_skipped_witness :
  compareWithBaseline (E := Scripted.env) Scripted.cmpFile "05a-before-click" Scripted.baselines Scripted.diffFile
    (Scripted.disk_with_shot (Scripted.shot 0) Scripted.disk0)
  = (Ok {| mismatchRatio := 0; diffSaved := false; skipped := true |},
     Scripted.disk_with_shot (Scripted.shot 0) Scripted.disk0).
Proof.
  apply (proj1 (compareWithBaseline_skipped _ _ _ _ _)). vm_compute. reflexivity.
Defined.

(** ** C7 *)

(** C7. When both files decode and the two images differ in width or in
    height, the comparison returns [mismatchRatio = 1], [skipped = false],
    [diffSaved = false], and writes nothing: the disk is unchanged. *)
Theorem compareWithBaseline_size_mismatch `{E : Env}
    (currentPath : path) (baselineName : string) (baselinesDir diffPath : path)
    (d : fs) (b1 b2 : list Byte.byte) (img1 img2 : image) :
  d !! currentPath = Some (File b1) →
  PNG_sync_read b1 = Some img1 →
  d !! path_join baselinesDir (baselineName +:+ ".png") = Some (File b2) →
  PNG_sync_read b2 = Some img2 →
  width img1 ≠ width img2 ∨ height img1 ≠ height img2 →
  compareWithBaseline currentPath baselineName baselinesDir diffPath d
  = (Ok {| mismatchRatio := 1; diffSaved := false; skipped := false |}, d).
Proof.
  intros H1 R1 H2 R2 Hdiff.
  rewrite (compare_decoded _ _ _ _ _ _ _ _ _ H1 R1 H2 R2).
  destruct Hdiff as [Hw|Hh].
  - apply Nat.eqb_neq in Hw. by rewrite Hw.
  - apply Nat.eqb_neq in Hh. rewrite Hh. by rewrite orb_true_r.
Qed.

(** A 2 by 5 screenshot against a 5 by 2 baseline. *)
Lemma compareWithBaseline_size_mismatch_witness :
  compareWithBaseline (E := Scripted.env) Scripted.cmpFile "05a-before-click" Scripted.baselines Scripted.diffFile
    (Scripted.disk_with_shot (Scripted.picture Byte.x02 Byte.x05 0) (Scripted.disk_with_baseline (Scripted.shot 0)))
  = (Ok {| mismatchRatio := 1; diffSaved := false; skipped := false |},
     Scripted.disk_with_shot (Scripted.picture Byte.x02 Byte.x05 0) (Scripted.disk_with_baseline (Scripted.shot 0))).
Proof.
  apply (compareWithBaseline_size_mismatch (E := Scripted.env) _ _ _ _ _
           (Scripted.picture Byte.x02 Byte.x05 0) (Scripted.shot 0)
           {| width := 2; height := 5; data := Scripted.raster 0 10 |}
           {| width := 5; height := 2; data := Scripted.raster 0 10 |}).
  - vm_compute. reflexivity.
  - vm_compute. reflexivity.
  - vm_compute. reflexivity.
  - vm_compute. reflexivity.
  - left. simpl. lia.
Defined.

(** ** C8 *)



(** ** C9 *)

(** C9. On every browser state in which the original page is among the open
    pages, the monolithic and the refactored attempt give the same verdict. *)
Theorem assess_monolithic_agrees `{E : Env} (ctx : TestContext) (b : B) :
  page ctx ∈ pages b →
  success (assess ctx b) = success (assess_monolithic b).
Proof.
  intros Hin. unfold assess, assess_monolithic. simpl.
  destruct (find_github b (pages b)) as [p|] eqn:Hf.
  - by rewrite bool_decide_eq_true_2.
  - rewrite bool_decide_eq_false_2 by (by intros [? ?]). simpl.
    apply list_elem_of_In in Hin. apply (find_none _ _ Hf _ Hin).
Qed.

(** One open page, the original one, on the wrong site. *)
Lemma assess_monolithic_agrees_witness :
  success (assess Scripted.ctx (browser Scripted.wrong_in_place))
  = success (assess_monolithic (browser Scripted.wrong_in_place)).
Proof.
  apply (assess_monolithic_agrees Scripted.ctx (browser Scripted.wrong_in_place)).
  simpl. constructor.
Defined.

(** ** C10 *)

(** C10. In a run that ends with a failed final attempt, the recorded
    result always names [05b-new-tab.png] as its artifact.  When the last
    open page of that attempt is the original page, the run has made no
    screenshot to that path, and the path holds what it held before
    Test 5 began: the artifact names a screenshot that was never taken. *)
Theorem failure_artifact_may_be_missing `{E : Env} (ctx : TestContext)
    (w : world) (c : comparison) (w1 : world) (att : attempt) (w2 w' : world) :
  visualCheck ctx w = (Ok c, w1) →
  pageVisuallyBroken c = false →
  attemptWithSelfHeal ctx w1 = (Ok att, w2) →
  success att = false →
  test5 ctx w = (Ok tt, w') →
  results w' = results w ++ [failed newTabPath] ∧
  ∃ l, log w' = log w ++ l ∧
       (last (allPages att) = Some (page ctx) →
        Forall (λ e, ¬ is_newtab_shot e) l ∧
        disk w' !! newTabPath = disk w !! newTabPath).
Proof.
  intros Hv Hb Ha Hs Hrun.
  destruct (framed_visualCheck _ _ _ _ Hv) as [R1 (l1 & Hl1 & F1) Hd1].
  destruct (framed_attemptWithSelfHeal _ _ _ _ Ha) as [R2 (l2 & Hl2 & F2) Hd2].
  revert Hrun. unfold test5. step. rewrite Hb. step.
  intros ([] & w3 & Hk & Hr)%bind_Ok_inv.
  destruct (framed_captureNewTab _ _ _ _ _ Hk) as [R3 (l3 & Hl3 & F3) _].
  rewrite recordOutcome_failure in Hr by done. inversion Hr; subst; clear Hr. simpl.
  split; [congruence|].
  exists (l1 ++ l2 ++ l3). split.
  { rewrite Hl3, Hl2, Hl1. by rewrite <- !app_assoc. }
  intros Hlast. rewrite captureNewTab_original in Hk by done.
  inversion Hk; subst; clear Hk.
  apply (f_equal length) in Hl3 as Hlen. rewrite length_app in Hlen.
  assert (l3 = []) as -> by (destruct l3; [done | simpl in Hlen; lia]).
  rewrite app_nil_r. split.
  - apply Forall_app. split.
    + eapply Forall_impl; [done|]. intros e <-. simpl.
      apply comparisonSsPath_newTabPath.
    + eapply Forall_impl; [done|]. intros e [->|He] Hshot; [done|].
      by destruct e.
  - rewrite Hd2 by apply newTabPath_far. apply Hd1.
    intros [Heq|Heq]; [by eapply comparisonSsPath_newTabPath
                      | by eapply newTabPath_diffPath].
Qed.

(** Both clicks navigate the original tab to the wrong site. *)
Lemma failure_artifact_may_be_missing_witness :
  results (test5 Scripted.ctx Scripted.wrong_in_place).2 = results Scripted.wrong_in_place ++ [failed Scripted.newTabFile]
  ∧ ∃ l, log (test5 Scripted.ctx Scripted.wrong_in_place).2 = log Scripted.wrong_in_place ++ l ∧
         Forall (λ e, ¬ is_newtab_shot (E := Scripted.env) e) l ∧
         disk (test5 Scripted.ctx Scripted.wrong_in_place).2 !! Scripted.newTabFile
         = disk Scripted.wrong_in_place !! Scripted.newTabFile.
Proof.
  destruct (failure_artifact_may_be_missing Scripted.ctx Scripted.wrong_in_place
              {| mismatchRatio := 0; diffSaved := false; skipped := true |}
              (visualCheck Scripted.ctx Scripted.wrong_in_place).2
              Scripted.wrong_same_tab
              (attemptWithSelfHeal Scripted.ctx (visualCheck Scripted.ctx Scripted.wrong_in_place).2).2
              (test5 Scripted.ctx Scripted.wrong_in_place).2)
    as (Hres & l & Hlog & Hmiss).
  - apply run_eq. vm_compute. reflexivity.
  - reflexivity.
  - apply run_eq. vm_compute. reflexivity.
  - reflexivity.
  - apply run_eq. vm_compute. reflexivity.
  - split; [exact Hres|]. exists l. split; [exact Hlog|]. exact (Hmiss eq_refl).
Defined.

(** * Further properties *)

Lemma run_throw {S A} (m : SE S A) (s : S) :
  (m s).1 = Throw → m s = (Throw, (m s).2).
Proof. destruct (m s) as [o s']. simpl. by intros ->. Qed.

Lemma frame_file_length (framesDir : path) (i : nat) :
  length (frame_file framesDir i) = S (length framesDir).
Proof. unfold frame_file, path_join. rewrite length_app. simpl. lia. Qed.

(** * Further properties *)

(** ** [compareWithBaseline] and [saveBaseline] *)

Section MoreCompare.
Context `{E : Env}.
Variables (currentPath : path) (baselineName : string)
          (baselinesDir diffPath : path).

Abbreviation theBaseline := (path_join baselinesDir (baselineName +:+ ".png")).
Abbreviation comparing :=
  (compareWithBaseline currentPath baselineName baselinesDir diffPath).

Lemma compare_returns_iff (d : fs) :
  (∃ r, (comparing d).1 = Ok r) ↔
  Fs.present d theBaseline = false ∨
  comparable currentPath baselineName baselinesDir diffPath d.
Proof.
  destruct (Fs.present d theBaseline) eqn:Hp.
  - split.
    + intros [r Hr]. right.
      destruct (comparing d) as [o d'] eqn:Hc. simpl in Hr. subst o.
      destruct (compare_with_baseline _ _ _ _ _ _ _ Hp Hc)
        as (_ & b1 & b2 & img1 & img2 & H1 & R1 & H2 & R2).
      exists b1, b2, img1, img2. repeat (split; [done|]).
      rewrite (compare_decoded _ _ _ _ _ _ _ _ _ H1 R1 H2 R2) in Hc.
      destruct (width img1 =? width img2) eqn:Hw;
        [|left; by apply Nat.eqb_neq].
      destruct (height img1 =? height img2) eqn:Hh;
        [|right; left; by apply Nat.eqb_neq].
      simpl in Hc. right; right.
      by destruct (Fs.writable d diffPath).
    + intros [?|(b1 & b2 & img1 & img2 & H1 & R1 & H2 & R2 & Hok)]; [done|].
      rewrite (compare_decoded _ _ _ _ _ _ _ _ _ H1 R1 H2 R2).
      destruct (width img1 =? width img2) eqn:Hw; [|by eexists].
      destruct (height img1 =? height img2) eqn:Hh; [|by eexists].
      simpl. apply Nat.eqb_eq in Hw, Hh.
      destruct Hok as [?|[?|Hwr]]; [done|done|]. rewrite Hwr. by eexists.
  - split; [by left|]. intros _. rewrite compare_no_baseline by done. by eexists.
Qed.

Lemma compare_halts_or_throws (d : fs) :
  (∃ r, (comparing d).1 = Ok r) ∨ (comparing d).1 = Throw.
Proof.
  pose proof (halts_compare currentPath baselineName baselinesDir diffPath d) as Hh.
  destruct (comparing d) as [[r| |] d']; simpl in *; [left; by eexists|by right|done].
Qed.

Lemma compare_throw_keeps_disk (d : fs) :
  (comparing d).1 = Throw → (comparing d).2 = d.
Proof.
  unfold compareWithBaseline, Fs.existsSync,
    Fs.readFileSync, Fs.writeFileSync, decode.
  se_unfold.
  destruct (Fs.present d theBaseline); simpl; [|done].
  destruct (d !! currentPath) as [[b1|]|]; try done.
  destruct (PNG_sync_read b1) as [img1|]; try done.
  destruct (d !! theBaseline) as [[b2|]|]; try done.
  destruct (PNG_sync_read b2) as [img2|]; try done.
  destruct (negb _ || negb _); [done|].
  destruct (pixelmatch _ _ _ _ _ _) as [n out].
  by destruct (Fs.writable d diffPath).
Qed.

End MoreCompare.

(** X1. With a baseline in place, [compareWithBaseline] throws exactly when
    one of the two files is missing or does not decode, or when the sizes
    agree and the diff file cannot be written; and when it throws it has
    written nothing. *)
Theorem compareWithBaseline_throws `{E : Env}
    (currentPath : path) (baselineName : string) (baselinesDir diffPath : path)
    (d : fs) :
  Fs.present d (path_join baselinesDir (baselineName +:+ ".png")) = true →
  ((compareWithBaseline currentPath baselineName baselinesDir diffPath d).1 = Throw ↔
   ¬ comparable currentPath baselineName baselinesDir diffPath d) ∧
  ((compareWithBaseline currentPath baselineName baselinesDir diffPath d).1 = Throw →
   (compareWithBaseline currentPath baselineName baselinesDir diffPath d).2 = d).
Proof.
  intros Hp. split; [|apply compare_throw_keeps_disk].
  pose proof (compare_returns_iff currentPath baselineName baselinesDir diffPath d)
    as Hiff.
  destruct (compare_halts_or_throws currentPath baselineName baselinesDir diffPath d)
    as [Hok|Hthrow].
  - split.
    + intros Ht. destruct Hok as [r Hr]. congruence.
    + intros Hn. destruct Hn. apply Hiff in Hok as [?|?]; [congruence|done].
  - split; [|done]. intros _ Hc.
    destruct (proj2 Hiff (or_intror Hc)) as [r Hr]. congruence.
Qed.

Lemma compareWithBaseline_throws_witness :
  (compareWithBaseline (E := Scripted.env) Scripted.cmpFile "05a-before-click"
     Scripted.baselines Scripted.diffFile
     (Scripted.disk_with_baseline (Scripted.shot 0))).2
  = Scripted.disk_with_baseline (Scripted.shot 0).
Proof.
  apply (proj2 (compareWithBaseline_throws (E := Scripted.env) Scripted.cmpFile
                  "05a-before-click" Scripted.baselines Scripted.diffFile
                  (Scripted.disk_with_baseline (Scripted.shot 0))
                  ltac:(vm_compute; reflexivity))).
  vm_compute. reflexivity.
Defined.

(** X2. Whatever its outcome, [compareWithBaseline] changes no path but the
    diff path: the screenshot and the baseline are only read. *)
Theorem compareWithBaseline_writes_only_diff `{E : Env}
    (currentPath : path) (baselineName : string) (baselinesDir diffPath : path)
    (d : fs) (o : outcome comparison) (d' : fs) (p : path) :
  compareWithBaseline currentPath baselineName baselinesDir diffPath d = (o, d') →
  p ≠ diffPath →
  d' !! p = d !! p.
Proof. apply compare_frame. Qed.

Lemma compareWithBaseline_writes_only_diff_witness :
  (compareWithBaseline (E := Scripted.env) Scripted.cmpFile "05a-before-click"
     Scripted.baselines Scripted.diffFile
     (Scripted.disk_with_shot (Scripted.shot 2)
        (Scripted.disk_with_baseline (Scripted.shot 0)))).2 !! Scripted.cmpFile
  = Scripted.disk_with_shot (Scripted.shot 2)
      (Scripted.disk_with_baseline (Scripted.shot 0)) !! Scripted.cmpFile.
Proof.
  apply (compareWithBaseline_writes_only_diff (E := Scripted.env) Scripted.cmpFile
           "05a-before-click" Scripted.baselines Scripted.diffFile
           (Scripted.disk_with_shot (Scripted.shot 2)
              (Scripted.disk_with_baseline (Scripted.shot 0)))
           _ _ Scripted.cmpFile (surjective_pairing _)).
  exact (comparisonSsPath_diffPath (E := Scripted.env)).
Defined.

(** ** [saveBaseline] *)

(** X3. For a baseline name that is a single path component: when
    [saveBaseline] returns, it returns the baseline path; the
    source was a regular file and the baseline now holds its bytes,
    replacing whatever was there; the baseline directory is a directory;
    and every other entry that existed is still there, unchanged. *)
Theorem saveBaseline_returns
    (screenshotPath : path) (baselineName : string) (baselinesDir : path)
    (d : fs) (dest : path) (d' : fs) :
  plain_name baselineName →
  saveBaseline screenshotPath baselineName baselinesDir d = (Ok dest, d') →
  dest = path_join baselinesDir (baselineName +:+ ".png") ∧
  (∃ c, d !! screenshotPath = Some (File c) ∧ d' !! dest = Some (File c)) ∧
  Fs.is_dir d' baselinesDir = true ∧
  (∀ q n, q ≠ dest → d !! q = Some n → d' !! q = Some n) ∧
  (∀ q, q ≠ dest → ¬ q `prefix_of` baselinesDir → d' !! q = d !! q).
Proof.
  intros _ (om & d1 & Hm & Hrest)%saveBaseline_inv.
  assert (om = Ok tt ∧
          (∀ q n, d !! q = Some n → d1 !! q = Some n) ∧
          (∀ q, ¬ q `prefix_of` baselinesDir → d1 !! q = d !! q) ∧
          (∀ q, d1 !! q = d !! q ∨ d1 !! q = Some Dir)) as (-> & Hkeep & Hframe & Hadd).
  { destruct (Fs.present d baselinesDir).
    - inversion Hm; subst. split; [done|]. split; [done|]. split; [done|]. by left.
    - destruct om as [[]| |]; [|by destruct Hrest|by destruct Hrest].
      split; [done|]. split; [|split].
      + intros q n. by eapply mkdirp_keeps.
      + intros q Hq. by eapply (mkdirp_frame []).
      + intros q. destruct (mkdirp_spec _ _ _ _ _ q Hm) as [?|(_ & ? & _)]; eauto. }
  destruct (d1 !! screenshotPath) as [[c|]|] eqn:Hsrc; [|by destruct Hrest..].
  destruct (Fs.writable d1 _) eqn:Hw; [|by destruct Hrest].
  destruct Hrest as [[= ->] ->]. split; [done|].
  apply writable_inv in Hw as (_ & Hpar & _). rewrite parent_join in Hpar.
  split; [|split; [|split]].
  - exists c. split; [|apply lookup_insert_eq].
    destruct (Hadd screenshotPath) as [<-|?]; [done|congruence].
  - unfold Fs.is_dir in *. destruct baselinesDir as [|x l] eqn:Hdir; [done|].
    rewrite <- Hdir in *. rewrite lookup_insert_ne; [done|].
    unfold path_join. intros Heq. apply (f_equal length) in Heq.
    rewrite length_app in Heq. simpl in Heq. lia.
  - intros q n Hq Hn. rewrite lookup_insert_ne by done. by apply Hkeep.
  - intros q Hq Hpre. rewrite lookup_insert_ne by done. by apply Hframe.
Qed.

Lemma saveBaseline_returns_witness :
  ∃ c, ScriptedRun.disk_after_run !! Scripted.cmpFile = Some (File c) ∧
       (saveBaseline Scripted.cmpFile "05a-before-click" Scripted.baselines
          ScriptedRun.disk_after_run).2 !! Scripted.baselineFile = Some (File c).
Proof.
  apply (saveBaseline_returns Scripted.cmpFile "05a-before-click"
           Scripted.baselines ScriptedRun.disk_after_run Scripted.baselineFile
           (saveBaseline Scripted.cmpFile "05a-before-click"
              Scripted.baselines ScriptedRun.disk_after_run).2).
  - vm_compute. reflexivity.
  - apply run_eq. vm_compute. reflexivity.
Defined.

(** X4. For a baseline name that is a single path component: when the
    source is not a regular file, [saveBaseline] throws and
    the baseline path holds what it held before (the baseline directory
    may have been created all the same). *)
Theorem saveBaseline_without_source
    (screenshotPath : path) (baselineName : string) (baselinesDir : path)
    (d : fs) :
  plain_name baselineName →
  (∀ c, d !! screenshotPath ≠ Some (File c)) →
  (saveBaseline screenshotPath baselineName baselinesDir d).1 = Throw ∧
  (saveBaseline screenshotPath baselineName baselinesDir d).2
    !! path_join baselinesDir (baselineName +:+ ".png")
  = d !! path_join baselinesDir (baselineName +:+ ".png").
Proof.
  intros _ Hsrc.
  destruct (saveBaseline screenshotPath baselineName baselinesDir d) as [o d'] eqn:Hs.
  simpl. apply saveBaseline_inv in Hs as (om & d1 & Hm & Hrest).
  assert (d1 !! path_join baselinesDir (baselineName +:+ ".png")
          = d !! path_join baselinesDir (baselineName +:+ ".png") ∧
          om ≠ OutOfFuel ∧
          ∀ c, d1 !! screenshotPath ≠ Some (File c)) as (Hdest & Hfuel & Hsrc1).
  { destruct (Fs.present d baselinesDir).
    - inversion Hm; subst. done.
    - split; [|split].
      + eapply (mkdirp_frame []); [done|]. simpl. intros Hp%prefix_length.
        unfold path_join in Hp. rewrite length_app in Hp. simpl in Hp. lia.
      + pose proof (halts_mkdirSync baselinesDir d) as Hh. by rewrite Hm in Hh.
      + intros c Hc.
        destruct (mkdirp_spec _ _ _ _ _ screenshotPath Hm) as [Heq|(_ & ? & _)];
          [|congruence].
        rewrite Hc in Heq. by eapply Hsrc. }
  destruct om as [[]| |]; [|by destruct Hrest as [-> ->]|done].
  destruct (d1 !! screenshotPath) as [[c|]|] eqn:H1;
    [by destruct (Hsrc1 c)|by destruct Hrest as [-> ->]..].
Qed.

Lemma saveBaseline_without_source_witness :
  (saveBaseline Scripted.cmpFile "05a-before-click" Scripted.baselines
     Scripted.disk0).1 = Throw.
Proof.
  apply (saveBaseline_without_source Scripted.cmpFile "05a-before-click"
           Scripted.baselines Scripted.disk0).
  - vm_compute. reflexivity.
  - intros c. vm_compute. discriminate.
Defined.

(** X5. Saving a screenshot as baseline and comparing the same screenshot
    with it: the comparison is not skipped, writes its diff and finds a
    mismatch of zero (for a non-empty image and a writable diff path). *)
Theorem baseline_round_trip `{E : Env}
    (screenshotPath : path) (baselineName : string) (baselinesDir diffPath : path)
    (d : fs) (dest : path) (d1 : fs) (c : list Byte.byte) (img : image) :
  saveBaseline screenshotPath baselineName baselinesDir d = (Ok dest, d1) →
  d !! screenshotPath = Some (File c) →
  PNG_sync_read c = Some img →
  0 < width img * height img →
  Fs.writable d1 diffPath = true →
  ∃ r d2,
    compareWithBaseline screenshotPath baselineName baselinesDir diffPath d1
    = (Ok r, d2) ∧
    skipped r = false ∧ diffSaved r = true ∧ (mismatchRatio r == 0)%Q.
Proof.
  intros Hsave Hsrc Hread Hpos Hwr.
  destruct (saveBaseline_Ok _ _ _ _ _ _ _ Hsrc Hsave) as [-> Hdest].
  assert (d1 !! screenshotPath = Some (File c)) as Hsrc1.
  { destruct (decide (screenshotPath = path_join baselinesDir (baselineName +:+ ".png")))
      as [->|Hne]; [done|].
    apply saveBaseline_inv in Hsave as (om & d0 & Hm & Hrest).
    assert (om = Ok tt ∧ d0 !! screenshotPath = Some (File c)) as [-> H0].
    { destruct (Fs.present d baselinesDir).
      - by inversion Hm; subst.
      - destruct om as [[]| |]; [|by destruct Hrest..].
        split; [done|]. by eapply mkdirp_keeps. }
    rewrite H0 in Hrest. destruct (Fs.writable d0 _); [|by destruct Hrest].
    destruct Hrest as [_ ->]. by rewrite lookup_insert_ne. }
  rewrite (compare_decoded _ _ _ _ _ _ _ _ _ Hsrc1 Hread Hdest Hread).
  rewrite !Nat.eqb_refl. simpl. rewrite Hwr.
  eexists _, _. split; [done|]. simpl. split; [done|]. split; [done|].
  rewrite pixelmatch_same. apply ratio_zero.
Qed.

Lemma baseline_round_trip_witness :
  ∃ r d2,
    compareWithBaseline (E := Scripted.env) Scripted.cmpFile "05a-before-click"
      Scripted.baselines Scripted.diffFile
      (saveBaseline Scripted.cmpFile "05a-before-click" Scripted.baselines
         ScriptedRun.disk_after_run).2
    = (Ok r, d2) ∧
    skipped r = false ∧ diffSaved r = true ∧ (mismatchRatio r == 0)%Q.
Proof.
  apply (baseline_round_trip (E := Scripted.env) Scripted.cmpFile "05a-before-click"
           Scripted.baselines Scripted.diffFile ScriptedRun.disk_after_run
           Scripted.baselineFile
           (saveBaseline Scripted.cmpFile "05a-before-click" Scripted.baselines
              ScriptedRun.disk_after_run).2
           (Scripted.shot 0)
           {| width := 5; height := 2; data := Scripted.raster 0 10 |}).
  - apply run_eq. vm_compute. reflexivity.
  - vm_compute. reflexivity.
  - vm_compute. reflexivity.
  - simpl. lia.
  - vm_compute. reflexivity.
Defined.

(** ** [createScreenshotHelper] *)

Lemma page_screenshot_inv `{E : Env} (p : handle) (file : path) (fullPage : bool)
    w o w' :
  page_screenshot p file fullPage w = (o, w') →
  log w' = log w ++ [EvScreenshot p file fullPage] ∧
  results w' = results w ∧
  browser w' = (capture p fullPage (browser w)).1 ∧
  match (capture p fullPage (browser w)).2 with
  | Some bytes =>
      if Fs.writable (disk w) file
      then o = Ok tt ∧ disk w' = <[file := File bytes]> (disk w)
      else o = Throw ∧ disk w' = disk w
  | None => o = Throw ∧ disk w' = disk w
  end.
Proof.
  unfold page_screenshot.
  destruct (capture p fullPage (browser w)) as [b [bytes|]]; simpl.
  - unfold liftFs, Fs.writeFileSync. simpl.
    destruct (Fs.writable (disk w) file); by intros [= <- <-].
  - by intros [= <- <-].
Qed.

(** X6. When the screenshot helper returns, it returns [dir/name.png], and
    that file holds a capture of the target page: the full-page one after
    a single call, or, when that attempt failed, the viewport one after a
    second call. *)
Theorem createScreenshotHelper_returns `{E : Env}
    (pg : handle) (dir : path) (name : string) (targetPage : option handle)
    (w : world) (file : path) (w' : world) :
  createScreenshotHelper pg dir name targetPage w = (Ok file, w') →
  let target := default pg targetPage in
  file = path_join dir (name +:+ ".png") ∧
  results w' = results w ∧
  ∃ bytes,
    disk w' = <[file := File bytes]> (disk w) ∧
    ((log w' = log w ++ [EvScreenshot target file true] ∧
      (capture target true (browser w)).2 = Some bytes)
     ∨
     (log w' = log w ++ [EvScreenshot target file true;
                         EvScreenshot target file false] ∧
      (capture target false (capture target true (browser w)).1).2 = Some bytes)).
Proof.
  intros Hr target. unfold createScreenshotHelper in Hr. fold target in Hr.
  apply bind_Ok_inv in Hr as ([] & w1 & Htry & Hret).
  inversion Hret; subst; clear Hret. split; [done|].
  unfold try_catch in Htry.
  destruct (page_screenshot target _ true w) as [o1 w0] eqn:H1.
  apply page_screenshot_inv in H1 as (L1 & R1 & B1 & D1).
  destruct o1 as [[]| |].
  - inversion Htry; subst; clear Htry. split; [done|].
    destruct (capture target true (browser w)).2 as [bytes|]; [|by destruct D1].
    destruct (Fs.writable (disk w) _); [|by destruct D1].
    destruct D1 as [_ D1]. exists bytes. split; [done|]. by left.
  - apply page_screenshot_inv in Htry as (L2 & R2 & B2 & D2).
    assert (disk w0 = disk w) as D0.
    { destruct (capture target true (browser w)).2 as [bytes|]; [|by destruct D1].
      destruct (Fs.writable (disk w) _); by destruct D1. }
    split; [congruence|]. rewrite B1 in D2.
    destruct (capture target false _).2 as [bytes|]; [|by destruct D2].
    rewrite D0 in D2. destruct (Fs.writable (disk w) _); [|by destruct D2].
    destruct D2 as [_ D2]. exists bytes. split; [done|]. right.
    split; [|done]. rewrite L2, L1, <- app_assoc. done.
  - done.
Qed.

Lemma createScreenshotHelper_returns_witness :
  results (createScreenshotHelper (E := Scripted.env) 0
             (SCREENSHOT_DIR (E := Scripted.env)) "01-page-loaded" None
             Scripted.first_run_pass).2
  = results Scripted.first_run_pass.
Proof.
  apply (createScreenshotHelper_returns (E := Scripted.env) 0
           (SCREENSHOT_DIR (E := Scripted.env)) "01-page-loaded" None
           Scripted.first_run_pass
           (path_join (SCREENSHOT_DIR (E := Scripted.env)) "01-page-loaded.png")
           (createScreenshotHelper (E := Scripted.env) 0
              (SCREENSHOT_DIR (E := Scripted.env)) "01-page-loaded" None
              Scripted.first_run_pass).2).
  apply run_eq. vm_compute. reflexivity.
Defined.

(** X7. The fallback of the screenshot helper: when the full-page capture
    fails and the viewport capture works, the helper returns all the same,
    with the viewport image at [dir/name.png]. *)
Theorem createScreenshotHelper_fallback `{E : Env}
    (pg : handle) (dir : path) (name : string) (targetPage : option handle)
    (w : world) (bytes : list Byte.byte) :
  let target := default pg targetPage in
  let file := path_join dir (name +:+ ".png") in
  (capture target true (browser w)).2 = None →
  (capture target false (capture target true (browser w)).1).2 = Some bytes →
  Fs.writable (disk w) file = true →
  ∃ w',
    createScreenshotHelper pg dir name targetPage w = (Ok file, w') ∧
    disk w' = <[file := File bytes]> (disk w).
Proof.
  intros target file Hfull Hview Hwr.
  unfold createScreenshotHelper. fold target file. rewrite bind_run.
  unfold try_catch.
  destruct (page_screenshot target file true w) as [o1 w0] eqn:H1.
  apply page_screenshot_inv in H1 as (L1 & R1 & B1 & D1).
  rewrite Hfull in D1. destruct D1 as [-> D1].
  destruct (page_screenshot target file false w0) as [o2 w2] eqn:H2.
  apply page_screenshot_inv in H2 as (L2 & R2 & B2 & D2).
  rewrite B1, Hview, D1, Hwr in D2. destruct D2 as [-> D2].
  by exists w2.
Qed.

Lemma createScreenshotHelper_fallback_witness :
  ∃ w',
    createScreenshotHelper (E := Viewport.env) 0
      (SCREENSHOT_DIR (E := Viewport.env)) "01-page-loaded" None
      (Viewport.start (Scripted.shot 0) Scripted.disk0)
    = (Ok (path_join (SCREENSHOT_DIR (E := Viewport.env))
             ("01-page-loaded" +:+ ".png")), w') ∧
    disk w' = <[path_join (SCREENSHOT_DIR (E := Viewport.env))
                  ("01-page-loaded" +:+ ".png") := File (Scripted.shot 0)]>
                (disk (Viewport.start (Scripted.shot 0) Scripted.disk0)).
Proof.
  apply (createScreenshotHelper_fallback (E := Viewport.env) 0
           (SCREENSHOT_DIR (E := Viewport.env)) "01-page-loaded" None
           (Viewport.start (Scripted.shot 0) Scripted.disk0) (Scripted.shot 0)).
  - vm_compute. reflexivity.
  - vm_compute. reflexivity.
  - vm_compute. reflexivity.
Defined.

(** X8. The screenshot helper throws only after two failed attempts, and
    then the disk is as it was: every failure is a failure of both the
    full-page and the viewport screenshot. *)
Theorem createScreenshotHelper_throws `{E : Env}
    (pg : handle) (dir : path) (name : string) (targetPage : option handle)
    (w w' : world) :
  createScreenshotHelper pg dir name targetPage w = (Throw, w') →
  let target := default pg targetPage in
  let file := path_join dir (name +:+ ".png") in
  log w' = log w ++ [EvScreenshot target file true; EvScreenshot target file false] ∧
  disk w' = disk w ∧
  results w' = results w.
Proof.
  intros Hr target file. unfold createScreenshotHelper in Hr. fold target file in Hr.
  apply bind_inv in Hr as [(a & w1 & _ & Hret)|[[Htry _]|[_ ?]]]; [done| |done].
  unfold try_catch in Htry.
  destruct (page_screenshot target file true w) as [o1 w0] eqn:H1.
  apply page_screenshot_inv in H1 as (L1 & R1 & B1 & D1).
  destruct o1 as [[]| |]; [done| |done].
  apply page_screenshot_inv in Htry as (L2 & R2 & B2 & D2).
  assert (disk w0 = disk w) as D0.
  { destruct (capture target true (browser w)).2 as [bytes|]; [|by destruct D1].
    destruct (Fs.writable (disk w) _); by destruct D1. }
  split; [by rewrite L2, L1, <- app_assoc|]. split; [|congruence].
  destruct (capture target false _).2 as [bytes|]; [|destruct D2; congruence].
  destruct (Fs.writable (disk w0) _); destruct D2; [done|congruence].
Qed.

Lemma createScreenshotHelper_throws_witness :
  disk (createScreenshotHelper (E := Scripted.env) 0
          (SCREENSHOT_DIR (E := Scripted.env)) "05b-new-tab" (Some 7)
          Scripted.first_run_pass).2
  = disk Scripted.first_run_pass.
Proof.
  apply (createScreenshotHelper_throws (E := Scripted.env) 0
           (SCREENSHOT_DIR (E := Scripted.env)) "05b-new-tab" (Some 7)
           Scripted.first_run_pass
           (createScreenshotHelper (E := Scripted.env) 0
              (SCREENSHOT_DIR (E := Scripted.env)) "05b-new-tab" (Some 7)
              Scripted.first_run_pass).2).
  apply run_throw. vm_compute. reflexivity.
Defined.

(** ** The output directories of [setupTestEnv] *)

Lemma mkdirp_returns (rest : path) : ∀ (pre : path) (d : fs),
  (∀ k c, k ≠ [] → k `prefix_of` rest → d !! (pre ++ k) ≠ Some (File c)) →
  ∃ d', Fs.mkdirp pre rest d = (Ok tt, d').
Proof.
  induction rest as [|x rest IH]; intros pre d Hfree; simpl; [by eexists|].
  assert (∀ d0 : fs,
            (∀ q, pre ++ [x] `prefix_of` q → q ≠ pre ++ [x] → d0 !! q = d !! q) →
            ∃ d', Fs.mkdirp (pre ++ [x]) rest d0 = (Ok tt, d')) as Hnext.
  { intros d0 Hsame. apply IH. intros k c Hk Hp.
    rewrite Hsame.
    - rewrite <- app_assoc. apply Hfree; [done|]. by apply prefix_cons.
    - by apply prefix_app_r.
    - intros Heq. apply (f_equal length) in Heq. rewrite !length_app in Heq.
      destruct k; [done|]. simpl in Heq. lia. }
  destruct (d !! (pre ++ [x])) as [[c|]|] eqn:Hd.
  - destruct (Hfree [x] c); [done| |done]. apply prefix_cons, prefix_nil.
  - by apply Hnext.
  - apply Hnext. intros q _ Hq. by rewrite lookup_insert_ne.
Qed.

(** One round of the loop of [resetDirs]. *)
Lemma resetDirs_cons (dir : path) (rest : list path) (d d' : fs) :
  resetDirs (dir :: rest) d = (Ok tt, d') →
  ∃ d1 d2,
    (if Fs.present d dir then Fs.rmSync_recursive dir d = (Ok tt, d1) else d1 = d) ∧
    Fs.mkdirSync_recursive dir d1 = (Ok tt, d2) ∧
    resetDirs rest d2 = (Ok tt, d').
Proof.
  simpl. step. intros ([] & d1 & Hrm & ([] & d2 & Hmk & Hrest)%bind_Ok_inv)%bind_Ok_inv.
  exists d1, d2. split; [|done].
  destruct (Fs.present d dir); [done|]. by inversion Hrm.
Qed.

(** Outside of [dir] a round only adds missing ancestors of [dir]. *)
Lemma reset_round_outside (dir : path) (d d1 d2 : fs) :
  (if Fs.present d dir then Fs.rmSync_recursive dir d = (Ok tt, d1) else d1 = d) →
  Fs.mkdirSync_recursive dir d1 = (Ok tt, d2) →
  (∀ q, ¬ dir `prefix_of` q → d1 !! q = d !! q) ∧
  (∀ q, ¬ dir `prefix_of` q → ¬ q `prefix_of` dir → d2 !! q = d !! q) ∧
  (∀ q, ¬ dir `prefix_of` q → d2 !! q = d !! q ∨ (d !! q = None ∧ d2 !! q = Some Dir)).
Proof.
  intros Hrm Hmk.
  assert (∀ q, ¬ dir `prefix_of` q → d1 !! q = d !! q) as Hout.
  { destruct (Fs.present d dir); [|by subst]. intros q Hq. by eapply rm_frame. }
  split; [done|]. split.
  - intros q Hq Hq'. rewrite (mkdirp_frame [] dir d1 _ d2 q Hmk) by done. by apply Hout.
  - intros q Hq. rewrite <- (Hout q Hq).
    destruct (mkdirp_spec _ _ _ _ _ q Hmk) as [?|(? & ? & _)]; [by left|by right].
Qed.

(** What one round leaves behind. *)
Lemma reset_round (dir : path) (d d1 d2 : fs) :
  dir ≠ [] →
  no_orphans d dir →
  (if Fs.present d dir then Fs.rmSync_recursive dir d = (Ok tt, d1) else d1 = d) →
  Fs.mkdirSync_recursive dir d1 = (Ok tt, d2) →
  holds_only d2 dir (λ _, False).
Proof.
  intros Hne Horph Hrm Hmk.
  assert (∀ q, dir `prefix_of` q → d1 !! q = None) as Hgone.
  { destruct (Fs.present d dir) eqn:Hp.
    - intros q Hq. by eapply rm_gone.
    - subst d1. apply Horph.
      unfold Fs.present in Hp. apply bool_decide_eq_false in Hp.
      destruct (d !! dir) eqn:Hd; [|done]. destruct Hp. right. by eexists. }
  split.
  - by apply (mkdirp_made dir [] d1 d2).
  - intros q Hq Hqne _. rewrite (mkdirp_frame [] dir d1 _ d2 q Hmk); [by apply Hgone|].
    simpl. intros Hq'. apply Hqne. by apply (anti_symm prefix).
Qed.

(** A round returns when no regular file lies above [dir]. *)
Lemma reset_round_returns (dir : path) (d : fs) :
  dir ≠ [] →
  (∀ k c, k `prefix_of` dir → k ≠ dir → d !! k ≠ Some (File c)) →
  ∃ d1 d2,
    (if Fs.present d dir then Fs.rmSync_recursive dir d = (Ok tt, d1) else d1 = d) ∧
    Fs.mkdirSync_recursive dir d1 = (Ok tt, d2).
Proof.
  intros Hne Hfree.
  assert (∃ d1, (if Fs.present d dir then Fs.rmSync_recursive dir d = (Ok tt, d1)
                 else d1 = d) ∧
                d1 !! dir = None ∧
                ∀ q, ¬ dir `prefix_of` q → d1 !! q = d !! q) as (d1 & Hrm & Hgone & Hout).
  { destruct (Fs.present d dir) eqn:Hp.
    - apply present_dir_or_file in Hp as [?|[n Hn]]; [done|].
      eexists. split; [unfold Fs.rmSync_recursive; by rewrite Hn|].
      split.
      + apply map_lookup_filter_None. right. intros y _ Hy. by apply Hy.
      + intros q Hq. apply option_eq; intros y. rewrite map_lookup_filter_Some.
        split; [by intros [? _] | by intros ?].
    - exists d. split; [done|]. split; [|done].
      unfold Fs.present in Hp. apply bool_decide_eq_false in Hp.
      destruct (d !! dir) eqn:Hd; [|done]. destruct Hp. right. by eexists. }
  destruct (mkdirp_returns dir [] d1) as [d2 Hmk].
  { simpl. intros k c Hk Hp Hc. destruct (decide (k = dir)) as [->|Hkd]; [congruence|].
    rewrite Hout in Hc; [by eapply Hfree|].
    intros Hp'. apply Hkd. by apply (anti_symm prefix). }
  by exists d1, d2.
Qed.

Lemma resetDirs_cons_run (dir : path) (rest : list path) (d d1 d2 : fs) :
  (if Fs.present d dir then Fs.rmSync_recursive dir d = (Ok tt, d1) else d1 = d) →
  Fs.mkdirSync_recursive dir d1 = (Ok tt, d2) →
  resetDirs (dir :: rest) d = resetDirs rest d2.
Proof.
  intros Hrm Hmk. simpl. step. rewrite bind_run.
  destruct (Fs.present d dir).
  - rewrite Hrm. by step.
  - subst d1. simpl. by step.
Qed.

Section Setup.
Context `{E : Env}.

Lemma dirs_apart (a b : string) (q : path) :
  a ≠ b → path_resolve [a] `prefix_of` q → ¬ path_resolve [b] `prefix_of` q.
Proof.
  unfold path_resolve. intros Hab [k ->] [k' Hk].
  rewrite <- !app_assoc in Hk. apply app_inv_head in Hk. simpl in Hk. congruence.
Qed.

Lemma dir_not_above (a b : string) (q : path) :
  a ≠ b → path_resolve [a] `prefix_of` q → ¬ q `prefix_of` path_resolve [b].
Proof.
  unfold path_resolve. intros Hab [k ->] [k' Hk].
  rewrite <- !app_assoc in Hk. apply app_inv_head in Hk. simpl in Hk. congruence.
Qed.

Lemma resolve_not_root (l : path) : l ≠ [] → path_resolve l ≠ [].
Proof. unfold path_resolve. intros Hl Heq. by apply app_nil in Heq as [_ ?]. Qed.

Lemma FRAMES_DIR_under : RECORDING_DIR `prefix_of` FRAMES_DIR.
Proof. unfold FRAMES_DIR, path_join. by apply prefix_app_r. Qed.

Lemma prepareOutputDirs_inv (d d' : fs) :
  prepareOutputDirs d = (Ok tt, d') →
  ∃ d1 d2 d3 d4,
    (if Fs.present d SCREENSHOT_DIR
     then Fs.rmSync_recursive SCREENSHOT_DIR d = (Ok tt, d1) else d1 = d) ∧
    Fs.mkdirSync_recursive SCREENSHOT_DIR d1 = (Ok tt, d2) ∧
    (if Fs.present d2 RECORDING_DIR
     then Fs.rmSync_recursive RECORDING_DIR d2 = (Ok tt, d3) else d3 = d2) ∧
    Fs.mkdirSync_recursive RECORDING_DIR d3 = (Ok tt, d4) ∧
    Fs.mkdirSync_recursive FRAMES_DIR d4 = (Ok tt, d').
Proof.
  unfold prepareOutputDirs. intros ([] & d4 & Hreset & Hframes)%bind_Ok_inv.
  apply resetDirs_cons in Hreset as (d1 & d2 & H1 & H2 & Hreset).
  apply resetDirs_cons in Hreset as (d3 & d4' & H3 & H4 & Hreset).
  inversion Hreset; subst. by exists d1, d2, d3, d4.
Qed.

Lemma not_above_frames (a : string) (q : path) :
  a ≠ "recordings" → path_resolve [a] `prefix_of` q → ¬ q `prefix_of` FRAMES_DIR.
Proof.
  unfold FRAMES_DIR, RECORDING_DIR, path_join, path_resolve.
  intros Ha [k ->] [k' Hk].
  rewrite <- !app_assoc in Hk. apply app_inv_head in Hk. simpl in Hk. congruence.
Qed.

Lemma between_frames (q : path) :
  RECORDING_DIR `prefix_of` q → q `prefix_of` FRAMES_DIR →
  q = RECORDING_DIR ∨ q = FRAMES_DIR.
Proof.
  unfold FRAMES_DIR, path_join. intros [k ->] [k' Hk].
  rewrite <- app_assoc in Hk. apply app_inv_head in Hk.
  destruct k as [|x k].
  - left. by rewrite app_nil_r.
  - right. destruct k; simpl in Hk; [|destruct k; discriminate].
    by injection Hk as ->.
Qed.

Lemma FRAMES_DIR_not_RECORDING_DIR : FRAMES_DIR ≠ RECORDING_DIR.
Proof.
  unfold FRAMES_DIR, path_join. intros Heq.
  apply (f_equal length) in Heq. rewrite length_app in Heq. simpl in Heq. lia.
Qed.

End Setup.

(** X9. When the preparation of the output directories returns, the
    screenshot directory and the frame directory exist and are empty, the
    recording directory holds the frame directory and nothing else, and
    nothing below any other entry of the working directory (the baselines,
    the action cache) has changed. *)
Theorem prepareOutputDirs_post `{E : Env} (d d' : fs) :
  no_orphans d SCREENSHOT_DIR →
  no_orphans d RECORDING_DIR →
  prepareOutputDirs d = (Ok tt, d') →
  holds_only d' SCREENSHOT_DIR (λ _, False) ∧
  holds_only d' RECORDING_DIR (eq FRAMES_DIR) ∧
  holds_only d' FRAMES_DIR (λ _, False) ∧
  (∀ (a : string) (q : path),
     a ≠ "screenshots" → a ≠ "recordings" →
     path_resolve [a] `prefix_of` q → d' !! q = d !! q).
Proof.
  intros HoS HoR (d1 & d2 & d3 & d4 & H1 & H2 & H3 & H4 & H5)%prepareOutputDirs_inv.
  assert (SCREENSHOT_DIR ≠ [] ∧ RECORDING_DIR ≠ []) as [HS HR]
    by (split; by apply resolve_not_root).
  assert ("screenshots" ≠ "recordings") as Hsr by done.
  assert ("recordings" ≠ "screenshots") as Hrs by done.
  destruct (reset_round_outside _ _ _ _ H1 H2) as (_ & Hf1 & _).
  destruct (reset_round _ _ _ _ HS HoS H1 H2) as [HSd HSe].
  assert (∀ q, RECORDING_DIR `prefix_of` q → d2 !! q = d !! q) as HR2.
  { intros q Hq. apply Hf1; [by eapply dirs_apart | by eapply dir_not_above]. }
  assert (no_orphans d2 RECORDING_DIR) as HoR2.
  { intros Hnone q Hq. rewrite HR2 in Hnone by done. rewrite HR2 by done.
    by apply HoR. }
  destruct (reset_round_outside _ _ _ _ H3 H4) as (_ & Hf2 & _).
  destruct (reset_round _ _ _ _ HR HoR2 H3 H4) as [HRd HRe].
  assert (∀ (a : string) (q : path), a ≠ "recordings" →
            path_resolve [a] `prefix_of` q → d' !! q = d2 !! q) as Hout.
  { intros a q Ha Hq. rewrite (mkdirp_frame [] FRAMES_DIR d4 _ d' q H5).
    - apply Hf2; [by eapply dirs_apart | by eapply dir_not_above].
    - simpl. by eapply not_above_frames. }
  assert (FRAMES_DIR ≠ []) as HF.
  { unfold FRAMES_DIR, path_join. intros [_ ?]%app_nil. done. }
  split; [|split; [|split]].
  - split.
    + by rewrite (Hout "screenshots").
    + intros q Hq Hne Hk. rewrite (Hout "screenshots"); [by apply HSe|done|done].
  - split.
    + by apply (mkdirp_keeps [] FRAMES_DIR d4 _ d' _ _ H5).
    + intros q Hq Hne Hk.
      rewrite (mkdirp_frame [] FRAMES_DIR d4 _ d' q H5); [apply HRe; tauto|].
      simpl. intros Hq'.
      destruct (between_frames q Hq Hq') as [->| ->]; [by apply Hne|by apply Hk].
  - split.
    + by apply (mkdirp_made FRAMES_DIR [] d4 d').
    + intros q Hq Hne _.
      rewrite (mkdirp_frame [] FRAMES_DIR d4 _ d' q H5).
      * apply HRe; [by etrans; [apply FRAMES_DIR_under|] | | tauto].
        intros ->. apply Hne. apply (anti_symm prefix); [apply FRAMES_DIR_under|done].
      * simpl. intros Hq'. apply Hne. by apply (anti_symm prefix).
  - intros a q Ha1 Ha2 Hq. rewrite (Hout a) by done.
    apply Hf1; [by eapply dirs_apart | by eapply dir_not_above].
Qed.

Lemma prepareOutputDirs_post_witness :
  holds_only (prepareOutputDirs (E := Scripted.env) ScriptedRun.disk_after_run).2
    (SCREENSHOT_DIR (E := Scripted.env)) (λ _, False).
Proof.
  apply (prepareOutputDirs_post (E := Scripted.env) ScriptedRun.disk_after_run
           (prepareOutputDirs (E := Scripted.env) ScriptedRun.disk_after_run).2).
  - intros Hnone. vm_compute in Hnone. discriminate Hnone.
  - intros _ q [k ->].
    unfold ScriptedRun.disk_after_run, Scripted.disk_with_shot, Scripted.disk0.
    rewrite !lookup_insert_ne by (vm_compute; discriminate).
    apply lookup_empty.
  - apply run_eq. vm_compute. reflexivity.
Defined.

(** X10. The preparation of the output directories returns whenever no
    regular file stands in the place of the working directory or of one of
    its ancestors, and the recording directory, if absent, has nothing
    recorded below it. *)
Theorem prepareOutputDirs_returns `{E : Env} (d : fs) :
  (∀ (k : path) (c : list Byte.byte), k `prefix_of` cwd → d !! k ≠ Some (File c)) →
  no_orphans d RECORDING_DIR →
  ∃ d', prepareOutputDirs d = (Ok tt, d').
Proof.
  intros Hfree HoR.
  assert (∀ (a : string) (k : path), k `prefix_of` path_resolve [a] →
            k ≠ path_resolve [a] → k `prefix_of` cwd) as Habove.
  { unfold path_resolve. intros a k [k' Hk] Hne.
    destruct (prefix_weak_total k cwd (cwd ++ [a])) as [?|[k'' Hk'']];
      [by eexists|by apply prefix_app_r|done|].
    rewrite Hk'', <- app_assoc in Hk. apply app_inv_head in Hk.
    destruct k'' as [|x k'']; [rewrite app_nil_r in Hk''; by subst|].
    destruct k''; simpl in Hk; [|destruct k''; discriminate].
    injection Hk as <- _. by subst. }
  assert (∀ (a : string) (k : path), k `prefix_of` cwd →
            ¬ path_resolve [a] `prefix_of` k) as Hbelow.
  { unfold path_resolve. intros a k [k' Hk] [k'' Hk''].
    rewrite Hk'', <- !app_assoc in Hk.
    apply (f_equal length) in Hk. rewrite !length_app in Hk. simpl in Hk. lia. }
  assert (SCREENSHOT_DIR ≠ [] ∧ RECORDING_DIR ≠ []) as [HS HR]
    by (split; by apply resolve_not_root).
  assert ("recordings" ≠ "screenshots") as Hrs by done.
  destruct (reset_round_returns SCREENSHOT_DIR d HS) as (d1 & d2 & H1 & H2).
  { intros k c Hk Hne. apply Hfree. by eapply Habove. }
  destruct (reset_round_outside _ _ _ _ H1 H2) as (_ & Hf1 & Hf1').
  assert (∀ (k : path) (c : list Byte.byte), k `prefix_of` cwd →
            d2 !! k ≠ Some (File c)) as Hfree2.
  { intros k c Hk. destruct (Hf1' k) as [->|[_ ->]];
      [by apply Hbelow|by apply Hfree|done]. }
  assert (no_orphans d2 RECORDING_DIR) as HoR2.
  { assert (∀ q, RECORDING_DIR `prefix_of` q → d2 !! q = d !! q) as HR2.
    { intros q Hq. apply Hf1; [by eapply dirs_apart | by eapply dir_not_above]. }
    intros Hnone q Hq. rewrite HR2 in Hnone by done. rewrite HR2 by done.
    by apply HoR. }
  destruct (reset_round_returns RECORDING_DIR d2 HR) as (d3 & d4 & H3 & H4).
  { intros k c Hk Hne. apply Hfree2. by eapply Habove. }
  destruct (reset_round_outside _ _ _ _ H3 H4) as (_ & _ & Hf2).
  destruct (reset_round _ _ _ _ HR HoR2 H3 H4) as [HRd HRe].
  destruct (mkdirp_returns FRAMES_DIR [] d4) as [d' H5].
  { simpl. intros k c Hk Hp.
    destruct (decide (RECORDING_DIR `prefix_of` k)) as [Hin|Hout].
    - destruct (between_frames k Hin Hp) as [->| ->]; [congruence|].
      rewrite HRe; [done|apply FRAMES_DIR_under|apply FRAMES_DIR_not_RECORDING_DIR|tauto].
    - assert (k `prefix_of` cwd) as Hk'.
      { apply (Habove "recordings").
        - destruct (prefix_weak_total k RECORDING_DIR FRAMES_DIR) as [?|?];
            [done|apply FRAMES_DIR_under|done|done].
        - intros ->. by apply Hout. }
      destruct (Hf2 k Hout) as [->|[_ ->]]; [by apply Hfree2|done]. }
  exists d'. unfold prepareOutputDirs.
  etrans; [apply (bind_Ok_run _ _ d tt d4)|exact H5].
  by rewrite (resetDirs_cons_run _ _ _ _ _ H1 H2), (resetDirs_cons_run _ _ _ _ _ H3 H4).
Qed.

Lemma prepareOutputDirs_returns_witness :
  ∃ d', prepareOutputDirs (E := Scripted.env) ScriptedRun.disk_after_run = (Ok tt, d').
Proof.
  apply (prepareOutputDirs_returns (E := Scripted.env) ScriptedRun.disk_after_run).
  - intros k c [k' Hk]. vm_compute in Hk.
    destruct k as [|x [|y k]]; simpl in Hk; [| |discriminate Hk].
    + vm_compute. discriminate.
    + injection Hk as <- _. vm_compute. discriminate.
  - intros _ q [k ->].
    unfold ScriptedRun.disk_after_run, Scripted.disk_with_shot, Scripted.disk0.
    rewrite !lookup_insert_ne by (vm_compute; discriminate).
    apply lookup_empty.
Defined.

(** ** The report, the video and the teardown *)

Lemma append_length (a s : string) :
  String.length (a +:+ s) = String.length a + String.length s.
Proof.
  induction a as [|c a IH]; [done|]. rewrite append_String. simpl. by rewrite IH.
Qed.

Lemma some_failed (rs : list TestResult) :
  (0 <? length (List.filter (λ r, negb (passed r)) rs)) = negb (forallb passed rs).
Proof.
  induction rs as [|r rs IH]; [done|]. simpl. destruct (passed r); simpl; [done|].
  by destruct (forallb passed rs).
Qed.

Section Report.
Context `{R : Runner}.

Lemma log_each_run (lines : list string) : ∀ s : process,
  log_each lines s =
    (Ok tt, {| world_of := world_of s; stdout := stdout s ++ lines;
               stderr := stderr s; exitCode := exitCode s |}).
Proof.
  induction lines as [|line lines IH]; intros s; simpl.
  - rewrite app_nil_r. by destruct s.
  - erewrite bind_Ok_run; [|reflexivity]. rewrite IH. simpl.
    by rewrite <- app_assoc.
Qed.

(** What [reportResults] prints. *)
Lemma reportResults_run (rs : list TestResult) (s : process) :
  let failed := List.filter (λ r, negb (passed r)) rs in
  reportResults rs s =
    (Ok tt,
     {| world_of := world_of s;
        stdout := stdout s ++
          ["=== Test Results ===" +:+ newline] ++
          concat (map result_lines rs) ++ [""] ++
          (if forallb passed rs then ["All tests passed!"]
           else [pretty (length failed) +:+
                 " test(s) FAILED. Screenshots for failed steps:"] ++
                concat (map failure_lines failed)) ++
          [newline +:+ "All screenshots saved to: " +:+
           path_string SCREENSHOT_DIR +:+ "/"];
        stderr := stderr s;
        exitCode := if forallb passed rs then exitCode s else Some 1 |}).
Proof.
  intros failed. unfold reportResults. fold failed.
  erewrite bind_Ok_run; [|reflexivity].
  erewrite bind_Ok_run; [|apply log_each_run].
  erewrite bind_Ok_run; [|reflexivity].
  rewrite bind_run. unfold failed at 1. rewrite some_failed.
  destruct (forallb passed rs); simpl.
  - unfold console_log. simpl. do 2 f_equal. by rewrite <- !app_assoc.
  - erewrite bind_Ok_run; [|reflexivity].
    erewrite bind_Ok_run; [|apply log_each_run].
    unfold set_exitCode, console_log. simpl. do 2 f_equal.
    by rewrite <- !app_assoc.
Qed.

Lemma result_line_not_banner (r : TestResult) :
  "All tests passed!" ∉ result_lines r.
Proof.
  unfold result_lines. intros [H|[H|H]%elem_of_cons]%elem_of_cons.
  - rewrite !append_String in H. discriminate.
  - rewrite !append_String in H. discriminate.
  - by apply elem_of_nil in H.
Qed.

Lemma failure_line_not_banner (r : TestResult) :
  "All tests passed!" ∉ failure_lines r.
Proof.
  unfold failure_lines. intros [H|[H|H]%elem_of_cons]%elem_of_cons.
  - rewrite !append_String in H. discriminate.
  - rewrite !append_String in H. discriminate.
  - by apply elem_of_nil in H.
Qed.

End Report.

(** X11. The report never fails and touches neither the world nor the error
    stream.  It sets the exit code to 1 when some result failed and leaves
    it as it was otherwise (a code set before is never cleared); it prints
    the line "All tests passed!" exactly when no result failed, and names
    the step and the screenshot of every failed result. *)
Theorem reportResults_verdict `{R : Runner} (rs : list TestResult) (s : process) :
  ∃ (s' : process) (out : list string),
    reportResults rs s = (Ok tt, s') ∧
    world_of s' = world_of s ∧
    stdout s' = stdout s ++ out ∧
    stderr s' = stderr s ∧
    exitCode s' = (if forallb passed rs then exitCode s else Some 1) ∧
    ("All tests passed!" ∈ out ↔ forallb passed rs = true) ∧
    (∀ r line, r ∈ rs → passed r = false → line ∈ failure_lines r → line ∈ out).
Proof.
  eexists _, _. split; [apply reportResults_run|]. simpl.
  repeat split; try done.
  - intros Hin. destruct (forallb passed rs) eqn:Hall; [done|]. exfalso.
    repeat match goal with
    | H : _ ∈ _ :: _ |- _ => apply elem_of_cons in H as [H|H]
    | H : _ ∈ _ ++ _ |- _ => apply elem_of_app in H as [H|H]
    | H : _ ∈ [] |- _ => by apply elem_of_nil in H
    end.
    + rewrite !append_String in Hin. discriminate.
    + apply list_elem_of_In, in_concat in Hin as (l & (r & <- & _)%in_map_iff & Hin).
      by apply list_elem_of_In, result_line_not_banner in Hin.
    + discriminate.
    + apply (f_equal String.length) in Hin. rewrite append_length in Hin.
      simpl in Hin. lia.
    + apply list_elem_of_In, in_concat in Hin as (l & (r & <- & _)%in_map_iff & Hin).
      by apply list_elem_of_In, failure_line_not_banner in Hin.
    + rewrite !append_String in Hin. discriminate.
  - intros ->. repeat (rewrite elem_of_cons || rewrite elem_of_app). auto 10.
  - intros r line Hr Hp Hline.
    assert (forallb passed rs = false) as ->.
    { apply not_true_is_false. intros Hall.
      rewrite forallb_forall in Hall. apply list_elem_of_In in Hr.
      apply Hall in Hr. congruence. }
    repeat (rewrite elem_of_cons || rewrite elem_of_app).
    right. right. right. left. right.
    apply list_elem_of_In, in_concat. exists (failure_lines r).
    split; [|by apply list_elem_of_In].
    apply in_map, filter_In. split; [by apply list_elem_of_In|].
    by rewrite Hp.
Qed.

Section Video.
Context `{R : Runner}.

Lemma liftW_run {A} (m : M A) (s : process) :
  liftW m s =
    ((m (world_of s)).1,
     {| world_of := (m (world_of s)).2; stdout := stdout s; stderr := stderr s;
        exitCode := exitCode s |}).
Proof. unfold liftW. by destruct (m (world_of s)). Qed.

End Video.

(** X12. [framesToVideo] never throws.  It returns the path of the video
    exactly when ffmpeg succeeded and the frame directory was still there
    to be removed, and then nothing is left at or below the frame
    directory; in every other case it returns null, leaves the disk as
    ffmpeg left it and writes one line to the error stream, also when the
    video itself had been written. *)
Theorem framesToVideo_outcome `{R : Runner} (framesDir outputDir : path)
    (rate : nat) (s : process) :
  let outputPath := path_join outputDir "test-recording.mp4" in
  let encoded := ffmpeg rate (path_join framesDir "frame-%05d.png") outputPath
                   (disk (world_of s)) in
  ∃ (r : option path) (s' : process),
    framesToVideo framesDir outputDir rate s = (Ok r, s') ∧
    stdout s' = stdout s ∧ exitCode s' = exitCode s ∧
    ((r = Some outputPath ∧
      encoded.2 = true ∧ is_Some (encoded.1 !! framesDir) ∧
      stderr s' = stderr s ∧
      (∀ q, framesDir `prefix_of` q → disk (world_of s') !! q = None) ∧
      (∀ q, ¬ framesDir `prefix_of` q → disk (world_of s') !! q = encoded.1 !! q))
     ∨
     (r = None ∧
      (encoded.2 = false ∨ encoded.1 !! framesDir = None) ∧
      disk (world_of s') = encoded.1 ∧
      stderr s' = stderr s ++
        ["  ffmpeg conversion failed. Raw frames kept in: " +:+
         path_string framesDir])).
Proof.
  intros outputPath encoded. unfold framesToVideo, try_catch.
  fold outputPath. rewrite bind_run. fold encoded.
  destruct encoded as [d ok] eqn:Henc. destruct ok; simpl.
  - rewrite bind_run, liftW_run. unfold liftFs. simpl.
    destruct (Fs.rmSync_recursive framesDir d) as [o d'] eqn:Hrm. simpl.
    pose proof (halts_rmSync framesDir d) as Hhalt. rewrite Hrm in Hhalt.
    destruct o as [[]| |]; simpl; [| |done].
    + eexists _, _. split; [done|]. simpl. split; [done|]. split; [done|]. left.
      split; [done|]. split; [done|]. split.
      { unfold Fs.rmSync_recursive in Hrm. by destruct (d !! framesDir). }
      split; [done|]. split.
      * intros q Hq. by eapply rm_gone.
      * intros q Hq. by eapply rm_frame.
    + eexists _, _. split; [reflexivity|]. simpl. split; [done|]. split; [done|].
      right. split; [done|]. split.
      { right. unfold Fs.rmSync_recursive in Hrm. by destruct (d !! framesDir). }
      split; [|done].
      unfold Fs.rmSync_recursive in Hrm. destruct (d !! framesDir); by simplify_eq.
  - eexists _, _. split; [reflexivity|]. simpl. split; [done|]. split; [done|].
    right. split; [done|]. split; [by left|]. done.
Qed.

(** What [framesToVideo] leaves alone. *)
Lemma framesToVideo_rest `{R : Runner} (framesDir outputDir : path)
    (rate : nat) (s : process) :
  ∃ (r : option path) (s' : process),
    framesToVideo framesDir outputDir rate s = (Ok r, s') ∧
    exitCode s' = exitCode s ∧
    results (world_of s') = results (world_of s) ∧
    browser (world_of s') = browser (world_of s) ∧
    stdout s' = stdout s.
Proof.
  unfold framesToVideo, try_catch. rewrite bind_run.
  destruct (ffmpeg _ _ _ _) as [d ok]. destruct ok; simpl.
  - rewrite bind_run, liftW_run. unfold liftFs. simpl.
    destruct (Fs.rmSync_recursive framesDir d) as [o d'] eqn:Hrm. simpl.
    pose proof (halts_rmSync framesDir d) as Hhalt. rewrite Hrm in Hhalt.
    destruct o as [[]| |]; simpl; [| |done]; by eexists _, _.
  - by eexists _, _.
Qed.

Lemma teardownTestEnv_run `{R : Runner} (rs : list TestResult) (s : process) :
  let stopped := recorder_stop (browser (world_of s)) in
  let closed := stagehand_close stopped.1 in
  ∃ s' : process,
    teardownTestEnv rs s = (if closed.2 then Ok tt else Throw, s') ∧
    exitCode s' = (if forallb passed rs then exitCode s else Some 1) ∧
    results (world_of s') = results (world_of s) ∧
    browser (world_of s') = closed.1 ∧
    (closed.2 = false ∨ stopped.2 = 0 → disk (world_of s') = disk (world_of s)) ∧
    ("=== Test Results ===" +:+ newline) ∈ stdout s'.
Proof.
  simpl. destruct (recorder_stop (browser (world_of s))) as [b n] eqn:Hstop.
  simpl. destruct (stagehand_close b) as [b' ok] eqn:Hclose. simpl.
  unfold teardownTestEnv.
  erewrite bind_Ok_run; [|apply reportResults_run].
  rewrite bind_run. unfold recorder_stop_P at 1. simpl. rewrite Hstop.
  erewrite bind_Ok_run; [|reflexivity].
  rewrite bind_run. unfold stagehand_close_P at 1. simpl. rewrite Hclose.
  assert (∀ (pre post : list string) (line : string),
            line ∈ (pre ++ line :: post)) as Hin.
  { intros pre post line. apply elem_of_app. right. by left. }
  destruct ok; simpl.
  - destruct n as [|n]; simpl.
    + eexists. split; [reflexivity|]. simpl. repeat split; try done.
      rewrite <- app_assoc. apply Hin.
    + erewrite bind_Ok_run; [|reflexivity]. rewrite bind_run.
      match goal with |- context [framesToVideo ?f ?o ?r ?s0] =>
        destruct (framesToVideo_rest f o r s0) as (v & s1 & -> & Hcode & Hres & Hb & Hout)
      end.
      simpl in Hcode, Hres, Hb, Hout.
      destruct v as [v|]; simpl; eexists; (split; [reflexivity|]); simpl;
        rewrite Hcode, Hres, Hb, Hout;
        (split; [done|]); (split; [done|]); (split; [done|]);
        (split; [by intros [?|?]|]);
        rewrite <- ?app_assoc; apply Hin.
  - eexists. split; [reflexivity|]. simpl. repeat split; try done.
    rewrite <- app_assoc. apply Hin.
Qed.

(** X13. [teardownTestEnv] throws exactly when closing the browser fails.
    The exit code is 1 when some result failed and is otherwise left as it
    was; the results are not touched; and no video is encoded (the disk
    stays as it was) when closing failed or when no frame was captured. *)
Theorem teardownTestEnv_outcome `{R : Runner} (rs : list TestResult) (s : process) :
  let stopped := recorder_stop (browser (world_of s)) in
  let closed := stagehand_close stopped.1 in
  ∃ s' : process,
    teardownTestEnv rs s = (if closed.2 then Ok tt else Throw, s') ∧
    exitCode s' = (if forallb passed rs then exitCode s else Some 1) ∧
    results (world_of s') = results (world_of s) ∧
    browser (world_of s') = closed.1 ∧
    (closed.2 = false ∨ stopped.2 = 0 → disk (world_of s') = disk (world_of s)).
Proof.
  destruct (teardownTestEnv_run rs s) as (s' & ? & ? & ? & ? & ? & _).
  by exists s'.
Qed.

(** ** The results of a run *)

Section RunSteps.
Context `{R : Runner}.
Variable ctx : TestContext.

Lemma steps_bind {A} (names : list string) (m : M A) (f : A → M unit) :
  framed (λ _, True) (λ _, True) m → halts m →
  (∀ a, steps names (f a)) → steps names (m ≫= f).
Proof.
  intros Hm Hh Hf w o w' [(om & Hr & Hs)|(a & w1 & Hr & Hk)]%bind_cases.
  - pose proof (Hh w) as Hoof. rewrite Hr in Hoof. simpl in Hoof.
    destruct Hs as [[-> ->]|[-> ->]]; [|done]. split; [done|].
    exists []. rewrite app_nil_r. split; [by destruct (Hm _ _ _ Hr)|].
    split; [apply prefix_nil|done].
  - destruct (Hf a _ _ _ Hk) as (Hoof & rs & Hres & Hpre & Hall).
    split; [done|]. exists rs. split; [|done].
    rewrite Hres. by destruct (Hm _ _ _ Hr) as [-> _ _].
Qed.

Lemma steps_push (r : TestResult) : steps [step r] (results_push r).
Proof.
  intros w o w' Hr. unfold results_push in Hr. simplify_eq. split; [done|].
  by exists [r].
Qed.

Lemma steps_seq (a : string) (names : list string) (m k : M unit) :
  steps [a] m → steps names k → steps (a :: names) (m;; k).
Proof.
  intros Hm Hk w o w' [(om & Hr & Hs)|([] & w1 & Hr & Hk')]%bind_cases.
  - destruct (Hm _ _ _ Hr) as (Hoof & rs & Hres & Hpre & Hall).
    destruct Hs as [[-> ->]|[-> ->]]; [|done]. split; [done|].
    exists rs. split; [done|]. split; [|done].
    etrans; [done|]. by apply prefix_cons, prefix_nil.
  - destruct (Hm _ _ _ Hr) as (_ & rs1 & Hres1 & _ & Hall1).
    destruct (Hk _ _ _ Hk') as (Hoof & rs2 & Hres2 & Hpre2 & Hall2).
    split; [done|]. exists (rs1 ++ rs2).
    rewrite Hres2, Hres1, <- app_assoc, map_app, Hall1 by done.
    split; [done|]. split; [by apply prefix_cons|].
    intros Ho. simpl. by rewrite Hall2.
Qed.

Lemma quiet_ctx_screenshot name target :
  framed (λ _, True) (λ _, True) (ctx_screenshot ctx name target).
Proof.
  unfold ctx_screenshot, createScreenshotHelper.
  apply framed_bind; [|intros _; apply framed_ret].
  apply framed_try_catch; by apply framed_page_screenshot.
Qed.

Lemma test1_steps : steps [test1_step] (test1 ctx).
Proof.
  unfold test1.
  apply steps_bind; [by apply framed_call|apply halts_call|]. intros _.
  apply steps_bind; [by apply framed_call|apply halts_call|]. intros _.
  apply steps_bind; [apply quiet_ctx_screenshot|apply halts_ctx_screenshot|].
  intros ss. apply (steps_push {| step := test1_step |}).
Qed.

Lemma test2_steps : steps [test2_step] (test2 ctx).
Proof.
  unfold test2. apply steps_bind.
  - apply framed_silent. intros w. unfold extract_profile_M.
    by destruct (extract_profile _ _) as [b [v|]].
  - intros w. unfold extract_profile_M. by destruct (extract_profile _ _) as [b [v|]].
  - intros profile.
    apply steps_bind; [apply quiet_ctx_screenshot|apply halts_ctx_screenshot|].
    intros ss. apply (steps_push {| step := test2_step |}).
Qed.

Lemma test3_steps : steps [test3_step] (test3 ctx).
Proof.
  unfold test3. apply steps_bind.
  - apply framed_silent. intros w. unfold extract_books_M.
    by destruct (extract_books _ _) as [b [v|]].
  - intros w. unfold extract_books_M. by destruct (extract_books _ _) as [b [v|]].
  - intros books.
    apply steps_bind; [apply quiet_ctx_screenshot|apply halts_ctx_screenshot|].
    intros ss. apply (steps_push {| step := test3_step |}).
Qed.

Lemma test4_steps : steps [test4_step] (test4 ctx).
Proof.
  unfold test4. apply steps_bind.
  - apply framed_silent. intros w. unfold observe_M.
    by destruct (observe _ _) as [b [v|]].
  - intros w. unfold observe_M. by destruct (observe _ _) as [b [v|]].
  - intros actions.
    apply steps_bind; [apply quiet_ctx_screenshot|apply halts_ctx_screenshot|].
    intros ss. apply (steps_push {| step := test4_step |}).
Qed.

End RunSteps.

Section Test5Results.
Context `{E : Env}.
Variable ctx : TestContext.

Lemma recordOutcome_results att w o w' :
  recordOutcome att w = (o, w') →
  (o = Throw ∧ results w' = results w) ∨
  (∃ r, results w' = results w ++ [r] ∧ step r = test5_step ∧
        passed r = success att ∧ screenshot r = newTabPath ∧
        (o = Throw → passed r = true)).
Proof.
  unfold recordOutcome. destruct (success att) eqn:Hs.
  - destruct (githubPage att) as [g|].
    + rewrite bind_run. simpl. rewrite bind_run. simpl. rewrite bind_run.
      unfold liftFs. simpl.
      destruct (saveBaseline _ _ _ _) as [o1 d1] eqn:Hsave. simpl.
      pose proof (halts_saveBaseline comparisonSsPath "05a-before-click"
                    BASELINES_DIR (disk w)) as Hh.
      rewrite Hsave in Hh. simpl in Hh.
      destruct o1 as [p| |]; [| |done]; intros [= <- <-]; right;
        (eexists; split; [simpl; reflexivity|]); by simpl.
    + rewrite bind_run. simpl. intros Hr; simplify_eq. by left.
  - intros Hr. unfold results_push in Hr. simplify_eq. right.
    (eexists; split; [simpl; reflexivity|]); by simpl.
Qed.

Lemma test5_results w o w' :
  test5 ctx w = (o, w') →
  o ≠ OutOfFuel ∧
  ((o = Throw ∧ results w' = results w) ∨
   (∃ r, results w' = results w ++ [r] ∧ step r = test5_step ∧
         (o = Throw → passed r = true))).
Proof.
  intros Hrun. split.
  { pose proof (halts_test5 ctx w) as Hh. by rewrite Hrun in Hh. }
  assert (o ≠ OutOfFuel) as Hoof.
  { pose proof (halts_test5 ctx w) as Hh. by rewrite Hrun in Hh. }
  assert (∀ {A} (om : outcome A), stuck om o → o = Throw) as Hstuck.
  { intros A om [[_ ?]|[_ ?]]; [done|by subst]. }
  apply test5_cases in Hrun as [(oc & Hv & Hs)|(c & w1 & Hv & Hrest)].
  - left. split; [by eapply Hstuck|]. by destruct (framed_visualCheck ctx _ _ _ Hv).
  - destruct (framed_visualCheck ctx _ _ _ Hv) as [Rv _ _].
    destruct Hrest as [[_ Hpush]|[_ Hrest]].
    + unfold results_push in Hpush. simplify_eq. right.
      eexists. simpl. rewrite Rv. by split; [reflexivity|].
    + destruct Hrest as [(oa & Ha & Hs)|(att & w2 & Ha & Hrest)].
      * left. split; [by eapply Hstuck|].
        destruct (framed_attemptWithSelfHeal ctx _ _ _ Ha) as [-> _ _]. done.
      * destruct (framed_attemptWithSelfHeal ctx _ _ _ Ha) as [Ra _ _].
        destruct Hrest as [(ok & Hc & Hs)|(w3 & Hc & Hrec)].
        -- left. split; [by eapply Hstuck|].
           destruct (framed_captureNewTab ctx _ _ _ _ Hc) as [-> _ _]. congruence.
        -- destruct (framed_captureNewTab ctx _ _ _ _ Hc) as [Rc _ _].
           apply recordOutcome_results in Hrec as [[-> Hres]|(r & Hres & Hstep & _ & _ & Hthrow)].
           ++ left. split; [done|]. congruence.
           ++ right. exists r. split; [|done]. rewrite Hres. congruence.
Qed.

Lemma test5_steps : steps [test5_step] (test5 ctx).
Proof.
  intros w o w' (Hoof & [[-> Hres]|(r & Hres & Hstep & _)])%test5_results.
  - split; [done|]. exists []. rewrite app_nil_r. split; [done|].
    split; [apply prefix_nil|done].
  - split; [done|]. exists [r]. split; [done|]. simpl. rewrite Hstep. done.
Qed.

End Test5Results.

(** X14. Test 5 records exactly one result when it returns and at most one
    when it throws, always under its own step name; when it throws after
    having recorded a result, that result is a pass (only saving the
    baseline comes after it). *)
Theorem test5_records_once `{E : Env} (ctx : TestContext) (w w' : world)
    (o : outcome unit) :
  test5 ctx w = (o, w') →
  o ≠ OutOfFuel ∧
  ((o = Throw ∧ results w' = results w) ∨
   (∃ r, results w' = results w ++ [r] ∧ step r = test5_step ∧
         (o = Throw → passed r = true))).
Proof. apply test5_results. Qed.

Lemma test5_records_once_witness :
  ∃ r, results (test5 Scripted.ctx Scripted.first_run_pass).2
       = results Scripted.first_run_pass ++ [r] ∧
       step r = test5_step.
Proof.
  destruct (test5_records_once Scripted.ctx Scripted.first_run_pass
              (test5 Scripted.ctx Scripted.first_run_pass).2 (Ok tt))
    as [_ [[Hthrow _]|(r & Hres & Hstep & _)]].
  - apply run_eq. vm_compute. reflexivity.
  - discriminate Hthrow.
  - exists r. split; [exact Hres | exact Hstep].
Defined.

Section MainRun.
Context `{R : Runner}.
Variable ctx : TestContext.

Lemma main_try_steps : steps all_steps (main_try ctx).
Proof.
  unfold main_try, all_steps.
  apply steps_seq; [apply test1_steps|].
  apply steps_seq; [apply test2_steps|].
  apply steps_seq; [apply test3_steps|].
  apply steps_seq; [apply test4_steps|].
  apply test5_steps.
Qed.

Lemma main_catch_run (s : process) :
  ∃ s', main_catch ctx s = (Ok tt, s') ∧
        results (world_of s') = results (world_of s) ∧
        stdout s' = stdout s ∧
        exitCode s' = Some 1.
Proof.
  unfold main_catch. rewrite bind_run. unfold try_ignore at 1.
  rewrite bind_run, liftW_run.
  destruct (page_screenshot _ _ _ (world_of s)) as [o1 w1] eqn:Hshot.
  assert (results w1 = results (world_of s)) as Hres.
  { by destruct (framed_page_screenshot (λ _, True) (λ _, True) _ _ _ I I _ _ _ Hshot). }
  pose proof (halts_page_screenshot (page ctx)
                (path_join SCREENSHOT_DIR "error-crash.png") true (world_of s)) as Hh.
  rewrite Hshot in Hh. simpl in *.
  destruct o1 as [[]| |]; [| |done]; simpl; by eexists.
Qed.

(** The [try] and the [catch] of [main]. *)
Lemma try_catch_run (s : process) :
  let r1 := main_try ctx (world_of s) in
  ∃ s1, try_catch (liftW (main_try ctx)) (main_catch ctx) s = (Ok tt, s1) ∧
        results (world_of s1) = results r1.2 ∧
        stdout s1 = stdout s ∧
        exitCode s1 = (match r1.1 with Ok _ => exitCode s | _ => Some 1 end).
Proof.
  simpl. unfold try_catch. rewrite liftW_run.
  destruct (main_try ctx (world_of s)) as [o1 w1] eqn:Htry. simpl.
  destruct (main_try_steps _ _ _ Htry) as [Hoof _].
  destruct o1 as [[]| |]; [by eexists| |done].
  destruct (main_catch_run
              {| world_of := w1; stdout := stdout s; stderr := stderr s;
                 exitCode := exitCode s |}) as (s1 & -> & ? & ? & ?).
  by exists s1.
Qed.

Lemma main_run (s : process) :
  let r1 := main_try ctx (world_of s) in
  ∃ s1 s2,
    try_catch (liftW (main_try ctx)) (main_catch ctx) s = (Ok tt, s1) ∧
    results (world_of s1) = results r1.2 ∧
    stdout s1 = stdout s ∧
    exitCode s1 = (match r1.1 with Ok _ => exitCode s | _ => Some 1 end) ∧
    main ctx s =
      (if (stagehand_close (recorder_stop (browser (world_of s1))).1).2
       then Ok tt else Throw, s2) ∧
    results (world_of s2) = results (world_of s1) ∧
    exitCode s2 = (if forallb passed (results (world_of s1)) then exitCode s1
                   else Some 1) ∧
    ("=== Test Results ===" +:+ newline) ∈ stdout s2.
Proof.
  simpl. destruct (try_catch_run s) as (s1 & Htc & Hres & Hout & Hcode).
  destruct (teardownTestEnv_run (results (world_of s1)) s1)
    as (s2 & Htd & Hcode2 & Hres2 & _ & _ & Hhead).
  exists s1, s2. repeat (split; [done|]).
  split; [|done]. unfold main, try_finally. rewrite Htc, Htd.
  by destruct (stagehand_close _).2.
Qed.

End MainRun.

(** X15. An exception thrown by a test never escapes [main]: whatever the
    tests do, the report is printed, and [main] returns unless closing the
    browser fails in the teardown, in which case it throws. *)
Theorem main_outcome `{R : Runner} (ctx : TestContext) (s : process) :
  let s1 := (try_catch (liftW (main_try ctx)) (main_catch ctx) s).2 in
  (main ctx s).1 =
    (if (stagehand_close (recorder_stop (browser (world_of s1))).1).2
     then Ok tt else Throw) ∧
  ("=== Test Results ===" +:+ newline) ∈ stdout (main ctx s).2.
Proof.
  destruct (main_run ctx s) as (s1 & s2 & Htc & _ & _ & _ & Hmain & _ & _ & Hhead).
  simpl. by rewrite Htc, Hmain.
Qed.

(** X16. After [main] the exit code is what it was before exactly when the
    [try] block returned and every recorded result passed; in every other
    case (an exception in a test, or a failed result) it is 1. *)
Theorem main_exit_code `{R : Runner} (ctx : TestContext) (s : process) :
  exitCode (main ctx s).2 =
    match (main_try ctx (world_of s)).1 with
    | Ok _ =>
        if forallb passed (results (world_of (main ctx s).2)) then exitCode s
        else Some 1
    | _ => Some 1
    end.
Proof.
  destruct (main_run ctx s)
    as (s1 & s2 & _ & Hres & _ & Hcode & Hmain & Hres2 & Hcode2 & _).
  rewrite Hmain. simpl. rewrite Hcode2, Hres2, Hcode.
  destruct (main_try ctx (world_of s)).1; by destruct (forallb _ _).
Qed.

(** X17. The results [main] reports are, in order, those of a prefix of the
    five steps, one result per step, and of all five when the [try] block
    returned. *)
Theorem main_results `{R : Runner} (ctx : TestContext) (s : process) :
  ∃ rs : list TestResult,
    results (world_of (main ctx s).2) = results (world_of s) ++ rs ∧
    map step rs `prefix_of` all_steps ∧
    ((main_try ctx (world_of s)).1 = Ok tt → map step rs = all_steps).
Proof.
  destruct (main_run ctx s)
    as (s1 & s2 & _ & Hres & _ & _ & Hmain & Hres2 & _ & _).
  rewrite Hmain. simpl. rewrite Hres2, Hres.
  destruct (main_try ctx (world_of s)) as [o1 w1] eqn:Htry.
  destruct (main_try_steps ctx _ _ _ Htry) as (_ & rs & ? & ? & ?).
  by exists rs.
Qed.

(** ** More on the attempts of Test 5 *)

Section Attempts.
Context `{E : Env}.
Variable ctx : TestContext.

Lemma pollNewPage_run fuel : ∀ deadline pagesBefore w o w',
  pollNewPage fuel deadline pagesBefore w = (o, w') →
  o ≠ Throw ∧ disk w' = disk w ∧ results w' = results w ∧ log w' = log w ∧
  now (browser w) ≤ now (browser w') ∧
  (o = Ok tt →
   pagesBefore < length (pages (browser w')) ∨ deadline ≤ now (browser w')).
Proof.
  induction fuel as [|fuel IH]; intros deadline pagesBefore w o w'; simpl.
  - unfold diverge. intros [= <- <-]. repeat split; by try done.
  - rewrite bind_run. unfold Date_now at 1. simpl.
    destruct (now (browser w) <? deadline) eqn:Ht.
    + rewrite bind_run. unfold context_pages at 1. simpl.
      destruct (pagesBefore <? length (pages (browser w))) eqn:Hn.
      * intros [= <- <-]. repeat split; try done.
        intros _. left. by apply Nat.ltb_lt.
      * rewrite bind_run. unfold setTimeout at 1. simpl.
        intros (Ho & Hd & Hr & Hl & Hnow & Hpost)%IH. simpl in *.
        repeat split; try done.
        pose proof (sleep_advances 300 (browser w)). lia.
    + intros [= <- <-]. repeat split; try done.
      intros _. right. by apply Nat.ltb_ge.
Qed.

Lemma closeEach_log l : ∀ w,
  ∃ w', closeEach l w = (Ok tt, w') ∧ log w' = log w ++ map EvClose l.
Proof.
  induction l as [|ep l IH]; intros w; simpl.
  - eexists. split; [done|]. by rewrite app_nil_r.
  - destruct (try_ignore (page_close ep) w) as [o1 w1] eqn:H1.
    assert (o1 = Ok tt ∧ log w1 = log w ++ [EvClose ep]) as [-> Hl].
    { revert H1. unfold try_ignore, page_close, call.
      destruct (close ep (browser w)) as [b []]; intros; by simplify_eq. }
    destruct (IH w1) as (w' & Hr & Hl'). exists w'.
    split; [by erewrite bind_Ok_run|]. rewrite Hl', Hl, <- app_assoc. done.
Qed.

Lemma liftFs_log {A} (m : SE fs A) w (o : outcome A) w' :
  liftFs m w = (o, w') → log w' = log w.
Proof. unfold liftFs. destruct (m (disk w)). by intros [= <- <-]. Qed.

Lemma clear_cache_log (found : bool) w (o : outcome unit) w' :
  (if found then liftFs (Fs.rmSync_recursive cacheDir);;
                 liftFs (Fs.mkdirSync_recursive cacheDir)
   else mret tt) w = (o, w') →
  log w' = log w.
Proof.
  destruct found; [|by intros [= <- <-]].
  intros [(om & Hr & _)|([] & w1 & Hr & Hk)]%bind_cases.
  - by eapply liftFs_log.
  - apply liftFs_log in Hr, Hk. congruence.
Qed.

Lemma selfHeal_log att w o w' :
  selfHeal ctx att w = (o, w') →
  o ≠ OutOfFuel ∧
  ∃ l, log w' = log w ++
         map EvClose (filter (λ p, p ≠ page ctx) (allPages att)) ++ l ∧
       l `prefix_of` [EvGoto (page ctx) "https://cfe.jp/";
                      EvWaitForLoadState (page ctx) "networkidle"] ∧
       (o = Ok tt → l = [EvGoto (page ctx) "https://cfe.jp/";
                         EvWaitForLoadState (page ctx) "networkidle"]).
Proof.
  intros Hrun. split.
  { pose proof (halts_selfHeal ctx att w) as Hh. by rewrite Hrun in Hh. }
  revert Hrun. unfold selfHeal.
  destruct (closeEach_log (filter (λ p, p ≠ page ctx) (allPages att)) w)
    as (w1 & Hclose & Hl1).
  erewrite bind_Ok_run; [|done].
  erewrite bind_Ok_run; [|reflexivity].
  intros [(om & Hr & Hs)|([] & w2 & Hr & Hk)]%bind_cases.
  - exists []. rewrite app_nil_r. split; [|split; [apply prefix_nil|]].
    + rewrite <- Hl1. by apply clear_cache_log in Hr.
    + intros ->. by destruct Hs as [[? ?]|[? ?]].
  - assert (log w2 = log w1) as Hl2.
    { by apply clear_cache_log in Hr. }
    revert Hk. rewrite bind_run. unfold page_goto at 1, call at 1.
    destruct (goto _ _ _) as [b1 ok1]. destruct ok1; simpl.
    + unfold page_waitForLoadState, call. simpl.
      destruct (waitForLoadState _ _ _) as [b2 ok2].
      intros [= <- <-]. simpl. eexists. rewrite Hl2, Hl1, <- !app_assoc. simpl.
      split; [reflexivity|]. done.
    + intros [= <- <-]. simpl. eexists. rewrite Hl2, Hl1, <- !app_assoc.
      split; [reflexivity|]. split; [|done]. by apply prefix_cons, prefix_nil.
Qed.

End Attempts.

(** X18. Waiting for the new tab never throws and changes neither the disk,
    the results nor the log of browser calls; the clock only moves forward;
    and when the wait returns, a page beyond those that were open before is
    there or the deadline has passed. *)
Theorem pollNewPage_post `{E : Env} (fuel deadline pagesBefore : nat)
    (w w' : world) (o : outcome unit) :
  pollNewPage fuel deadline pagesBefore w = (o, w') →
  o ≠ Throw ∧ disk w' = disk w ∧ results w' = results w ∧ log w' = log w ∧
  now (browser w) ≤ now (browser w') ∧
  (o = Ok tt →
   pagesBefore < length (pages (browser w')) ∨ deadline ≤ now (browser w')).
Proof. apply pollNewPage_run. Qed.

Lemma pollNewPage_post_witness :
  1 < length (pages (browser (pollNewPage (E := Scripted.env) 18 5000 1
                                Scripted.first_run_pass).2))
  ∨ 5000 ≤ now (browser (pollNewPage (E := Scripted.env) 18 5000 1
                            Scripted.first_run_pass).2).
Proof.
  destruct (pollNewPage_post (E := Scripted.env) 18 5000 1 Scripted.first_run_pass
              (pollNewPage (E := Scripted.env) 18 5000 1 Scripted.first_run_pass).2
              (Ok tt))
    as (_ & _ & _ & _ & _ & Hpost).
  - apply run_eq. vm_compute. reflexivity.
  - exact (Hpost eq_refl).
Defined.

(** X19. Self-heal closes every page of the failed attempt other than the
    original page, each once and in order, and only then navigates: the
    browser calls it adds are these closes followed by a prefix of
    [goto "https://cfe.jp/"; waitForLoadState "networkidle"] on the
    original page, by both when it returns.  The original page is never
    closed. *)
Theorem selfHeal_closes_extra_pages `{E : Env} (ctx : TestContext) (att : attempt)
    (w w' : world) (o : outcome unit) :
  selfHeal ctx att w = (o, w') →
  ∃ l, log w' = log w ++
         map EvClose (filter (λ p, p ≠ page ctx) (allPages att)) ++ l ∧
       l `prefix_of` [EvGoto (page ctx) "https://cfe.jp/";
                      EvWaitForLoadState (page ctx) "networkidle"] ∧
       (o = Ok tt → l = [EvGoto (page ctx) "https://cfe.jp/";
                         EvWaitForLoadState (page ctx) "networkidle"]) ∧
       EvClose (page ctx) ∉
         map EvClose (filter (λ p, p ≠ page ctx) (allPages att)) ++ l.
Proof.
  intros (_ & l & Hlog & Hpre & Hall)%selfHeal_log. exists l.
  repeat (split; [done|]).
  intros [Hin|Hin]%elem_of_app.
  - apply list_elem_of_In, in_map_iff in Hin as (p & [= ->] & Hp).
    apply list_elem_of_In, list_elem_of_filter in Hp as [Hne _]. by apply Hne.
  - destruct Hpre as [k Hk]. 
    assert (EvClose (page ctx) ∈ l ++ k) as Hin' by (apply elem_of_app; by left).
    rewrite <- Hk in Hin'.
    apply elem_of_cons in Hin' as [?|Hin']; [done|].
    apply elem_of_cons in Hin' as [?|Hin']; [done|].
    by apply elem_of_nil in Hin'.
Qed.

Lemma selfHeal_closes_extra_pages_witness :
  ∃ l, log (selfHeal Scripted.ctx Scripted.wrong_new_tab
              (actAndAssert Scripted.ctx Scripted.always_wrong).2).2
       = log (actAndAssert Scripted.ctx Scripted.always_wrong).2 ++
         map EvClose (filter (λ p, p ≠ page Scripted.ctx)
                        (allPages Scripted.wrong_new_tab)) ++ l ∧
       l `prefix_of` [EvGoto (page Scripted.ctx) "https://cfe.jp/";
                      EvWaitForLoadState (page Scripted.ctx) "networkidle"] ∧
       (Ok tt = Ok tt → l = [EvGoto (page Scripted.ctx) "https://cfe.jp/";
                            EvWaitForLoadState (page Scripted.ctx) "networkidle"]) ∧
       EvClose (page Scripted.ctx) ∉
         map EvClose (filter (λ p, p ≠ page Scripted.ctx)
                        (allPages Scripted.wrong_new_tab)) ++ l.
Proof.
  apply (selfHeal_closes_extra_pages Scripted.ctx Scripted.wrong_new_tab
           (actAndAssert Scripted.ctx Scripted.always_wrong).2
           (selfHeal Scripted.ctx Scripted.wrong_new_tab
              (actAndAssert Scripted.ctx Scripted.always_wrong).2).2
           (Ok tt)).
  apply run_eq. vm_compute. reflexivity.
Defined.

(** ** When Test 5 clicks *)

Section Clicks.
Context `{E : Env}.
Variable ctx : TestContext.

Lemma frame_count (S : path → Prop) (L : event → Prop) w w' :
  frame S L w w' → count_acts (log w) ≤ count_acts (log w').
Proof. intros [_ (l & -> & _) _]. rewrite count_acts_app. lia. Qed.

Lemma attemptWithSelfHeal_clicks w o w' :
  attemptWithSelfHeal ctx w = (o, w') →
  count_acts (log w) < count_acts (log w').
Proof.
  unfold attemptWithSelfHeal.
  intros [(om & Hr & _)|(att & w1 & Hr & Hk)]%bind_cases.
  - apply actAndAssert_spec in Hr as (_ & -> & _). rewrite count_acts_app.
    simpl. unfold count_acts. simpl. lia.
  - apply actAndAssert_spec in Hr as (_ & Hl & _).
    assert (count_acts (log w1) ≤ count_acts (log w')) as Hle.
    { destruct (negb (success att)).
      - assert (framed near_cache attempt_event
                  (selfHeal ctx att;; actAndAssert ctx)) as Hf.
        { apply framed_bind.
          - eapply framed_mono; [| |apply framed_selfHeal]; [done|by right].
          - intros ?. apply framed_actAndAssert; [by left|by left]. }
        eapply frame_count, Hf, Hk.
      - by injection Hk as _ <-. }
    rewrite Hl, count_acts_app in Hle. unfold count_acts in Hle at 2.
    simpl in Hle. lia.
Qed.

Lemma recordOutcome_log att w o w' :
  recordOutcome att w = (o, w') → log w' = log w.
Proof.
  unfold recordOutcome. destruct (success att).
  - destruct (githubPage att) as [g|].
    + rewrite bind_run. simpl. rewrite bind_run. simpl. rewrite bind_run.
      unfold liftFs. simpl.
      destruct (saveBaseline _ _ _ _) as [[p| |] d1]; by intros [= <- <-].
    + rewrite bind_run. simpl. by intros [= <- <-].
  - unfold results_push. by intros [= <- <-].
Qed.

Lemma pageVisuallyBroken_false (c : comparison) :
  pageVisuallyBroken c = false ↔
  skipped c = true ∨ (mismatchRatio c <= VISUAL_DIFF_THRESHOLD)%Q.
Proof.
  unfold pageVisuallyBroken, Qgtb. destruct (skipped c).
  - split; [by left|done].
  - rewrite negb_false_iff, Qle_bool_iff. split; [by right|by intros [?|?]].
Qed.

Lemma test5_clicks w o w' :
  test5 ctx w = (o, w') →
  (count_acts (log w) < count_acts (log w') ↔
   ∃ c w1, visualCheck ctx w = (Ok c, w1) ∧ pageVisuallyBroken c = false).
Proof.
  intros Hrun.
  assert (∀ oc w1, visualCheck ctx w = (oc, w1) →
            count_acts (log w1) = count_acts (log w)) as Hv.
  { intros oc w1 Hv. destruct (framed_visualCheck ctx _ _ _ Hv) as [_ (l & -> & Hl) _].
    rewrite count_acts_app, (count_acts_none l); [lia|].
    eapply Forall_impl; [done|]. by intros e <-. }
  apply test5_cases in Hrun as [(oc & Hvis & Hs)|(c & w1 & Hvis & Hrest)].
  - split.
    + rewrite (Hv _ _ Hvis). lia.
    + intros (c & w1 & Hvis' & _). rewrite Hvis in Hvis'.
      injection Hvis' as -> _. by destruct Hs as [[? ?]|[? ?]].
  - destruct Hrest as [[Hb Hpush]|[Hb Hrest]].
    + split.
      * unfold results_push in Hpush. injection Hpush as _ <-. simpl.
        rewrite (Hv _ _ Hvis). lia.
      * intros (c' & w1' & Hvis' & Hb'). rewrite Hvis in Hvis'.
        injection Hvis' as -> _. congruence.
    + split; [by exists c, w1|]. intros _.
      rewrite <- (Hv _ _ Hvis).
      destruct Hrest as [(oa & Ha & _)|(att & w2 & Ha & Hrest)];
        [by eapply attemptWithSelfHeal_clicks|].
      apply attemptWithSelfHeal_clicks in Ha.
      destruct Hrest as [(ok & Hc & _)|(w3 & Hc & Hrec)].
      * apply framed_captureNewTab, frame_count in Hc. lia.
      * apply framed_captureNewTab, frame_count in Hc.
        apply recordOutcome_log in Hrec. rewrite Hrec. lia.
Qed.

End Clicks.

(** X20. Test 5 clicks the link exactly when the pre-click screenshot could
    be taken and compared and the page was not judged broken, that is when
    there was no baseline (a first run) or the mismatch ratio is at most
    the threshold of 0.10. *)
Theorem test5_clicks_iff `{E : Env} (ctx : TestContext) (w w' : world)
    (o : outcome unit) :
  test5 ctx w = (o, w') →
  (count_acts (log w) < count_acts (log w') ↔
   ∃ c w1, visualCheck ctx w = (Ok c, w1) ∧
           (skipped c = true ∨ (mismatchRatio c <= VISUAL_DIFF_THRESHOLD)%Q)).
Proof.
  intros Hrun. rewrite (test5_clicks ctx _ _ _ Hrun).
  split; intros (c & w1 & Hv & Hb); exists c, w1; split; try done;
    by apply pageVisuallyBroken_false.
Qed.

Lemma test5_clicks_iff_witness :
  count_acts (log Scripted.broken_page)
    < count_acts (log (test5 Scripted.ctx Scripted.broken_page).2) ↔
  ∃ c w1, visualCheck Scripted.ctx Scripted.broken_page = (Ok c, w1) ∧
          (skipped c = true ∨
           (mismatchRatio c <= VISUAL_DIFF_THRESHOLD)%Q).
Proof.
  apply (test5_clicks_iff Scripted.ctx Scripted.broken_page
           (test5 Scripted.ctx Scripted.broken_page).2 (Ok tt)).
  apply run_eq. vm_compute. reflexivity.
Defined.

(** ** What Test 5 writes, and the page it reports *)

Section Footprint.
Context `{E : Env}.
Variable ctx : TestContext.




Lemma assess_page (b : B) :
  (success (assess ctx b) = true ↔ is_Some (githubPage (assess ctx b))) ∧
  ∀ g, githubPage (assess ctx b) = Some g →
       contains (url b g) "github.com" ∧ (g ∈ pages b ∨ g = page ctx).
Proof.
  unfold assess. simpl. destruct (find_github b (pages b)) as [g|] eqn:Hfind.
  - split; [split; [by eexists|done]|].
    intros g' [= <-]. apply find_some in Hfind as [Hin Hurl].
    split; [by apply includes_contains|]. left. by apply list_elem_of_In.
  - simpl.
    destruct (includes (url b (page ctx)) "github.com") eqn:Hurl.
    + split; [split; [by eexists|done]|]. intros g' [= <-].
      split; [by apply includes_contains|by right].
    + split; [split; [done|by intros [? ?]]|]. done.
Qed.

End Footprint.



(** X22. The page an attempt reports as the GitHub page is there exactly
    when the attempt is a success; its URL contains "github.com", and it is
    an open page or the original page. *)
Theorem assess_githubPage `{E : Env} (ctx : TestContext) (b : B) :
  (success (assess ctx b) = true ↔ is_Some (githubPage (assess ctx b))) ∧
  ∀ g, githubPage (assess ctx b) = Some g →
       contains (url b g) "github.com" ∧ (g ∈ pages b ∨ g = page ctx).
Proof. apply assess_page. Qed.

(** X23. The helpers of the monolithic [e2e-cfe.ts] do what the helpers of
    the refactored version do when those are given the directories of
    [test-runner.ts]: comparing, saving the baseline and encoding the video
    are the same computations. *)
Theorem monolithic_helpers_agree `{R : Runner} :
  (∀ (currentPath : path) (baselineName : string) (diffPath : path),
     Monolithic.compareScreenshots currentPath
       (path_join BASELINES_DIR (baselineName +:+ ".png")) diffPath =
     compareWithBaseline currentPath baselineName BASELINES_DIR diffPath) ∧
  (∀ (screenshotPath : path) (baselineName : string),
     Monolithic.saveBaseline screenshotPath baselineName =
     saveBaseline screenshotPath baselineName BASELINES_DIR) ∧
  (∀ rate : nat,
     Monolithic.framesToVideo rate = framesToVideo FRAMES_DIR RECORDING_DIR rate).
Proof. done. Qed.

(** ** The frame recorder *)

Lemma pretty_N_go_head (x : N) : ∀ s,
  (0 < x)%N → ∃ c rest, pretty_N_go x s = String c rest ∧ c ≠ "0"%char.
Proof.
  induction (N.lt_wf_0 x) as [x _ IH]. intros s Hx.
  rewrite pretty_N_go_step by done.
  destruct (decide (x `div` 10 = 0)%N) as [Hz|Hnz].
  - rewrite Hz, pretty_N_go_0. eexists _, _. split; [done|].
    assert (x < 10)%N as Hlt by (apply N.div_small_iff in Hz; lia).
    rewrite N.mod_small by done.
    assert (x = 1 ∨ x = 2 ∨ x = 3 ∨ x = 4 ∨ x = 5 ∨ x = 6
            ∨ x = 7 ∨ x = 8 ∨ x = 9)%N as Hcases by lia.
    by destruct Hcases as [->|[->|[->|[->|[->|[->|[->|[->| ->]]]]]]]].
  - apply IH; [apply N.div_lt; lia | by apply N.neq_0_lt_0].
Qed.

(** A decimal numeral is "0" or starts with another digit. *)
Lemma pretty_nat_head (i : nat) :
  (i = 0 ∧ pretty i = "0") ∨
  (i ≠ 0 ∧ ∃ c rest, pretty i = String c rest ∧ c ≠ "0"%char).
Proof.
  destruct i as [|i]; [by left|]. right. split; [done|].
  unfold pretty, pretty_nat, pretty, pretty_N.
  rewrite decide_False by lia. apply pretty_N_go_head. lia.
Qed.

Lemma zeros_pretty_inj (a : nat) : ∀ (b i j : nat),
  zeros a +:+ pretty i = zeros b +:+ pretty j → i = j.
Proof.
  assert (∀ (b i j : nat), pretty i = zeros b +:+ pretty j → i = j) as Hbase.
  { intros [|b] i j; simpl; [apply pretty_nat_inj|].
    rewrite append_String. intros Hi.
    destruct (pretty_nat_head i) as [[-> Hp]|[_ (c & rest & Hp & Hc)]];
      rewrite Hp in Hi; [|by injection Hi as -> _].
    injection Hi as Hi. destruct b; simpl in Hi.
    - destruct (pretty_nat_head j) as [[_ Hq]|[_ (c & rest & Hq & _)]];
        by rewrite Hq in Hi.
    - by rewrite append_String in Hi. }
  induction a as [|a IH]; intros b i j; simpl; [apply Hbase|].
  destruct b as [|b]; simpl.
  - intros Heq. symmetry. by apply (Hbase (S a)).
  - rewrite !append_String. intros [= Heq]. by eapply IH.
Qed.

Lemma append_inv_tail (t : string) : ∀ s s' : string,
  s +:+ t = s' +:+ t → s = s'.
Proof.
  induction s as [|c s IH]; intros [|c' s'] Heq; [done| | |].
  - apply (f_equal String.length) in Heq. rewrite !append_length in Heq.
    simpl in Heq. lia.
  - apply (f_equal String.length) in Heq. rewrite !append_length in Heq.
    simpl in Heq. lia.
  - rewrite !append_String in Heq. injection Heq as -> Heq. f_equal. by apply IH.
Qed.

Lemma frame_file_inj_aux (framesDir : path) (i j : nat) :
  frame_file framesDir i = frame_file framesDir j → i = j.
Proof.
  unfold frame_file, path_join. intros [= Heq]%app_inv_head.
  rewrite !append_empty in Heq. apply append_inv_tail in Heq. unfold padStart in Heq.
  by eapply zeros_pretty_inj.
Qed.

Section Frames2.
Context `{E : Env}.

Lemma capture_round_run (pg : handle) (framesDir : path) (intervalMs : nat)
    (r : recorder) (w : world) :
  frames_numbered framesDir r (disk w) →
  ∃ r' w', capture_round pg framesDir intervalMs r w = (Ok r', w') ∧
    frames_numbered framesDir r' (disk w') ∧
    frameIndex r ≤ frameIndex r' ≤ S (frameIndex r) ∧
    results w' = results w ∧
    (∀ q, q ≠ frame_file framesDir (frameIndex r) → disk w' !! q = disk w !! q).
Proof.
  intros Hinv. unfold capture_round. rewrite bind_run.
  destruct (injecting r).
  { simpl. eexists _, _. split; [reflexivity|]. simpl. split; [done|].
    split; [lia|]. done. }
  unfold try_catch. rewrite bind_run.
  destruct (page_screenshot _ _ _ w) as [o w1] eqn:Hshot.
  pose proof (halts_page_screenshot pg (frame_file framesDir (frameIndex r))
                false w) as Hh.
  rewrite Hshot in Hh.
  destruct (framed_page_screenshot (λ p, p = frame_file framesDir (frameIndex r))
              (λ _, True) _ _ _ eq_refl I _ _ _ Hshot) as [Hres _ Hdisk].
  destruct o as [[]| |]; simpl; [| |done].
  - eexists _, _. split; [reflexivity|]. simpl.
    split; [|split; [lia|split; [done|by intros q Hq; apply Hdisk]]].
    assert (∃ c, disk w1 !! frame_file framesDir (frameIndex r) = Some (File c))
      as Hnew.
    { revert Hshot. unfold page_screenshot.
      destruct (capture pg false (browser w)) as [b [bytes|]]; [|done].
      unfold liftFs, Fs.writeFileSync. simpl.
      destruct (Fs.writable _ _); [|done]. intros [= <-]. simpl.
      exists bytes. apply lookup_insert_eq. }
    intros i. simpl. destruct (decide (i = frameIndex r)) as [->|Hne].
    + split; [lia|done].
    + rewrite Hdisk by (intros Heq; by apply frame_file_inj_aux in Heq).
      rewrite (Hinv i). lia.
  - eexists _, _. split; [reflexivity|]. simpl.
    split; [|split; [lia|split; [done|by intros q Hq; apply Hdisk]]].
    intros i. simpl. destruct (decide (i = frameIndex r)) as [->|Hne].
    + split; [|lia]. intros [c Hc].
      assert (disk w1 = disk w) as Hsame.
      { revert Hshot. unfold page_screenshot.
        destruct (capture pg false (browser w)) as [b [bytes|]];
          [|by intros [= <-]].
        unfold liftFs, Fs.writeFileSync. simpl.
        destruct (Fs.writable _ _); [done|]. by intros [= <-]. }
      rewrite Hsame in Hc. apply (Hinv (frameIndex r)). by exists c.
    + rewrite Hdisk by (intros Heq; by apply frame_file_inj_aux in Heq).
      apply Hinv.
Qed.

End Frames2.

(** X24. Two frames never share a file: the names [frame-NNNNN.png] of
    different frame numbers differ, also beyond five digits. *)
Theorem frame_file_inj (framesDir : path) (i j : nat) :
  frame_file framesDir i = frame_file framesDir j ↔ i = j.
Proof. split; [apply frame_file_inj_aux|by intros ->]. Qed.

(** X25. The frames are numbered without gaps.  If the frame files on the
    disk are those numbered below [frameIndex], they still are after any
    number of rounds of the capture loop, whichever of its screenshots fail
    and whatever the rest of the program does in between, as long as that
    leaves the frame files alone; every round adds at most one frame; and
    once [stop()] has raised the flag the loop does nothing more. *)
Theorem capture_numbered `{E : Env} (pg : handle) (framesDir : path)
    (intervalMs : nat) (moves : list (world → world)) (r : recorder) (w : world) :
  Forall (keeps_frames framesDir) moves →
  frames_numbered framesDir r (disk w) →
  frames_numbered framesDir
    (capture_loop pg framesDir intervalMs moves r w).1
    (disk (capture_loop pg framesDir intervalMs moves r w).2) ∧
  frameIndex r ≤ frameIndex (capture_loop pg framesDir intervalMs moves r w).1
    ≤ frameIndex r + length moves ∧
  capture_loop pg framesDir intervalMs moves (stop r) w = (stop r, w).
Proof.
  intros Hmoves Hinv0. split; [|split]; [| |by destruct moves].
  - revert r w Hinv0.
    induction Hmoves as [|move moves Hmove _ IH]; intros r w Hinv; simpl; [done|].
    destruct (stopped r); [done|].
    destruct (capture_round_run pg framesDir intervalMs r (move w))
      as (r1 & w1 & -> & Hinv1 & _).
    { intros i. rewrite Hmove. apply Hinv. }
    by apply IH.
  - revert r w Hinv0.
    induction Hmoves as [|move moves Hmove _ IH]; intros r w Hinv; simpl; [lia|].
    destruct (stopped r); [simpl; lia|].
    destruct (capture_round_run pg framesDir intervalMs r (move w))
      as (r1 & w1 & -> & Hinv1 & Hidx & _).
    { intros i. rewrite Hmove. apply Hinv. }
    specialize (IH r1 w1 Hinv1). lia.
Qed.

Lemma capture_numbered_witness :
  frameIndex ScriptedRun.recorder0
  ≤ frameIndex (capture_loop (E := Scripted.env) 0 ScriptedRun.frames 500
                  [ScriptedRun.still] ScriptedRun.recorder0 (world_of ScriptedRun.run)).1
  ≤ frameIndex ScriptedRun.recorder0 + length [ScriptedRun.still].
Proof.
  apply (capture_numbered (E := Scripted.env) 0 ScriptedRun.frames 500
           [ScriptedRun.still] ScriptedRun.recorder0 (world_of ScriptedRun.run)).
  - repeat constructor.
  - intros i. split; [|simpl; lia]. intros [c Hc]. exfalso. revert Hc.
    simpl. unfold ScriptedRun.disk_ready, Scripted.disk0.
    rewrite !lookup_insert_ne
      by (intros Heq; apply (f_equal length) in Heq;
          rewrite frame_file_length in Heq; vm_compute in Heq; discriminate Heq).
    rewrite lookup_empty. discriminate.
Defined.

(** ** The browser calls of the attempts *)

Section Protocol.
Context `{E : Env}.
Variable ctx : TestContext.


End Protocol.



(** The whole run on the scripted collaborators: Test 3 finds no book, so
    the exit code is 1, and all five steps are reported. *)
Example main_scripted_run :
  exitCode (main (R := ScriptedRun.runner) Scripted.ctx ScriptedRun.run).2 = Some 1 ∧
  map step (results (world_of (main (R := ScriptedRun.runner) Scripted.ctx ScriptedRun.run).2)) = all_steps ∧
  map passed (results (world_of (main (R := ScriptedRun.runner) Scripted.ctx ScriptedRun.run).2))
  = [true; true; false; true; true].
Proof. repeat split; vm_compute; reflexivity. Qed.
